(** * OpenInterviewer: interview orchestration core

    A shallow embedding of the provider layer ([cleanJSON],
    [defaultInterviewResponse]), the Gemini provider
    ([generateInterviewResponse]) and the prompt assembler
    ([buildInterviewSystemPrompt]), with the properties the specification
    states about them. *)

From Stdlib Require Import ZArith NArith Ascii String DecimalString.
From Stdlib Require Import Floats.SpecFloat Sorting.Sorted Sorting.Permutation.
From stdpp Require Import base tactics option list gmap.

Local Open Scope Z_scope.

(** ** JavaScript strings

    A JavaScript string is a sequence of UTF-16 code units; [indexOf],
    indexing, [substring], [trim] and regular expressions without the [u]
    flag all work on code units. *)

Definition char : Type := N.
Definition jsstring : Type := list char.

(** The code units of an ASCII literal. *)
Definition js (s : string) : jsstring :=
  map N_of_ascii (list_ascii_of_string s).

Definition LF : char := 10%N.
Definition DQUOTE : char := 34%N.
Definition COMMA : char := 44%N.
Definition LBRACKET : char := 91%N.
Definition RBRACKET : char := 93%N.
Definition BACKTICK : char := 96%N.
Definition LBRACE : char := 123%N.
Definition RBRACE : char := 125%N.

(** ECMAScript WhiteSpace and LineTerminator code points: the class [\s]
    of a regular expression, and what [trim] removes. *)
Definition isWhiteSpace (c : char) : bool :=
  ((9 <=? c) && (c <=? 13))%N
  || (c =? 32)%N || (c =? 160)%N || (c =? 5760)%N
  || ((8192 <=? c) && (c <=? 8202))%N
  || (c =? 8232)%N || (c =? 8233)%N || (c =? 8239)%N
  || (c =? 8287)%N || (c =? 12288)%N || (c =? 65279)%N.

Fixpoint dropWhile {A} (p : A -> bool) (l : list A) : list A :=
  match l with
  | [] => []
  | x :: l' => if p x then dropWhile p l' else l
  end.

(** [String.prototype.trim]. *)
Definition trim (s : jsstring) : jsstring :=
  reverse (dropWhile isWhiteSpace (reverse (dropWhile isWhiteSpace s))).

(** [stripPrefix lit s] is the rest of [s] after a leading [lit]. *)
Fixpoint stripPrefix (lit s : jsstring) : option jsstring :=
  match lit, s with
  | [], _ => Some s
  | _ :: _, [] => None
  | a :: lit', b :: s' => if (a =? b)%N then stripPrefix lit' s' else None
  end.

(** [s.replace(/lit\s*/g, '')] for a non-empty literal [lit]: matches are
    taken leftmost first and do not overlap; a match is [lit] followed by
    the longest run of white space.  Every round consumes a code unit, so
    [length s] rounds are enough ([replaceAll_cons_match],
    [replaceAll_cons_skip]). *)
Fixpoint replaceAllFuel (fuel : nat) (lit s : jsstring) : jsstring :=
  match fuel with
  | O => []
  | S fuel' =>
      match s with
      | [] => []
      | c :: s' =>
          match stripPrefix lit s with
          | Some rest => replaceAllFuel fuel' lit (dropWhile isWhiteSpace rest)
          | None => c :: replaceAllFuel fuel' lit s'
          end
      end
  end.

Definition replaceAll (lit s : jsstring) : jsstring :=
  replaceAllFuel (length s) lit s.

(** [s.indexOf(c)] for a single code unit: the first index, or [-1]. *)
Fixpoint indexOfFrom (c : char) (s : jsstring) (i : Z) : Z :=
  match s with
  | [] => -1
  | x :: s' => if (x =? c)%N then i else indexOfFrom c s' (i + 1)
  end.

Definition indexOf (c : char) (s : jsstring) : Z := indexOfFrom c s 0.

(** [s.substring(a, b)]: both ends are clamped to [0 .. length] and
    swapped when out of order. *)
Definition substring (s : jsstring) (a b : Z) : jsstring :=
  let len := Z.of_nat (length s) in
  let a' := Z.min (Z.max a 0) len in
  let b' := Z.min (Z.max b 0) len in
  let lo := Z.min a' b' in
  let hi := Z.max a' b' in
  take (Z.to_nat (hi - lo)) (drop (Z.to_nat lo) s).

(** ** [cleanJSON] (provider abstraction layer) *)

Definition fenceJson : jsstring := js "```json".
Definition fence : jsstring := js "```".

(** The body of
    [for (let i = first; i < cleaned.length; i++) { ... }]:
    [rest] is [cleaned] from index [i] on.  [Some i] is the index at which
    the loop returns, [None] is the loop running off the end. *)
Fixpoint scanDepth (opening closing : char) (rest : jsstring) (i depth : Z)
  : option Z :=
  match rest with
  | [] => None
  | ch :: rest' =>
      let depth := if (ch =? opening)%N then depth + 1 else depth in
      let depth := if (ch =? closing)%N then depth - 1 else depth in
      if depth =? 0 then Some i
      else scanDepth opening closing rest' (i + 1) depth
  end.

Definition stripFences (text : jsstring) : jsstring :=
  trim (replaceAll fence (replaceAll fenceJson text)).

Definition cleanJSON (text : jsstring) : jsstring :=
  match text with
  | [] => js "{}"
  | _ :: _ =>
      let cleaned := stripFences text in
      let firstBracket := indexOf LBRACKET cleaned in
      let firstBrace := indexOf LBRACE cleaned in
      let arrayEnd :=
        if negb (firstBracket =? -1)
           && ((firstBrace =? -1) || (firstBracket <? firstBrace))
        then scanDepth LBRACKET RBRACKET
               (drop (Z.to_nat firstBracket) cleaned) firstBracket 0
        else None in
      match arrayEnd with
      | Some i => substring cleaned firstBracket (i + 1)
      | None =>
          let objectEnd :=
            if negb (firstBrace =? -1)
            then scanDepth LBRACE RBRACE
                   (drop (Z.to_nat firstBrace) cleaned) firstBrace 0
            else None in
          match objectEnd with
          | Some i => substring cleaned firstBrace (i + 1)
          | None => cleaned
          end
      end
  end.

(** ** Data model (types) *)

Inductive InterviewPhase : Type :=
  | Background | CoreQuestions | Exploration | Feedback | WrapUp.

Record QuestionProgress : Type := {
  questionsAsked : list Z;
  total : Z;
  currentPhase : InterviewPhase;
  isComplete : bool
}.

Record ProfileField : Type := {
  pf_id : jsstring;
  pf_label : jsstring;
  extractionHint : jsstring;
  required : bool;
  options : option (list jsstring)
}.

Inductive ProfileFieldStatus : Type :=
  | Pending | Extracted | Vague | Refused.

Record ProfileFieldValue : Type := {
  fieldId : jsstring;
  value : option jsstring;
  status : ProfileFieldStatus;
  extractedAt : option Z
}.

(** [nickname] is read by the prompt assembler as an optional string. *)
Record ParticipantProfile : Type := {
  pp_id : jsstring;
  fields : list ProfileFieldValue;
  rawContext : jsstring;
  timestamp : Z;
  nickname : option jsstring
}.

Inductive AIBehavior : Type := Structured | Standard | Exploratory.

Inductive InterviewerTone : Type :=
  | Formal | Professional | Neutral | Friendly | ExtremelyFriendly.

(** [tone] and [language] are read by the prompt assembler; [tone] may be
    absent (the parameter default applies), [language] is compared with
    ['jp']. *)
Record StudyConfig : Type := {
  sc_id : jsstring;
  name : jsstring;
  description : jsstring;
  researchQuestion : jsstring;
  coreQuestions : list jsstring;
  topicAreas : list jsstring;
  profileSchema : list ProfileField;
  aiBehavior : AIBehavior;
  consentText : jsstring;
  createdAt : Z;
  tone : option InterviewerTone;
  language : option jsstring
}.

Inductive Role : Type := RoleUser | RoleAi | RoleSystem.

Record InterviewMessage : Type := {
  im_id : jsstring;
  role : Role;
  content : jsstring;
  im_timestamp : Z;
  isVoice : option bool
}.

Definition phaseName (p : InterviewPhase) : jsstring :=
  match p with
  | Background => js "background"
  | CoreQuestions => js "core-questions"
  | Exploration => js "exploration"
  | Feedback => js "feedback"
  | WrapUp => js "wrap-up"
  end.

Definition statusName (s : ProfileFieldStatus) : jsstring :=
  match s with
  | Pending => js "pending"
  | Extracted => js "extracted"
  | Vague => js "vague"
  | Refused => js "refused"
  end.

Definition Role_eqb (a b : Role) : bool :=
  match a, b with
  | RoleUser, RoleUser | RoleAi, RoleAi | RoleSystem, RoleSystem => true
  | _, _ => false
  end.

(** ** Template-literal helpers *)

(** [a === b] on strings. *)
Fixpoint jsstring_eqb (a b : jsstring) : bool :=
  match a, b with
  | [], [] => true
  | x :: a', y :: b' => (x =? y)%N && jsstring_eqb a' b'
  | _, _ => false
  end.

(** [parts.join(sep)]. *)
Fixpoint join (sep : jsstring) (parts : list jsstring) : jsstring :=
  match parts with
  | [] => []
  | [p] => p
  | p :: rest => p ++ sep ++ join sep rest
  end.

(** The text of a template literal, line by line. *)
Definition lines (ls : list jsstring) : jsstring := join [LF] ls.

Definition quoted (s : jsstring) : jsstring := [DQUOTE] ++ s ++ [DQUOTE].

(** [`${n}`] for a non-negative integer. *)
Definition showNat (n : nat) : jsstring :=
  js (NilEmpty.string_of_uint (Nat.to_uint n)).

(** [`${v}`] for a [string | null]. *)
Definition showNullable (v : option jsstring) : jsstring :=
  match v with
  | Some s => s
  | None => js "null"
  end.

(** ** Prompt assembler (lib/prompts/interview.ts) *)

Definition getAIBehaviorInstruction (behavior : AIBehavior) : jsstring :=
  match behavior with
  | Structured => lines [
      js "BEHAVIOR MODE: Structured";
      js "- Prioritize brevity and script completion";
      js "- Ask only clarifying follow-ups (0-1 per question)";
      js "- Redirect tangents: "
        ++ quoted (js "That's interesting, but let's focus on...") ]
  | Exploratory => lines [
      js "BEHAVIOR MODE: Exploratory";
      js "- Prioritize depth over coverage";
      js "- Follow emotional threads and probe underlying motivations (3+ follow-ups if rich)";
      js "- Chase interesting tangents immediately if relevant";
      js "- Treat the script as a guide, not a checklist" ]
  | Standard => lines [
      js "BEHAVIOR MODE: Standard (Balanced)";
      js "- Balance script completion with natural conversation";
      js "- Follow up once or twice on key insights, then move on";
      js "- Note interesting tangents for the Exploration phase later" ]
  end.

(** [getToneInstruction(tone = 'neutral')]: an absent tone takes the
    parameter default. *)
Definition getToneInstruction (t : option InterviewerTone) : jsstring :=
  match default Neutral t with
  | Formal => lines [
      js "TONE: Formal";
      js "- Maintain professional distance";
      js "- Be objective and detached";
      js "- Use precise, academic language";
      js "- Avoid all casualisms or warmth" ]
  | Professional => lines [
      js "TONE: Professional";
      js "- Be polite and respectful but strictly business-like";
      js "- Focus on the task involved";
      js "- Maintain a courteous but reserved demeanor" ]
  | Friendly => lines [
      js "TONE: Friendly";
      js "- Be warm and welcoming";
      js "- Use engaging, natural language";
      js "- Show interest in the participant's responses";
      js "- Feel free to be slightly casual where appropriate" ]
  | ExtremelyFriendly => lines [
      js "TONE: Extremely Friendly (Bestie Mode)";
      js "- Act like a close friend";
      js "- Be very enthusiastic and high-energy";
      js "- Use casual language and slang where appropriate";
      js "- Show high empathy and excitement" ]
  | Neutral => lines [
      js "TONE: Neutral";
      js "- Normal conversational tone";
      js "- Neither overly cold nor overly intimate";
      js "- Natural and balanced" ]
  end.

(** [arr.find(p)]: the first element satisfying [p], or [undefined]. *)
Fixpoint find {A} (p : A -> bool) (l : list A) : option A :=
  match l with
  | [] => None
  | x :: l' => if p x then Some x else find p l'
  end.

(** [profile?.fields.find(f => f.fieldId === id)]. *)
Definition findFieldValue (profile : option ParticipantProfile)
    (id : jsstring) : option ProfileFieldValue :=
  match profile with
  | None => None
  | Some p => find (fun f => jsstring_eqb (fieldId f) id) (fields p)
  end.

(** U+2192, the arrow of the status display. *)
Definition ARROW : char := 8594%N.

Definition formatProfileFieldWith (found : option ProfileFieldValue)
    (field : ProfileField) : jsstring :=
  let status := match found with Some v => status v | None => Pending end in
  let statusDisplay :=
    match status with
    | Extracted =>
        js "extracted " ++ [ARROW] ++ js " "
          ++ quoted (showNullable (found ≫= value))
    | _ => statusName status
    end in
  js "- " ++ pf_id field ++ js " ("
    ++ (if required field then js "required" else js "optional")
    ++ js "): " ++ quoted (extractionHint field)
    ++ js " - STATUS: " ++ statusDisplay.

Definition formatProfileField (profile : option ParticipantProfile)
    (field : ProfileField) : jsstring :=
  formatProfileFieldWith (findFieldValue profile (pf_id field)) field.

Definition formatProfileFields (schema : list ProfileField)
    (profile : option ParticipantProfile) : jsstring :=
  join [LF] (map (formatProfileField profile) schema).

(** [{ index: i, question: q }]. *)
Record IndexedQuestion : Type := { index : Z; question : jsstring }.

(** [arr.map((q, i) => ({ index: i, question: q }))], from index [i]. *)
Fixpoint indexFrom (i : Z) (qs : list jsstring) : list IndexedQuestion :=
  match qs with
  | [] => []
  | q :: qs' => {| index := i; question := q |} :: indexFrom (i + 1) qs'
  end.

(** [arr.includes(n)] on numbers. *)
Definition includes (l : list Z) (n : Z) : bool :=
  existsb (Z.eqb n) l.

Definition remainingQuestions (cfg : StudyConfig) (prog : QuestionProgress)
  : list IndexedQuestion :=
  List.filter (fun q => negb (includes (questionsAsked prog) (index q)))
    (indexFrom 0 (coreQuestions cfg)).

(** [requiredFields.filter(f => { ... })]: the required fields whose first
    recorded value is missing, pending or vague. *)
Definition unresolvedValue (found : option ProfileFieldValue) : bool :=
  match found with
  | None => true
  | Some v =>
      match status v with
      | Pending | Vague => true
      | Extracted | Refused => false
      end
  end.

Definition isUnresolved (profile : option ParticipantProfile)
    (f : ProfileField) : bool :=
  unresolvedValue (findFieldValue profile (pf_id f)).

Definition pendingRequired (cfg : StudyConfig)
    (profile : option ParticipantProfile) : list ProfileField :=
  List.filter (isUnresolved profile) (List.filter required (profileSchema cfg)).

(** U+26A0 U+FE0F, the warning sign that opens the block. *)
Definition WARNING_SIGN : jsstring := [9888%N; 65039%N].

(** The text the template emits for [n] pending required fields. *)
Definition pendingWarningText (n : nat) : jsstring :=
  [LF] ++ WARNING_SIGN ++ js " " ++ showNat n
    ++ js " required fields still pending. Stay in background phase until collected or explicitly refused.".

(** [${pendingRequired.length > 0 ? `...` : ''}]. *)
Definition pendingWarning (cfg : StudyConfig)
    (profile : option ParticipantProfile) : jsstring :=
  let n := length (pendingRequired cfg profile) in
  if (0 <? n)%nat then pendingWarningText n else [].

Definition languageInstruction (cfg : StudyConfig) : jsstring :=
  match language cfg with
  | Some l =>
      if jsstring_eqb l (js "jp")
      then js "IMPORTANT: You must conduct this interview entirely in Japanese. Translate any system instructions or questions into natural, professional Japanese."
      else js "Language: English"
  | None => js "Language: English"
  end.

(** [x || fallback] on strings: the empty string is falsy. *)
Definition orElse (x fallback : jsstring) : jsstring :=
  match x with
  | [] => fallback
  | _ :: _ => x
  end.

(** [`  ${q.index + 1}. ${q.question}`]. *)
Definition questionLine (q : IndexedQuestion) : jsstring :=
  js "  " ++ showNat (Z.to_nat (index q + 1)) ++ js ". " ++ question q.

(** [${remainingQuestions.length > 0 ? `...` : '...'}]. *)
Definition remainingBlockOf (remaining : list IndexedQuestion) : jsstring :=
  if (0 <? length remaining)%nat
  then js "- Remaining questions:" ++ [LF]
       ++ join [LF] (map questionLine (take 3 remaining))
  else js "- All core questions covered".

Definition remainingBlock (cfg : StudyConfig) (prog : QuestionProgress)
  : jsstring :=
  remainingBlockOf (remainingQuestions cfg prog).

(** The template up to the end of the profile-fields listing, for the
    given texts of its array expressions: [topics] is
    [topicAreas.join(', ')], [asked] and [core] are the two lengths,
    [remaining] is the remaining-questions expression and [profileText]
    is [formatProfileFields(...)]. *)
Definition promptHeadWith (cfg : StudyConfig)
    (profile : option ParticipantProfile) (prog : QuestionProgress)
    (topics : jsstring) (asked core : nat) (remaining profileText : jsstring)
  : list jsstring := [
    js "You are an AI research interviewer conducting a qualitative study.";
    match profile ≫= nickname with
    | Some ((_ :: _) as n) => js "PARTICIPANT IDENTIFIER: " ++ n
    | _ => []
    end;
    languageInstruction cfg;
    [];
    js "STUDY DETAILS:";
    js "- Research Question: " ++ researchQuestion cfg;
    js "- Description: " ++ description cfg;
    js "- Topics to Explore: " ++ topics;
    [];
    getAIBehaviorInstruction (aiBehavior cfg);
    [];
    getToneInstruction (tone cfg);
    [];
    js "CURRENT INTERVIEW STATE:";
    js "- Phase: " ++ phaseName (currentPhase prog);
    js "- Core questions completed: "
      ++ showNat asked ++ js " of " ++ showNat core;
    remaining;
    [];
    js "PROFILE FIELDS TO COLLECT:";
    profileText ].

Definition promptHead (cfg : StudyConfig)
    (profile : option ParticipantProfile) (prog : QuestionProgress)
  : list jsstring :=
  promptHeadWith cfg profile prog
    (join (js ", ") (topicAreas cfg))
    (length (questionsAsked prog)) (length (coreQuestions cfg))
    (remainingBlock cfg prog)
    (formatProfileFields (profileSchema cfg) profile).

(** The template after the pending-fields slot. *)
Definition promptTail (profile : option ParticipantProfile)
    (currentContext : jsstring) : list jsstring := [
    [];
    js "PARTICIPANT CONTEXT:";
    orElse (match profile with Some p => rawContext p | None => [] end)
      (js "No background gathered yet.");
    [];
    js "INTERVIEW FLOW INSTRUCTIONS:";
    js "1. BACKGROUND PHASE: Gather profile fields naturally. Bundle related questions. If answer is vague, ask one clarifying follow-up. If user refuses, mark as refused and move on.";
    js "2. CORE QUESTIONS PHASE: Work through remaining core questions. Weave them naturally - don't follow strict order. Probe deeper on interesting responses.";
    js "3. EXPLORATION PHASE: After all core questions, ask: "
      ++ quoted (js "Is there anything else about [topic] you'd like to explore or share?");
    js "4. FEEDBACK PHASE: Ask: "
      ++ quoted (js "As a final question - do you have any feedback for the researchers about this study or interview experience?");
    js "5. WRAP-UP PHASE: Thank them warmly and signal that the interview is complete.";
    [];
    js "RULES:";
    js "- Ask ONE question at a time";
    js "- Use active listening - reflect back what you hear";
    js "- Keep responses concise (2-3 sentences typical)";
    js "- When a core question is substantially addressed, note its index";
    js "- Extract profile data from user responses when mentioned";
    js "- Signal shouldConclude=true only after feedback phase is complete";
    js "- ALWAYS end your response with a question, unless the interview is concluding (shouldConclude=true)";
    js "- If the user asks a question, answer it briefly and then immediately ask a follow-up or return to the topic. Do not just answer.";
    [];
    match currentContext with
    | [] => []
    | _ :: _ => js "ADDITIONAL CONTEXT:" ++ [LF] ++ currentContext
    end ].

Definition buildInterviewSystemPrompt (cfg : StudyConfig)
    (profile : option ParticipantProfile) (prog : QuestionProgress)
    (currentContext : jsstring) : jsstring :=
  lines (promptHead cfg profile prog ++ [pendingWarning cfg profile]
           ++ promptTail profile currentContext).

(** ** JavaScript values and exceptions *)

#[local] Set Warnings "-register-all".

(** What [JSON.parse] can return.  A number is an IEEE 754 double; an
    object is its own properties in insertion order. *)
Inductive json : Type :=
  | JNull
  | JBool (b : bool)
  | JNum (x : spec_float)
  | JStr (s : jsstring)
  | JArr (items : list json)
  | JObj (props : list (jsstring * json)).

Inductive error : Type :=
  | SyntaxError      (* JSON.parse on text that is not JSON *)
  | TypeError        (* property read on null *)
  | BackendError.    (* anything the SDK call throws or rejects with *)

(** The outcome of evaluating an expression that may throw. *)
Inductive result (A : Type) : Type :=
  | Ok (a : A)
  | Throw (e : error).
Arguments Ok {A} a.
Arguments Throw {A} e.

#[global] Instance result_ret : MRet result := fun _ a => Ok a.

#[global] Instance result_bind : MBind result := fun _ _ k m =>
  match m with
  | Ok a => k a
  | Throw e => Throw e
  end.

(** [try { body } catch (error) { handler }]. *)
Definition tryCatch {A} (body : result A) (handler : error -> result A)
  : result A :=
  match body with
  | Ok a => Ok a
  | Throw e => handler e
  end.

(** ToBoolean.  [None] stands for [undefined]. *)
Definition truthy (v : option json) : bool :=
  match v with
  | None => false
  | Some JNull => false
  | Some (JBool b) => b
  | Some (JNum (S754_zero _)) => false
  | Some (JNum S754_nan) => false
  | Some (JNum _) => true
  | Some (JStr []) => false
  | Some (JStr (_ :: _)) => true
  | Some (JArr _) => true
  | Some (JObj _) => true
  end.

(** [a || b]. *)
Definition orDefault (a : option json) (b : json) : json :=
  match a with
  | Some v => if truthy a then v else b
  | None => b
  end.

(** [a ?? b]: only [undefined] and [null] give way to [b]. *)
Definition nullish (a : option json) (b : json) : json :=
  match a with
  | None | Some JNull => b
  | Some v => v
  end.

(** The own property [key] of a parsed value, [None] for [undefined].
    The five keys read below are no built-in property of strings, arrays,
    numbers or booleans, so only objects have them. *)
Definition propertyOf (parsed : json) (key : jsstring) : option json :=
  match parsed with
  | JObj props => snd <$> find (fun kv => jsstring_eqb (fst kv) key) props
  | _ => None
  end.

(** [parsed.key]: reading a property of [null] throws. *)
Definition getProp (parsed : json) (key : jsstring) : result (option json) :=
  match parsed with
  | JNull => Throw TypeError
  | _ => Ok (propertyOf parsed key)
  end.

(** ** Provider abstraction layer: fallback value *)

(** The response object as it exists at run time: the provider copies
    whatever the parsed JSON holds, so every field is a JSON value. *)
Record AIInterviewResponse : Type := {
  message : json;
  questionAddressed : json;
  phaseTransition : json;
  profileUpdates : json;
  shouldConclude : json
}.

Definition defaultInterviewResponse : AIInterviewResponse :=
  {| message := JStr (js "I appreciate you sharing that. What else comes to mind?");
     questionAddressed := JNull;
     phaseTransition := JNull;
     profileUpdates := JArr [];
     shouldConclude := JBool false |}.

(** ** Gemini provider (lib/providers/gemini.ts) *)

Inductive ChatRole : Type := ChatModel | ChatUser.

(** [{ role, parts: [{ text }] }]. *)
Record ChatTurn : Type := { turnRole : ChatRole; turnText : jsstring }.

(** Everything [generateInterviewResponse] hands to the SDK: the chat
    configuration of [chats.create] and the argument of [sendMessage]. *)
Record ChatRequest : Type := {
  systemInstruction : jsstring;
  chatHistory : list ChatTurn;
  sentMessage : jsstring
}.

(** What the SDK calls do: throw (or reject), or resolve with a result
    whose [text] may be [undefined].  The provider sets no timer of its
    own: an unreachable backend, a timeout and an exhausted quota reach
    it as a rejection from the SDK. *)
Inductive BackendOutcome : Type :=
  | Rejected
  | Resolved (text : option jsstring).

(** [history.slice(-10)]. *)
Definition sliceLast10 (history : list InterviewMessage)
  : list InterviewMessage :=
  drop (length history - 10)%nat history.

Definition toChatTurn (h : InterviewMessage) : ChatTurn :=
  {| turnRole := if Role_eqb (role h) RoleAi then ChatModel else ChatUser;
     turnText := content h |}.

(** [history.filter(m => m.role === 'user').pop()]. *)
Definition lastUserMessage (history : list InterviewMessage)
  : option InterviewMessage :=
  last (List.filter (fun m => Role_eqb (role m) RoleUser) history).

Definition chatRequest (history : list InterviewMessage) (cfg : StudyConfig)
    (profile : option ParticipantProfile) (prog : QuestionProgress)
    (currentContext : jsstring) : ChatRequest :=
  {| systemInstruction :=
       buildInterviewSystemPrompt cfg profile prog currentContext;
     chatHistory := map toChatTurn (sliceLast10 history);
     sentMessage :=
       orElse (match lastUserMessage history with
               | Some m => content m
               | None => []
               end)
         (js "Please continue the interview.") |}.

Definition defaultMessage : jsstring :=
  js "That's interesting. Could you tell me more?".

Section Provider.

(** [JSON.parse] and the Gemini SDK are not code of this repository:
    the provider is verified for every parser and every backend. *)
Variable JSON_parse : jsstring -> result json.
Variable backend : ChatRequest -> BackendOutcome.

(** The body of the [try] block. *)
Definition interviewAttempt (req : ChatRequest)
  : result AIInterviewResponse :=
  match backend req with
  | Rejected => Throw BackendError
  | Resolved text =>
      parsed ← JSON_parse
                 (cleanJSON (orElse (default [] text) (js "{}")));
      m ← getProp parsed (js "message");
      q ← getProp parsed (js "questionAddressed");
      t ← getProp parsed (js "phaseTransition");
      u ← getProp parsed (js "profileUpdates");
      c ← getProp parsed (js "shouldConclude");
      mret {| message := orDefault m (JStr defaultMessage);
              questionAddressed := nullish q JNull;
              phaseTransition := nullish t JNull;
              profileUpdates := orDefault u (JArr []);
              shouldConclude := orDefault c (JBool false) |}
  end.

Definition generateInterviewResponse (history : list InterviewMessage)
    (cfg : StudyConfig) (profile : option ParticipantProfile)
    (prog : QuestionProgress) (currentContext : jsstring)
  : result AIInterviewResponse :=
  tryCatch
    (interviewAttempt (chatRequest history cfg profile prog currentContext))
    (fun _ => Ok defaultInterviewResponse).

End Provider.

(** ** Question-progress model, profile model and turn orchestrator

    The client store and the interview route that hold this logic are
    not among the sources; only the types they work on are.  The
    definitions of this part follow the specification, sections 4.1, 4.2
    and 4.5. *)

(** The status of a proposed update: ['extracted' | 'vague' | 'refused']. *)
Inductive UpdateStatus : Type := NowExtracted | NowVague | NowRefused.

Record ProfileUpdate : Type := {
  u_fieldId : jsstring;
  u_value : option jsstring;
  u_status : UpdateStatus
}.

(** The response as the types declare it, once its JSON is decoded. *)
Record TurnResponse : Type := {
  r_message : jsstring;
  r_questionAddressed : option Z;
  r_phaseTransition : option InterviewPhase;
  r_profileUpdates : list ProfileUpdate;
  r_shouldConclude : bool
}.

(** Modelled from the spec: the fixed five-phase order of section 3,
    background < core-questions < exploration < feedback < wrap-up; the
    source has the phases as a union type without an order. *)
Definition phaseOrder (p : InterviewPhase) : nat :=
  match p with
  | Background => 0
  | CoreQuestions => 1
  | Exploration => 2
  | Feedback => 3
  | WrapUp => 4
  end.

Definition withPhase (p : QuestionProgress) (ph : InterviewPhase)
  : QuestionProgress :=
  {| questionsAsked := questionsAsked p; total := total p;
     currentPhase := ph; isComplete := isComplete p |}.

Definition withComplete (p : QuestionProgress) (b : bool)
  : QuestionProgress :=
  {| questionsAsked := questionsAsked p; total := total p;
     currentPhase := currentPhase p; isComplete := b |}.

(** Modelled from the spec: [initialize(total)] of section 4.2, which is
    not under src/. *)
Definition initializeProgress (n : Z) : QuestionProgress :=
  {| questionsAsked := []; total := n; currentPhase := Background;
     isComplete := false |}.

(** Modelled from the spec: [markAddressed] of section 4.2, which is not
    under src/: the index joins the set when [0 <= index < total]. *)
Definition markAddressed (p : QuestionProgress) (i : Z) : QuestionProgress :=
  if (0 <=? i) && (i <? total p) && negb (includes (questionsAsked p) i)
  then {| questionsAsked := questionsAsked p ++ [i]; total := total p;
          currentPhase := currentPhase p; isComplete := isComplete p |}
  else p.

(** Modelled from the spec: [advancePhase] of section 4.2, which is not
    under src/: the request is committed only when it is strictly later
    than the current phase. *)
Definition advancePhase (p : QuestionProgress) (requested : InterviewPhase)
  : QuestionProgress :=
  if (phaseOrder (currentPhase p) <? phaseOrder requested)%nat
  then withPhase p requested
  else p.

Definition Phase_eqb (a b : InterviewPhase) : bool :=
  (phaseOrder a =? phaseOrder b)%nat.

(** Modelled from the spec: [initialize(schema)] of section 4.1, which is
    not under src/: one pending value per declared field. *)
Definition initializeProfile (id : jsstring) (schema : list ProfileField)
  : ParticipantProfile :=
  {| pp_id := id;
     fields := map (fun f => {| fieldId := pf_id f; value := None;
                                status := Pending; extractedAt := None |})
                 schema;
     rawContext := []; timestamp := 0; nickname := None |}.

(** Modelled from the spec: one proposed update of [reconcile] (section
    4.1): [extracted] without a value is coerced to [vague]; a value is
    kept only with [extracted] (section 3). *)
Definition coerceUpdate (u : ProfileUpdate)
  : ProfileFieldStatus * option jsstring :=
  match u_status u, u_value u with
  | NowExtracted, Some ((_ :: _) as v) => (Extracted, Some v)
  | NowExtracted, _ => (Vague, None)
  | NowVague, _ => (Vague, None)
  | NowRefused, _ => (Refused, None)
  end.

Definition applyUpdate (fs : list ProfileFieldValue) (u : ProfileUpdate)
  : list ProfileFieldValue :=
  map (fun f =>
         if jsstring_eqb (fieldId f) (u_fieldId u)
         then {| fieldId := fieldId f; value := snd (coerceUpdate u);
                 status := fst (coerceUpdate u);
                 extractedAt := extractedAt f |}
         else f) fs.

(** Modelled from the spec: [reconcile] of section 4.1, which is not
    under src/: an update to an undeclared field changes nothing. *)
Definition reconcile (profile : ParticipantProfile)
    (updates : list ProfileUpdate) : ParticipantProfile :=
  {| pp_id := pp_id profile;
     fields := foldl applyUpdate (fields profile) updates;
     rawContext := rawContext profile; timestamp := timestamp profile;
     nickname := nickname profile |}.

Record Session : Type := {
  s_profile : ParticipantProfile;
  s_progress : QuestionProgress
}.

Record TurnResult : Type := {
  t_message : jsstring;
  t_session : Session;
  t_concluded : bool
}.

Definition requiredSatisfied (cfg : StudyConfig) (profile : ParticipantProfile)
  : bool :=
  match pendingRequired cfg (Some profile) with
  | [] => true
  | _ :: _ => false
  end.

(** Modelled from the spec: steps 3 to 5 of the transition rule of
    section 4.5, which is not under src/.  A terminal session accepts no
    turn.  The conclusion test reads the phase the turn started in: by
    the scenario of section 8, a response that proposes wrap-up and
    [shouldConclude] together from an earlier phase leaves [isComplete]
    false. *)
Definition applyTurn (cfg : StudyConfig) (s : Session) (r : TurnResponse)
  : option TurnResult :=
  if isComplete (s_progress s) then None
  else
    let profile' := reconcile (s_profile s) (r_profileUpdates r) in
    let prog1 :=
      match r_questionAddressed r with
      | Some i => markAddressed (s_progress s) i
      | None => s_progress s
      end in
    let prog2 :=
      match r_phaseTransition r with
      | Some ph =>
          if Phase_eqb (currentPhase prog1) Background
             && negb (requiredSatisfied cfg profile')
          then prog1
          else advancePhase prog1 ph
      | None => prog1
      end in
    let concluded :=
      r_shouldConclude r && Phase_eqb (currentPhase (s_progress s)) WrapUp in
    Some {| t_message := r_message r;
            t_session := {| s_profile := profile';
                            s_progress := withComplete prog2 concluded |};
            t_concluded := concluded |}.

Definition initialSession (cfg : StudyConfig) (id : jsstring) : Session :=
  {| s_profile := initializeProfile id (profileSchema cfg);
     s_progress := initializeProgress (Z.of_nat (length (coreQuestions cfg))) |}.

(** The sessions an interview can be in: the initial one, and every
    session a turn leads to. *)
Inductive reachable (cfg : StudyConfig) : Session -> Prop :=
  | reachable_init id : reachable cfg (initialSession cfg id)
  | reachable_turn s r res :
      reachable cfg s ->
      applyTurn cfg s r = Some res ->
      reachable cfg (t_session res).

(** ** Specification-level vocabulary for [cleanJSON] *)

(** The number of occurrences of a code unit. *)
Definition occurrences (c : char) (s : jsstring) : Z :=
  Z.of_nat (length (List.filter (N.eqb c) s)).

(** Openings minus closings. *)
Definition balance (opening closing : char) (s : jsstring) : Z :=
  occurrences opening s - occurrences closing s.

(** [i] is the first index of [c] in [s]. *)
Definition firstIndex (c : char) (s : jsstring) (i : nat) : Prop :=
  s !! i = Some c /\ forall j, (j < i)%nat -> s !! j <> Some c.

Definition absent (c : char) (s : jsstring) : Prop :=
  forall j, s !! j <> Some c.

(** The bracket depth of [s] first returns to zero after [S n] code
    units. *)
Definition closesAt (opening closing : char) (s : jsstring) (n : nat) : Prop :=
  (n < length s)%nat
  /\ balance opening closing (take (S n) s) = 0
  /\ forall m, (m < n)%nat -> balance opening closing (take (S m) s) <> 0.

(** The bracket depth of [s] never returns to zero. *)
Definition neverCloses (opening closing : char) (s : jsstring) : Prop :=
  forall n, (n < length s)%nat ->
    balance opening closing (take (S n) s) <> 0.

(** What [cleanJSON] returns, case by case, for a text whose fence-free
    trimmed form is [cleaned]. *)
Inductive cleanJSON_spec (text : jsstring) : jsstring -> Prop :=
  | clean_empty :
      text = [] ->
      cleanJSON_spec text (js "{}")
  | clean_array fb n :
      text <> [] ->
      firstIndex LBRACKET (stripFences text) fb ->
      (forall j, (j < fb)%nat -> stripFences text !! j <> Some LBRACE) ->
      closesAt LBRACKET RBRACKET (drop fb (stripFences text)) n ->
      cleanJSON_spec text (take (S n) (drop fb (stripFences text)))
  | clean_object fc n :
      text <> [] ->
      firstIndex LBRACE (stripFences text) fc ->
      (forall fb, firstIndex LBRACKET (stripFences text) fb -> (fb < fc)%nat ->
         neverCloses LBRACKET RBRACKET (drop fb (stripFences text))) ->
      closesAt LBRACE RBRACE (drop fc (stripFences text)) n ->
      cleanJSON_spec text (take (S n) (drop fc (stripFences text)))
  | clean_none :
      text <> [] ->
      (forall fb, firstIndex LBRACKET (stripFences text) fb ->
         (forall j, (j < fb)%nat -> stripFences text !! j <> Some LBRACE) ->
         neverCloses LBRACKET RBRACKET (drop fb (stripFences text))) ->
      (forall fc, firstIndex LBRACE (stripFences text) fc ->
         neverCloses LBRACE RBRACE (drop fc (stripFences text))) ->
      cleanJSON_spec text (stripFences text).

(** No balanced array or object starts at the first bracket or brace of
    the fence-free text. *)
Definition noJsonStructure (text : jsstring) : Prop :=
  (forall fb, firstIndex LBRACKET (stripFences text) fb ->
     neverCloses LBRACKET RBRACKET (drop fb (stripFences text)))
  /\ (forall fc, firstIndex LBRACE (stripFences text) fc ->
        neverCloses LBRACE RBRACE (drop fc (stripFences text))).

(** *** Fence stripping, declaratively

    What the two [replace] calls and the [trim] of [cleanJSON] do, said
    without the functions that compute it. *)

Definition allWhiteSpace (s : jsstring) : Prop :=
  Forall (fun c => isWhiteSpace c = true) s.

Definition startsWithWhiteSpace (s : jsstring) : Prop :=
  exists c rest, s = c :: rest /\ isWhiteSpace c = true.

Definition endsWithWhiteSpace (s : jsstring) : Prop :=
  exists front c, s = front ++ [c] /\ isWhiteSpace c = true.

(** [removed lit s out]: [out] is [s] without the occurrences of [lit],
    taken from the left without overlap, each with all the white space
    that follows it; the other code units stay, in their order.  This is
    what replacing the global pattern [lit\s*] by the empty string
    gives. *)
Inductive removed (lit : jsstring) : jsstring -> jsstring -> Prop :=
  | removed_end : removed lit [] []
  | removed_match ws rest out :
      allWhiteSpace ws ->
      ~ startsWithWhiteSpace rest ->
      removed lit rest out ->
      removed lit (lit ++ ws ++ rest) out
  | removed_keep c s out :
      (forall rest, c :: s <> lit ++ rest) ->
      removed lit s out ->
      removed lit (c :: s) (c :: out).

(** [trimmedOf s t]: [t] is [s] without the white space at its two
    ends. *)
Definition trimmedOf (s t : jsstring) : Prop :=
  exists lead trail,
    s = lead ++ t ++ trail
    /\ allWhiteSpace lead /\ allWhiteSpace trail
    /\ ~ startsWithWhiteSpace t /\ ~ endsWithWhiteSpace t.

(** [cleaned] is [text] after the markers [```json] and then the markers
    [```] are removed, each with the white space after it, and the
    result is trimmed. *)
Definition fenceStripped (text cleaned : jsstring) : Prop :=
  exists a b,
    removed fenceJson text a /\ removed fence a b /\ trimmedOf b cleaned.

(** An array in a fence with a language tag, between blanks. *)
Definition fencedArray : jsstring :=
  js "  ```json" ++ [LF] ++ js "[1,[2],3]" ++ [LF] ++ js "``` ".

(** ** Specification-level vocabulary for the provider *)

(** The text handed to [JSON.parse] for a backend result. *)
Definition parsedText (text : option jsstring) : jsstring :=
  cleanJSON (orElse (default [] text) (js "{}")).

(** "Older messages are excluded from the model call": two histories with
    the same last ten messages lead to the same request. *)
Definition olderMessagesExcluded : Prop :=
  forall (h1 h2 : list InterviewMessage) cfg profile prog ctx,
    sliceLast10 h1 = sliceLast10 h2 ->
    chatRequest h1 cfg profile prog ctx = chatRequest h2 cfg profile prog ctx.

Definition hasUserMessage (l : list InterviewMessage) : Prop :=
  exists m, m ∈ l /\ role m = RoleUser.

(** ** Sample data *)

Definition demoField : ProfileField :=
  {| pf_id := js "role"; pf_label := js "Current Role";
     extractionHint := js "Their job title"; required := true;
     options := None |}.

Definition demoConfig : StudyConfig :=
  {| sc_id := js "s1"; name := js "Study"; description := js "A study";
     researchQuestion := js "Why?"; coreQuestions := [js "Q one"; js "Q two"];
     topicAreas := [js "work"; js "life"]; profileSchema := [demoField];
     aiBehavior := Standard; consentText := js "ok"; createdAt := 0;
     tone := None; language := None |}.

Definition demoProgress : QuestionProgress :=
  {| questionsAsked := [0]; total := 2; currentPhase := Background;
     isComplete := false |}.

Definition userSays (text : string) : InterviewMessage :=
  {| im_id := js "u"; role := RoleUser; content := js text;
     im_timestamp := 0; isVoice := None |}.

Definition aiSays (text : string) : InterviewMessage :=
  {| im_id := js "a"; role := RoleAi; content := js text;
     im_timestamp := 0; isVoice := None |}.

(** The text [{"questionAddressed":0}] and its parse. *)
Definition zeroText : jsstring :=
  js "{" ++ quoted (js "questionAddressed") ++ js ":0}".

Definition zeroParsed : json :=
  JObj [(js "questionAddressed", JNum (S754_zero false))].

(** A parser that knows three texts and rejects every other. *)
Definition sampleParse (s : jsstring) : result json :=
  if jsstring_eqb s zeroText then Ok zeroParsed
  else if jsstring_eqb s (js "null") then Ok JNull
  else if jsstring_eqb s (js "{}") then Ok (JObj [])
  else Throw SyntaxError.

Definition replies (text : string) : ChatRequest -> BackendOutcome :=
  fun _ => Resolved (Some (js text)).

Definition repliesZero : ChatRequest -> BackendOutcome :=
  fun _ => Resolved (Some zeroText).

Definition unavailable : ChatRequest -> BackendOutcome :=
  fun _ => Rejected.

(** One user message followed by ten replies of the interviewer. *)
Definition staleHistory (first : string) : list InterviewMessage :=
  userSays first :: replicate 10 (aiSays "Go on.").

Definition recentHistory (first : string) : list InterviewMessage :=
  userSays first :: replicate 9 (aiSays "Go on.") ++ [userSays "done"].

(** ** Specification-level vocabulary for the prompt assembler *)

(** Some required field of the schema has no recorded value, or its first
    recorded value is pending or vague. *)
Definition unresolvedRequired (cfg : StudyConfig)
    (profile : option ParticipantProfile) : Prop :=
  exists f, f ∈ profileSchema cfg /\ required f = true
    /\ (findFieldValue profile (pf_id f) = None
        \/ exists v, findFieldValue profile (pf_id f) = Some v
                     /\ (status v = Pending \/ status v = Vague)).

(** [block] occurs in [text]. *)
Definition occursIn (block text : jsstring) : Prop :=
  exists before after, text = before ++ block ++ after.

(** [occursIn], computed. *)
Fixpoint occursInb (block text : jsstring) : bool :=
  match stripPrefix block text with
  | Some _ => true
  | None =>
      match text with
      | [] => false
      | _ :: text' => occursInb block text'
      end
  end.

(** U+26A0, the first code unit of the warning sign. *)
Definition SIGN : char := 9888%N.

(** A text without the warning sign. *)
Definition plain (s : jsstring) : bool :=
  forallb (fun c => negb (c =? SIGN)%N) s.

(** None of the free texts that the template splices in holds the
    warning sign: the research question, the description, the topics,
    the core questions, the ids and hints of the schema, the nickname,
    the raw context and the recorded values of the profile, and the
    current context. *)
Definition plainInputs (cfg : StudyConfig)
    (profile : option ParticipantProfile) (currentContext : jsstring) : bool :=
  plain (researchQuestion cfg) && plain (description cfg)
  && forallb plain (topicAreas cfg) && forallb plain (coreQuestions cfg)
  && forallb (fun f => plain (pf_id f) && plain (extractionHint f))
       (profileSchema cfg)
  && match profile with
     | Some p =>
         plain (default [] (nickname p)) && plain (rawContext p)
         && forallb (fun v => plain (default [] (value v))) (fields p)
     | None => true
     end
  && plain currentContext.

(** A study without profile fields whose research question quotes the
    warning of another prompt. *)
Definition echoConfig : StudyConfig :=
  {| sc_id := js "s2"; name := js "Prompt study";
     description := js "A study of prompts";
     researchQuestion :=
       js "What do participants make of this line?" ++ pendingWarningText 1;
     coreQuestions := [js "Q one"]; topicAreas := [js "prompts"];
     profileSchema := []; aiBehavior := Standard; consentText := js "ok";
     createdAt := 0; tone := None; language := None |}.

Definition extractedProfile : ParticipantProfile :=
  {| pp_id := js "p1";
     fields := [ {| fieldId := js "role"; value := Some (js "nurse");
                    status := Extracted; extractedAt := Some 1 |} ];
     rawContext := js "Works as a nurse."; timestamp := 1;
     nickname := None |}.

(** A response that proposes wrap-up and conclusion at once. *)
Definition hastyResponse : TurnResponse :=
  {| r_message := js "Thank you, goodbye."; r_questionAddressed := None;
     r_phaseTransition := Some WrapUp; r_profileUpdates := [];
     r_shouldConclude := true |}.

Definition feedbackProgress : QuestionProgress :=
  {| questionsAsked := [0; 1]; total := 2; currentPhase := Feedback;
     isComplete := false |}.

(** ** The prompt assembler over a store of arrays

    JavaScript arrays are mutable objects that the caller and the
    assembler share.  Here the arrays of the three inputs live in a store,
    the inputs hold their addresses, and every array method the assembler
    calls is given with its effect on the store: [map], [filter] and
    [slice] allocate a new array, [find], [includes], [join] and [length]
    only read.  The callbacks the assembler passes to them read the
    store and build values. *)

Inductive val : Type :=
  | VStr (s : jsstring)
  | VNum (n : Z)
  | VField (f : ProfileField)
  | VValue (v : ProfileFieldValue)
  | VQuestion (q : IndexedQuestion).

Definition loc : Type := nat.

(** The array at each address. *)
Definition store : Type := list (list val).

(** A computation that only reads the store; [None] is an address without
    an array or an element of the wrong kind. *)
Definition R (A : Type) : Type := store -> option A.

(** A computation that may change the store. *)
Definition M (A : Type) : Type := store -> option (A * store).

#[global] Instance R_ret : MRet R := fun _ a _ => Some a.
#[global] Instance R_bind : MBind R := fun _ _ k m h =>
  match m h with
  | Some a => k a h
  | None => None
  end.

#[global] Instance M_ret : MRet M := fun _ a h => Some (a, h).
#[global] Instance M_bind : MBind M := fun _ _ k m h =>
  match m h with
  | Some (a, h') => k a h'
  | None => None
  end.

Definition failR {A} : R A := fun _ => None.

(** A read-only step inside a computation on the store. *)
Definition liftR {A} (r : R A) : M A := fun h =>
  match r h with
  | Some a => Some (a, h)
  | None => None
  end.

Definition readArray (l : loc) : R (list val) := fun h => h !! l.

(** A new array takes the next free address. *)
Definition alloc (a : list val) : M loc := fun h => Some (length h, h ++ [a]).

Definition asStr (v : val) : R jsstring :=
  match v with VStr s => mret s | _ => failR end.
Definition asField (v : val) : R ProfileField :=
  match v with VField f => mret f | _ => failR end.
Definition asValue (v : val) : R ProfileFieldValue :=
  match v with VValue x => mret x | _ => failR end.
Definition asQuestion (v : val) : R IndexedQuestion :=
  match v with VQuestion q => mret q | _ => failR end.

(** The callback applied to each element and its index, in order. *)
Fixpoint mapiR {A B} (f : A -> Z -> R B) (l : list A) (i : Z) : R (list B) :=
  match l with
  | [] => mret []
  | x :: l' => y ← f x i; ys ← mapiR f l' (i + 1); mret (y :: ys)
  end.

Fixpoint filterR {A} (p : A -> R bool) (l : list A) : R (list A) :=
  match l with
  | [] => mret []
  | x :: l' =>
      b ← p x; ys ← filterR p l';
      mret (if b : bool then x :: ys else ys)
  end.

Fixpoint findR {A} (p : A -> R bool) (l : list A) : R (option A) :=
  match l with
  | [] => mret None
  | x :: l' => b ← p x; if b : bool then mret (Some x) else findR p l'
  end.

(** [arr.map(f)]. *)
Definition arrMap (f : val -> Z -> R val) (l : loc) : M loc :=
  a ← liftR (readArray l); b ← liftR (mapiR f a 0); alloc b.

(** [arr.filter(p)]. *)
Definition arrFilter (p : val -> R bool) (l : loc) : M loc :=
  a ← liftR (readArray l); b ← liftR (filterR p a); alloc b.

(** [arr.slice(0, n)]. *)
Definition arrSlice0 (n : nat) (l : loc) : M loc :=
  a ← liftR (readArray l); alloc (take n a).

(** [arr.find(p)]. *)
Definition arrFind (p : val -> R bool) (l : loc) : R (option val) :=
  a ← readArray l; findR p a.

(** [arr.includes(n)] for a number [n]. *)
Definition arrIncludes (l : loc) (n : Z) : R bool :=
  a ← readArray l;
  mret (existsb (fun v => match v with VNum m => n =? m | _ => false end) a).

(** [arr.join(sep)] on an array of strings. *)
Definition arrJoin (sep : jsstring) (l : loc) : R jsstring :=
  a ← readArray l; strs ← mapiR (fun v _ => asStr v) a 0; mret (join sep strs).

(** [arr.length]. *)
Definition arrLength (l : loc) : R nat :=
  a ← readArray l; mret (length a).

(** Where the arrays of the inputs are: [studyConfig.coreQuestions],
    [studyConfig.topicAreas], [studyConfig.profileSchema],
    [participantProfile.fields] and [questionProgress.questionsAsked]. *)
Record InputArrays : Type := {
  coreQuestionsAt : loc;
  topicAreasAt : loc;
  profileSchemaAt : loc;
  fieldsAt : loc;
  questionsAskedAt : loc
}.

(** The store holds the arrays of the inputs at these addresses. *)
Definition holdsInputs (h : store) (at_ : InputArrays) (cfg : StudyConfig)
    (profile : option ParticipantProfile) (prog : QuestionProgress) : Prop :=
  h !! coreQuestionsAt at_ = Some (map VStr (coreQuestions cfg))
  /\ h !! topicAreasAt at_ = Some (map VStr (topicAreas cfg))
  /\ h !! profileSchemaAt at_ = Some (map VField (profileSchema cfg))
  /\ (forall p, profile = Some p ->
        h !! fieldsAt at_ = Some (map VValue (fields p)))
  /\ h !! questionsAskedAt at_ = Some (map VNum (questionsAsked prog)).

Section StoreAssembler.

Variable at_ : InputArrays.
(** The scalar properties of the inputs are read from these records;
    their arrays are read from the store only. *)
Variable cfg : StudyConfig.
Variable profile : option ParticipantProfile.
Variable prog : QuestionProgress.

(** [participantProfile?.fields.find(f => f.fieldId === id)]. *)
Definition findFieldValueR (id : jsstring) : R (option ProfileFieldValue) :=
  match profile with
  | None => mret None
  | Some _ =>
      found ← arrFind (fun v => x ← asValue v;
                                 mret (jsstring_eqb (fieldId x) id))
                (fieldsAt at_);
      match found with
      | Some v => x ← asValue v; mret (Some x)
      | None => mret None
      end
  end.

Definition formatProfileFieldsM : M jsstring :=
  texts ← arrMap (fun v _ =>
                    field ← asField v;
                    found ← findFieldValueR (pf_id field);
                    mret (VStr (formatProfileFieldWith found field)))
            (profileSchemaAt at_);
  liftR (arrJoin [LF] texts).

Definition remainingBlockM (remaining : loc) : M jsstring :=
  n ← liftR (arrLength remaining);
  if (0 <? n)%nat
  then
    firstThree ← arrSlice0 3 remaining;
    texts ← arrMap (fun v _ => q ← asQuestion v; mret (VStr (questionLine q)))
              firstThree;
    text ← liftR (arrJoin [LF] texts);
    mret (js "- Remaining questions:" ++ [LF] ++ text)
  else mret (js "- All core questions covered").

Definition buildInterviewSystemPromptM (currentContext : jsstring)
  : M jsstring :=
  indexed ← arrMap (fun v i => q ← asStr v;
                                mret (VQuestion {| index := i; question := q |}))
              (coreQuestionsAt at_);
  remaining ← arrFilter (fun v => q ← asQuestion v;
                                  b ← arrIncludes (questionsAskedAt at_) (index q);
                                  mret (negb b))
                indexed;
  requiredFields ← arrFilter (fun v => f ← asField v; mret (required f))
                     (profileSchemaAt at_);
  pending ← arrFilter (fun v => f ← asField v;
                                found ← findFieldValueR (pf_id f);
                                mret (unresolvedValue found))
              requiredFields;
  topics ← liftR (arrJoin (js ", ") (topicAreasAt at_));
  asked ← liftR (arrLength (questionsAskedAt at_));
  core ← liftR (arrLength (coreQuestionsAt at_));
  remainingText ← remainingBlockM remaining;
  profileText ← formatProfileFieldsM;
  n ← liftR (arrLength pending);
  mret (lines (promptHeadWith cfg profile prog topics asked core
                 remainingText profileText
               ++ [if (0 <? n)%nat then pendingWarningText n else []]
               ++ promptTail profile currentContext)).

End StoreAssembler.

(** A store with the arrays of the sample inputs, and another with the
    same arrays at other addresses among unrelated ones. *)
Definition demoStore : store :=
  [ map VStr (coreQuestions demoConfig); map VStr (topicAreas demoConfig);
    map VField (profileSchema demoConfig);
    map VValue (fields extractedProfile);
    map VNum (questionsAsked demoProgress) ].

Definition demoArrays : InputArrays :=
  {| coreQuestionsAt := 0%nat; topicAreasAt := 1%nat; profileSchemaAt := 2%nat;
     fieldsAt := 3%nat; questionsAskedAt := 4%nat |}.

Definition otherStore : store :=
  [ [VNum 7]; map VNum (questionsAsked demoProgress);
    map VValue (fields extractedProfile);
    map VField (profileSchema demoConfig); [VStr (js "unrelated")];
    map VStr (topicAreas demoConfig); map VStr (coreQuestions demoConfig) ].

Definition otherArrays : InputArrays :=
  {| coreQuestionsAt := 6%nat; topicAreasAt := 5%nat; profileSchemaAt := 3%nat;
     fieldsAt := 2%nat; questionsAskedAt := 1%nat |}.

(** The texts of the canonicalization examples: a fenced answer after a
    remark, a text without JSON, and a fenced object cut short. *)
Definition noJsonHere : jsstring := js "no json here".

Definition sureInput : jsstring :=
  js "Sure! ```json" ++ [LF] ++ js "{" ++ [DQUOTE] ++ js "a" ++ [DQUOTE]
    ++ js ":1}" ++ [LF] ++ js "```".

Definition sureOutput : jsstring :=
  js "{" ++ [DQUOTE] ++ js "a" ++ [DQUOTE] ++ js ":1}".

Definition unclosedInput : jsstring :=
  js "```json" ++ [LF] ++ js "{" ++ [DQUOTE] ++ js "a" ++ [DQUOTE]
    ++ js ": [1, 2" ++ [LF] ++ js "```".

Definition unclosedCleaned : jsstring :=
  js "{" ++ [DQUOTE] ++ js "a" ++ [DQUOTE] ++ js ": [1, 2".

(** ** Reading the elements of an array of the store back *)

Definition unValue (v : val) : option ProfileFieldValue :=
  match v with VValue x => Some x | _ => None end.
Definition unField (v : val) : option ProfileField :=
  match v with VField x => Some x | _ => None end.
Definition unQuestion (v : val) : option IndexedQuestion :=
  match v with VQuestion x => Some x | _ => None end.

(** The default of a callback outside the elements it is applied to. *)
Definition decide_with {A B} (F : A -> val) (q : A -> B) (d : B)
    (unF : val -> option A) (v : val) : B :=
  match unF v with
  | Some x => q x
  | None => d
  end.


(** A text with an array before an object, and one whose array is cut
    short before an object. *)
Definition arrayFirst : jsstring := js "x [1,[2],3] y {a}".
Definition arrayCutShort : jsstring := js "x [1,[2,3 y {a} z".

(** ** Further vocabulary for the prompt assembler *)

(** The question of index [k] has not been addressed yet. *)
Definition unasked (cfg : StudyConfig) (prog : QuestionProgress)
    (q : IndexedQuestion) : Prop :=
  (exists k : nat, index q = Z.of_nat k
                   /\ coreQuestions cfg !! k = Some (question q))
  /\ ~ In (index q) (questionsAsked prog).

(** [profile] with the recorded values replaced. *)
Definition withFields (p : ParticipantProfile)
    (fs : list ProfileFieldValue) : ParticipantProfile :=
  {| pp_id := pp_id p; fields := fs; rawContext := rawContext p;
     timestamp := timestamp p; nickname := nickname p |}.

(** A value that no lookup of the assembler can reach: its field is not
    declared in the schema, or an earlier value of the same field
    shadows it. *)
Definition unreachableValue (schema : list ProfileField)
    (earlier : list ProfileFieldValue) (v : ProfileFieldValue) : Prop :=
  (forall f, In f schema -> pf_id f <> fieldId v)
  \/ (exists e, In e earlier /\ fieldId e = fieldId v).

Definition strayValue : ProfileFieldValue :=
  {| fieldId := js "shoe-size"; value := Some (js "42");
     status := Extracted; extractedAt := Some 2 |}.

(** ** Further vocabulary for [cleanJSON] *)

(** A text without white space at either end. *)
Definition trimmed (s : jsstring) : Prop :=
  dropWhile isWhiteSpace s = s
  /\ dropWhile isWhiteSpace (reverse s) = reverse s.

(** What one code unit adds to the bracket depth. *)
Definition depthStep (opening closing c : char) : Z :=
  (if (c =? opening)%N then 1 else 0) - (if (c =? closing)%N then 1 else 0).

(** ** Greeting prompt (lib/prompts/greeting.ts) *)

(** [language === 'jp']. *)
Definition isJapanese (cfg : StudyConfig) : bool :=
  match language cfg with
  | Some l => jsstring_eqb l (js "jp")
  | None => false
  end.

(** The Japanese default greeting before and after the question count. *)
Definition greetingJpBefore : jsstring :=
  [12371; 12398; 24230; 12399; 30740; 31350; 12395; 12372; 21442; 21152;
   12356; 12383; 12384; 12365; 12354; 12426; 12364; 12392; 12358; 12372;
   12374; 12356; 12414; 12377; 65281; 12354; 12394; 12383; 12398; 32076;
   39443; 12363; 12425; 23398; 12409; 12427; 12371; 12392; 12434; 27005;
   12375; 12415; 12395; 12375; 12390; 12356; 12414; 12377; 12290;
   32004]%N.

Definition greetingJpAfter : jsstring :=
  [12388; 12398; 36074; 21839; 12395; 12388; 12356; 12390; 12362; 35441;
   12375; 12373; 12379; 12390; 12356; 12383; 12384; 12365; 12414; 12377;
   12290; 12414; 12378; 12399; 12289; 12354; 12394; 12383; 33258; 36523;
   12420; 32972; 26223; 12395; 12388; 12356; 12390; 23569; 12375; 25945;
   12360; 12390; 12356; 12383; 12384; 12369; 12414; 12377; 12363;
   65311]%N.

(** The English greeting, used by the provider and again by the client
    service. *)
Definition englishGreeting (questions : nat) : jsstring :=
  js "Thank you for participating in this study! I'm excited to learn from your experiences. We'll explore about "
    ++ showNat questions
    ++ js " questions together. To get started, could you share a bit about yourself and your background?".

Definition getDefaultGreeting (cfg : StudyConfig) : jsstring :=
  if isJapanese cfg
  then greetingJpBefore ++ showNat (length (coreQuestions cfg))
         ++ greetingJpAfter
  else englishGreeting (length (coreQuestions cfg)).

Section Greeting.

(** [String.prototype.toLowerCase] follows the Unicode case mappings and
    is left open. *)
Variable toLowerCase : jsstring -> jsstring.

(** [profileSchema.filter(f => f.required)
       .map(f => f.label.toLowerCase()).slice(0, 3)]. *)
Definition profileFieldLabels (cfg : StudyConfig) : list jsstring :=
  take 3 (map (fun f => toLowerCase (pf_label f))
            (List.filter required (profileSchema cfg))).

Definition buildGreetingPrompt (cfg : StudyConfig) : jsstring :=
  let labels := profileFieldLabels cfg in
  lines [
    js "You are starting a research interview.";
    (if isJapanese cfg
     then js "IMPORTANT: Write the opening in natural, polite Japanese (Keigo)."
     else []);
    [];
    js "Study: " ++ name cfg;
    js "Research Question: " ++ researchQuestion cfg;
    js "Number of core questions: " ++ showNat (length (coreQuestions cfg));
    js "Profile info to gather first: " ++ join (js ", ") labels;
    [];
    js "Write a warm, brief opening (2-3 sentences) that:";
    js "1. Thanks them for participating";
    js "2. Mentions you'll have about "
      ++ showNat (length (coreQuestions cfg)) ++ js " main questions to explore";
    js "3. Asks an opening background question that naturally gathers their "
      ++ orElse (default [] (head labels)) (js "background")
      ++ js " and context";
    [];
    js "Keep it conversational and inviting. Start gathering their profile naturally - don't make it feel like a form." ].

(** [models.generateContent]: throws, or resolves with an optional text. *)
Variable generate : jsstring -> BackendOutcome.

(** [GeminiProvider.getInterviewGreeting]. *)
Definition getInterviewGreeting (cfg : StudyConfig) : result jsstring :=
  let prompt := buildGreetingPrompt cfg in
  tryCatch
    (match generate prompt with
     | Rejected => Throw BackendError
     | Resolved text => Ok (orElse (default [] text) (getDefaultGreeting cfg))
     end)
    (fun _ => Ok (getDefaultGreeting cfg)).

End Greeting.

(** ** Synthesis prompt (lib/prompts/synthesis.ts) *)

Record BehaviorData : Type := {
  timePerTopic : json;
  messagesPerTopic : json;
  topicsExplored : list jsstring;
  behaviorContradictions : list jsstring
}.

(** [`${m.role === 'user' ? 'PARTICIPANT' : 'INTERVIEWER'}: ${m.content}`]. *)
Definition transcriptLine (m : InterviewMessage) : jsstring :=
  (if Role_eqb (role m) RoleUser then js "PARTICIPANT" else js "INTERVIEWER")
    ++ js ": " ++ content m.

(** [f.status === 'extracted' && f.value]. *)
Definition hasExtractedValue (f : ProfileFieldValue) : bool :=
  match status f, value f with
  | Extracted, Some (_ :: _) => true
  | _, _ => false
  end.

(** [`${field?.label || f.fieldId}: ${f.value}`]. *)
Definition summaryLine (schema : list ProfileField) (f : ProfileFieldValue)
  : jsstring :=
  let field := find (fun s => jsstring_eqb (pf_id s) (fieldId f)) schema in
  orElse (match field with Some s => pf_label s | None => [] end) (fieldId f)
    ++ js ": " ++ showNullable (value f).

Definition noProfileData : jsstring := js "No structured profile data".

Definition profileSummary (cfg : StudyConfig)
    (profile : option ParticipantProfile) : jsstring :=
  match profile with
  | None => noProfileData
  | Some p =>
      orElse (join [LF] (map (summaryLine (profileSchema cfg))
                           (List.filter hasExtractedValue (fields p))))
        noProfileData
  end.

Section Synthesis.

(** [JSON.stringify] is left open. *)
Variable JSON_stringify : json -> jsstring.

Definition buildSynthesisPrompt (history : list InterviewMessage)
    (cfg : StudyConfig) (behavior : BehaviorData)
    (profile : option ParticipantProfile) : jsstring :=
  lines [
    js "Analyze this research interview for key patterns and insights.";
    [];
    js "STUDY:";
    js "- Research Question: " ++ researchQuestion cfg;
    js "- Topics Explored: " ++ join (js ", ") (topicAreas cfg);
    [];
    js "PARTICIPANT PROFILE:";
    profileSummary cfg profile;
    [];
    js "Context: "
      ++ orElse (match profile with Some p => rawContext p | None => [] end)
           (js "Not available");
    [];
    js "INTERVIEW TRANSCRIPT:";
    join [LF; LF] (map transcriptLine history);
    [];
    js "BEHAVIORAL DATA:";
    js "- Interview phases: " ++ JSON_stringify (messagesPerTopic behavior);
    [];
    js "Analyze for:";
    js "1. What they explicitly stated as important";
    js "2. What their behavior/emphasis revealed";
    js "3. Key themes with evidence";
    js "4. Any contradictions between stated and revealed preferences";
    js "5. Key insights for the researcher" ].

(** [defaultSynthesisResult] (provider abstraction layer). *)
Definition defaultSynthesisResult : json :=
  JObj [ (js "statedPreferences", JArr []);
         (js "revealedPreferences", JArr []);
         (js "themes", JArr []);
         (js "contradictions", JArr []);
         (js "keyInsights", JArr [JStr (js "Analysis pending...")]);
         (js "bottomLine", JStr (js "Interview synthesis in progress.")) ].

Variable JSON_parse : jsstring -> result json.
Variable generate : jsstring -> BackendOutcome.

(** [GeminiProvider.synthesizeInterview]: the parsed value is returned
    under a type assertion, as it is. *)
Definition synthesizeInterview (history : list InterviewMessage)
    (cfg : StudyConfig) (behavior : BehaviorData)
    (profile : option ParticipantProfile) : result json :=
  let prompt := buildSynthesisPrompt history cfg behavior profile in
  tryCatch
    (match generate prompt with
     | Rejected => Throw BackendError
     | Resolved text => JSON_parse (parsedText text)
     end)
    (fun _ => Ok defaultSynthesisResult).

End Synthesis.

(** Sample data for the greeting and the synthesis. *)
Definition japaneseConfig : StudyConfig :=
  {| sc_id := js "s2"; name := js "Study"; description := js "A study";
     researchQuestion := js "Why?"; coreQuestions := [js "Q one"; js "Q two"];
     topicAreas := [js "work"]; profileSchema := [demoField];
     aiBehavior := Standard; consentText := js "ok"; createdAt := 0;
     tone := None; language := Some (js "jp") |}.

Definition asciiLower (s : jsstring) : jsstring :=
  map (fun c => if ((65 <=? c) && (c <=? 90))%N then (c + 32)%N else c) s.

Definition demoBehavior : BehaviorData :=
  {| timePerTopic := JObj []; messagesPerTopic := JObj [];
     topicsExplored := []; behaviorContradictions := [] |}.

Definition showsNothing : json -> jsstring := fun _ => js "{}".

Definition COLON : char := 58%N.

Definition unavailable_text : jsstring -> BackendOutcome := fun _ => Rejected.

(** ** Client service (services/geminiService.ts) *)

(** What the request body is built from. *)
Inductive RequestBody : Type :=
  | InterviewBody (history : list InterviewMessage) (cfg : StudyConfig)
      (profile : option ParticipantProfile) (prog : QuestionProgress)
      (currentContext : jsstring)
  | GreetingBody (cfg : StudyConfig).

Record ClientRequest : Type := {
  req_url : jsstring;
  req_headers : list (jsstring * jsstring);
  req_body : RequestBody
}.

(** [fetch] rejects, or resolves with a response: its [ok] flag and what
    [response.json()] gives, which may throw. *)
Inductive FetchOutcome : Type :=
  | NetworkFailure
  | HttpResponse (ok : bool) (body : result json).

(** [buildHeaders]: the token is sent only when there is one. *)
Definition buildHeaders (participantToken : option jsstring)
  : list (jsstring * jsstring) :=
  (js "Content-Type", js "application/json")
  :: match participantToken with
     | Some ((_ :: _) as token) =>
         [(js "Authorization", js "Bearer " ++ token)]
     | _ => []
     end.

(** The fallback object of the client's [generateInterviewResponse]. *)
Definition clientFallbackResponse : json :=
  JObj [ (js "message",
          JStr (js "I appreciate you sharing that. What else comes to mind?"));
         (js "questionAddressed", JNull);
         (js "phaseTransition", JNull);
         (js "profileUpdates", JArr []);
         (js "shouldConclude", JBool false) ].

(** The response object of the provider as a JSON value. *)
Definition responseToJson (r : AIInterviewResponse) : json :=
  JObj [ (js "message", message r);
         (js "questionAddressed", questionAddressed r);
         (js "phaseTransition", phaseTransition r);
         (js "profileUpdates", profileUpdates r);
         (js "shouldConclude", shouldConclude r) ].

Section ClientService.

Variable fetch : ClientRequest -> FetchOutcome.

(** [if (!response.ok) throw ...; return await response.json()]. *)
Definition okBody (outcome : FetchOutcome) : result json :=
  match outcome with
  | NetworkFailure => Throw BackendError
  | HttpResponse false _ => Throw BackendError
  | HttpResponse true body => body
  end.

(** The client's [generateInterviewResponse]. *)
Definition clientGenerateInterviewResponse (history : list InterviewMessage)
    (cfg : StudyConfig) (profile : option ParticipantProfile)
    (prog : QuestionProgress) (currentContext : jsstring)
    (participantToken : option jsstring) : result json :=
  tryCatch
    (okBody (fetch {| req_url := js "/api/interview";
                      req_headers := buildHeaders participantToken;
                      req_body := InterviewBody history cfg profile prog
                                    currentContext |}))
    (fun _ => Ok clientFallbackResponse).

(** The client's [getInterviewGreeting]: [data.greeting] may be
    [undefined]. *)
Definition clientGetInterviewGreeting (cfg : StudyConfig)
    (participantToken : option jsstring) : result (option json) :=
  tryCatch
    (data ← okBody (fetch {| req_url := js "/api/greeting";
                             req_headers := buildHeaders participantToken;
                             req_body := GreetingBody cfg |});
     getProp data (js "greeting"))
    (fun _ => Ok (Some (JStr (englishGreeting (length (coreQuestions cfg)))))).

End ClientService.

Definition offline : ClientRequest -> FetchOutcome := fun _ => NetworkFailure.

Definition serverError : ClientRequest -> FetchOutcome :=
  fun _ => HttpResponse false (Ok (JObj [(js "error", JStr (js "boom"))])).

(** ** Session and participant tokens (lib/auth.ts) *)

Definition SEMICOLON : char := 59%N.
Definition EQUALS : char := 61%N.
Definition SPACE : char := 32%N.

(** [s.split(sep)] for a separator of one code unit: never empty. *)
Fixpoint splitOn (sep : char) (s : jsstring) : list jsstring :=
  match s with
  | [] => [[]]
  | c :: s' =>
      if (c =? sep)%N then [] :: splitOn sep s'
      else match splitOn sep s' with
           | piece :: pieces => (c :: piece) :: pieces
           | [] => [[c]]
           end
  end.

(** The loop of [getCookieValue] over the trimmed cookies:
    [const [key, ...valueParts] = cookie.split('=')]. *)
Fixpoint findCookie (name : jsstring) (cookies : list jsstring)
  : option jsstring :=
  match cookies with
  | [] => None
  | cookie :: rest =>
      match splitOn EQUALS cookie with
      | key :: valueParts =>
          if jsstring_eqb key name then Some (join [EQUALS] valueParts)
          else findCookie name rest
      | [] => findCookie name rest
      end
  end.

(** [getCookieValue]: [cookieHeader] is [request.headers.get('Cookie')]. *)
Definition getCookieValue (cookieHeader : option jsstring) (name : jsstring)
  : option jsstring :=
  match cookieHeader with
  | None | Some [] => None
  | Some header => findCookie name (map trim (splitOn SEMICOLON header))
  end.

(** A cookie header as a browser sends it: [k1=v1; k2=v2; ...]. *)
Definition cookieEntry (kv : jsstring * jsstring) : jsstring :=
  fst kv ++ [EQUALS] ++ snd kv.

Definition renderCookies (pairs : list (jsstring * jsstring)) : jsstring :=
  join [SEMICOLON; SPACE] (map cookieEntry pairs).

(** A name without [;] or [=] and a value without [;], with no white
    space at the outer ends. *)
Definition plainCookie (kv : jsstring * jsstring) : Prop :=
  ~ In SEMICOLON (fst kv) /\ ~ In EQUALS (fst kv) /\ ~ In SEMICOLON (snd kv)
  /\ dropWhile isWhiteSpace (fst kv) = fst kv
  /\ dropWhile isWhiteSpace (reverse (snd kv)) = reverse (snd kv).

Definition sampleCookies : list (jsstring * jsstring) :=
  [ (js "theme", js "dark"); (js "research-auth", js "abc.def==");
    (js "research-auth", js "second") ].

(** The environment variables the token code reads. *)
Record Env : Type := {
  SESSION_SECRET : option jsstring;
  ADMIN_PASSWORD : option jsstring;
  PARTICIPANT_TOKEN_SECRET : option jsstring
}.

(** [a || b] on environment variables: an unset or empty one gives way. *)
Definition envOr (a b : option jsstring) : option jsstring :=
  match a with
  | Some (_ :: _) => a
  | _ => b
  end.

(** [if (!secret)] on the outcome of [envOr]. *)
Definition configured (secret : option jsstring) : option jsstring :=
  match secret with
  | Some ((_ :: _) as s) => Some s
  | _ => None
  end.

Definition SESSION_COOKIE_NAME : jsstring := js "research-auth".

(** [getSecret]: throws when neither variable is set. *)
Definition getSecret (env : Env) : result jsstring :=
  match configured (envOr (SESSION_SECRET env) (ADMIN_PASSWORD env)) with
  | Some s => Ok s
  | None => Throw BackendError
  end.

(** [getParticipantSecret]. *)
Definition getParticipantSecret (env : Env) : option jsstring :=
  configured (envOr (PARTICIPANT_TOKEN_SECRET env) (ADMIN_PASSWORD env)).

(** [jose.jwtVerify]: the payload, or a [JWTExpired] error, or any other
    error. *)
Inductive VerifyOutcome : Type :=
  | Verified (payload : json)
  | TokenExpired
  | TokenRejected.

(** [getStudy] of the storage service, reached by a dynamic import: the
    import, the lookup or the read of the configuration throws; or
    nothing is found; or a study is found whose configuration may set
    [linksEnabled]. *)
Inductive StudyLookup : Type :=
  | LookupFails
  | NoStudy
  | FoundStudy (linksEnabled : option bool).

Record Request : Type := {
  authorization : option jsstring;
  cookie : option jsstring
}.

(** The result object of [verifyParticipantToken]. *)
Inductive TokenCheck : Type :=
  | ParticipantAccess (studyId : option json)
  | AdminAccess
  | Denied (error : option jsstring).

Definition linksDisabledError : jsstring :=
  js "Participant links have been disabled for this study.".

Definition linkExpiredError : jsstring :=
  js "This link has expired. Please request a new participant link from the researcher.".

(** [authHeader?.startsWith('Bearer ') ? authHeader.slice(7) : null]. *)
Definition bearerToken (authHeader : option jsstring) : option jsstring :=
  match authHeader with
  | Some h => stripPrefix (js "Bearer ") h
  | None => None
  end.

Section Auth.

Variable env : Env.
Variable jwtVerify : jsstring -> jsstring -> VerifyOutcome.
Variable getStudy : option json -> StudyLookup.

(** [verifySessionToken]. *)
Definition verifySessionToken (token : jsstring) : bool :=
  match token with
  | [] => false
  | _ :: _ =>
      match getSecret env with
      | Throw _ => false
      | Ok secret =>
          match jwtVerify token secret with
          | Verified payload =>
              match propertyOf payload (js "type") with
              | Some (JStr t) => jsstring_eqb t (js "session")
              | _ => false
              end
          | _ => false
          end
      end
  end.

(** [hasValidAdminSession]. *)
Definition hasValidAdminSession (request : Request) : bool :=
  match getCookieValue (cookie request) SESSION_COOKIE_NAME with
  | Some ((_ :: _) as sessionToken) => verifySessionToken sessionToken
  | _ => false
  end.

(** The participant-token part of [verifyParticipantToken]: [Some] is a
    [return], [None] is falling through to the admin check. *)
Definition participantCheck (request : Request) : option TokenCheck :=
  match bearerToken (authorization request) with
  | Some ((_ :: _) as token) =>
      match getParticipantSecret env with
      | Some secret =>
          match jwtVerify token secret with
          | Verified payload =>
              let studyId := propertyOf payload (js "studyId") in
              match getStudy studyId with
              | LookupFails => None
              | FoundStudy (Some false) => Some (Denied (Some linksDisabledError))
              | _ => Some (ParticipantAccess studyId)
              end
          | TokenExpired => Some (Denied (Some linkExpiredError))
          | TokenRejected => None
          end
      | None => None
      end
  | _ => None
  end.

Definition verifyParticipantToken (request : Request) : TokenCheck :=
  match participantCheck request with
  | Some answer => answer
  | None =>
      if hasValidAdminSession request then AdminAccess else Denied None
  end.

End Auth.

(** ** Researcher login (app/api/auth/route.ts) *)

(** The responses of the login route: a status, and whether the session
    cookie was set (with which token). *)
Record LoginResponse : Type := {
  loginStatus : Z;
  sessionCookie : option jsstring
}.

Section Login.

Variable env : Env.
(** [createSessionToken] signs with [getSecret()]; signing, or setting
    the cookie afterwards, may throw. *)
Variable sign : jsstring -> result jsstring.

Definition createSessionToken : result jsstring :=
  secret ← getSecret env; sign secret.

(** [POST]: [body] is what [request.json()] gives. *)
Definition login (body : result json) : LoginResponse :=
  let attempt : result LoginResponse :=
    parsed ← body;
    password ← getProp parsed (js "password");
    match password with
    | Some (JStr ((_ :: _) as pw)) =>
        match configured (ADMIN_PASSWORD env) with
        | None => Ok {| loginStatus := 500; sessionCookie := None |}
        | Some adminPassword =>
            if negb (jsstring_eqb pw adminPassword)
            then Ok {| loginStatus := 401; sessionCookie := None |}
            else
              token ← createSessionToken;
              Ok {| loginStatus := 200; sessionCookie := Some token |}
        end
    | _ => Ok {| loginStatus := 400; sessionCookie := None |}
    end in
  match attempt with
  | Ok r => r
  | Throw _ => {| loginStatus := 500; sessionCookie := None |}
  end.

End Login.

(** Sample data for the token checks. *)
Definition sessionPayload : json := JObj [(js "type", JStr (js "session"))].
Definition participantPayload : json :=
  JObj [(js "studyId", JStr (js "s1"))].

Definition onlyAdminPassword : Env :=
  {| SESSION_SECRET := None; ADMIN_PASSWORD := Some (js "hunter2");
     PARTICIPANT_TOKEN_SECRET := None |}.

(** A verifier that knows one session token, one participant token and
    one expired token. *)
Definition sampleVerify (token secret : jsstring) : VerifyOutcome :=
  if jsstring_eqb token (js "session-token") then Verified sessionPayload
  else if jsstring_eqb token (js "participant-token")
       then Verified participantPayload
  else if jsstring_eqb token (js "old-token") then TokenExpired
  else TokenRejected.

Definition linksOff : option json -> StudyLookup :=
  fun _ => FoundStudy (Some false).

Definition adminWithToken (token : string) : Request :=
  {| authorization := Some (js "Bearer " ++ js token);
     cookie := Some (js "research-auth=session-token") |}.

(** ** Stored records and the key-value store (lib/kv.ts) *)

(** [{ theme, evidence, frequency }]. *)
Record Theme : Type := {
  theme : jsstring;
  evidence : jsstring;
  frequency : Z
}.

Record SynthesisResult : Type := {
  statedPreferences : list jsstring;
  revealedPreferences : list jsstring;
  themes : list Theme;
  contradictions : list jsstring;
  keyInsights : list jsstring;
  bottomLine : jsstring
}.

Record StoredInterview : Type := {
  si_id : jsstring;
  si_studyId : jsstring;
  studyName : jsstring;
  participantProfile : ParticipantProfile;
  transcript : list InterviewMessage;
  synthesis : option SynthesisResult;
  behaviorData : BehaviorData;
  si_createdAt : Z;
  completedAt : Z;
  completed : bool
}.

(** The fields of a stored study that the store functions and the token
    check read. *)
Record StoredStudy : Type := {
  ss_id : jsstring;
  config : StudyConfig;
  linksEnabled : option bool;
  ss_createdAt : Z;
  updatedAt : Z;
  interviewCount : Z;
  linkCount : option Z;
  isLocked : bool
}.

Record StoredLink : Type := {
  token : jsstring;
  sl_studyId : jsstring;
  sl_createdAt : Z
}.

Definition INTERVIEW_PREFIX : jsstring := js "interview:".
Definition STUDY_INDEX_PREFIX : jsstring := js "study-interviews:".
Definition LINK_PREFIX : jsstring := js "link:".
Definition STUDY_LINKS_PREFIX : jsstring := js "study-links:".
Definition STUDY_PREFIX : jsstring := js "study:".
Definition ALL_STUDIES_KEY : jsstring := js "all-studies".
Definition ALL_INTERVIEWS_KEY : jsstring := js "all-interviews".

(** What a key holds. *)
Inductive kvValue : Type :=
  | KInterview (i : StoredInterview)
  | KStudy (s : StoredStudy)
  | KLink (l : StoredLink).

(** The store: values by key, sets by key (their members without
    repetition, in no particular order), and for each coming command
    whether it will fail. *)
Record KV : Type := {
  data : gmap jsstring kvValue;
  sets : gmap jsstring (list jsstring);
  faults : list bool
}.

(** A computation on the store that may throw; the store stays as the
    commands before the throw left it. *)
Definition K (A : Type) : Type := KV -> result A * KV.

#[global] Instance K_ret : MRet K := fun _ a st => (Ok a, st).
#[global] Instance K_bind : MBind K := fun _ _ k m st =>
  match m st with
  | (Ok a, st') => k a st'
  | (Throw e, st') => (Throw e, st')
  end.

(** [try { body } catch { handler }] on the store. *)
Definition tryK {A} (body : K A) (handler : K A) : K A := fun st =>
  match body st with
  | (Ok a, st') => (Ok a, st')
  | (Throw _, st') => handler st'
  end.

(** One command of the client: it fails when the plan says so, and then
    changes nothing. *)
Definition command {A}
    (run : gmap jsstring kvValue -> gmap jsstring (list jsstring) ->
           A * gmap jsstring kvValue * gmap jsstring (list jsstring))
  : K A := fun st =>
  match faults st with
  | true :: later =>
      (Throw BackendError,
       {| data := data st; sets := sets st; faults := later |})
  | plan =>
      let '(a, d, s) := run (data st) (sets st) in
      (Ok a, {| data := d; sets := s; faults := tail plan |})
  end.

Definition members (s : gmap jsstring (list jsstring)) (key : jsstring)
  : list jsstring :=
  default [] (s !! key).

Definition kvGet (key : jsstring) : K (option kvValue) :=
  command (fun d s => (d !! key, d, s)).

Definition kvSet (key : jsstring) (v : kvValue) : K unit :=
  command (fun d s => (tt, <[key := v]> d, s)).

(** [kv.exists]: the number of keys that exist. *)
Definition kvExists (key : jsstring) : K Z :=
  command (fun d s => (match d !! key with Some _ => 1 | None => 0 end, d, s)).

Definition kvDel (key : jsstring) : K unit :=
  command (fun d s => (tt, delete key d, s)).

(** [SADD]: a member that is there already is not added again. *)
Definition sadd (s : gmap jsstring (list jsstring)) (key member : jsstring)
  : gmap jsstring (list jsstring) :=
  if bool_decide (member ∈ members s key) then s
  else <[key := members s key ++ [member]]> s.

(** [SREM]. *)
Definition srem (s : gmap jsstring (list jsstring)) (key member : jsstring)
  : gmap jsstring (list jsstring) :=
  <[key := List.filter (fun m => negb (jsstring_eqb m member))
             (members s key)]> s.

Definition kvSadd (key member : jsstring) : K unit :=
  command (fun d s => (tt, d, sadd s key member)).

Definition kvSrem (key member : jsstring) : K unit :=
  command (fun d s => (tt, d, srem s key member)).

Definition kvSmembers (key : jsstring) : K (list jsstring) :=
  command (fun d s => (members s key, d, s)).

Definition kvPing : K unit := command (fun d s => (tt, d, s)).

(** [Promise.all(ids.map(id => kv.get(prefix + id)))]: every command is
    issued; the whole fails when one of them fails. *)
Fixpoint kvGetAll (prefix : jsstring) (ids : list jsstring)
  : K (list (option kvValue)) := fun st =>
  match ids with
  | [] => (Ok [], st)
  | id :: rest =>
      let '(first, st1) := kvGet (prefix ++ id) st in
      let '(others, st2) := kvGetAll prefix rest st1 in
      (v ← first; vs ← others; mret (v :: vs), st2)
  end.

Definition createdAtOf (v : kvValue) : Z :=
  match v with
  | KInterview i => si_createdAt i
  | KStudy s => ss_createdAt s
  | KLink l => sl_createdAt l
  end.

(** [sort((a, b) => b.createdAt - a.createdAt)]: the sort is stable, and
    for this comparison the sorted array is determined; it is computed
    here by insertion. *)
Fixpoint insertNewest (x : kvValue) (sorted : list kvValue) : list kvValue :=
  match sorted with
  | [] => [x]
  | y :: rest =>
      if createdAtOf y <=? createdAtOf x then x :: sorted
      else y :: insertNewest x rest
  end.

Definition sortNewestFirst (l : list kvValue) : list kvValue :=
  foldr insertNewest [] l.

(** [.filter(i => i !== null)]. *)
Definition present (l : list (option kvValue)) : list kvValue :=
  omap id l.

(** The shape shared by [getAllInterviews], [getStudyInterviews],
    [getStudyLinks] and [getAllStudies]. *)
Definition listRecords (setKey prefix : jsstring) : K (list kvValue) :=
  tryK
    (ids ← kvSmembers setKey;
     match ids with
     | [] => mret []
     | _ :: _ =>
         found ← kvGetAll prefix ids;
         mret (sortNewestFirst (present found))
     end)
    (mret []).

Definition getInterview (id : jsstring) : K (option kvValue) :=
  tryK (kvGet (INTERVIEW_PREFIX ++ id)) (mret None).

(** [{ success, isNew }]. *)
Record SaveResult : Type := { success : bool; isNew : bool }.

Definition saveInterview (interview : StoredInterview) : K SaveResult :=
  tryK
    (n ← kvExists (INTERVIEW_PREFIX ++ si_id interview);
     _ ← kvSet (INTERVIEW_PREFIX ++ si_id interview) (KInterview interview);
     _ ← kvSadd (STUDY_INDEX_PREFIX ++ si_studyId interview) (si_id interview);
     _ ← kvSadd ALL_INTERVIEWS_KEY (si_id interview);
     mret {| success := true; isNew := n =? 0 |})
    (mret {| success := false; isNew := false |}).

Definition getAllInterviews : K (list kvValue) :=
  listRecords ALL_INTERVIEWS_KEY INTERVIEW_PREFIX.

Definition getStudyInterviews (studyId : jsstring) : K (list kvValue) :=
  listRecords (STUDY_INDEX_PREFIX ++ studyId) INTERVIEW_PREFIX.

Definition deleteInterview (id studyId : jsstring) : K bool :=
  tryK
    (_ ← kvDel (INTERVIEW_PREFIX ++ id);
     _ ← kvSrem (STUDY_INDEX_PREFIX ++ studyId) id;
     _ ← kvSrem ALL_INTERVIEWS_KEY id;
     mret true)
    (mret false).

Definition isKVAvailable : K bool :=
  tryK (_ ← kvPing; mret true) (mret false).

Definition saveStudy (study : StoredStudy) : K bool :=
  tryK
    (_ ← kvSet (STUDY_PREFIX ++ ss_id study) (KStudy study);
     _ ← kvSadd ALL_STUDIES_KEY (ss_id study);
     mret true)
    (mret false).

Definition getStudy (id : jsstring) : K (option kvValue) :=
  tryK (kvGet (STUDY_PREFIX ++ id)) (mret None).

Definition getAllStudies : K (list kvValue) :=
  listRecords ALL_STUDIES_KEY STUDY_PREFIX.

(** [{ success, error? }]. *)
Record DeleteResult : Type := {
  deleted : bool;
  deleteError : option jsstring
}.

Definition deleteStudy (id : jsstring) : K DeleteResult :=
  tryK
    (interviewIds ← kvSmembers (STUDY_INDEX_PREFIX ++ id);
     match interviewIds with
     | _ :: _ =>
         mret {| deleted := false;
                 deleteError :=
                   Some (js "Cannot delete study with existing interviews") |}
     | [] =>
         _ ← kvDel (STUDY_PREFIX ++ id);
         _ ← kvSrem ALL_STUDIES_KEY id;
         mret {| deleted := true; deleteError := None |}
     end)
    (mret {| deleted := false;
             deleteError := Some (js "Failed to delete study") |}).

Definition withLock (s : StoredStudy) (now : Z) : StoredStudy :=
  {| ss_id := ss_id s; config := config s; linksEnabled := linksEnabled s;
     ss_createdAt := ss_createdAt s; updatedAt := now;
     interviewCount := interviewCount s; linkCount := linkCount s;
     isLocked := true |}.

Definition withInterviewCount (s : StoredStudy) (now : Z) : StoredStudy :=
  {| ss_id := ss_id s; config := config s; linksEnabled := linksEnabled s;
     ss_createdAt := ss_createdAt s; updatedAt := now;
     interviewCount := interviewCount s + 1; linkCount := linkCount s;
     isLocked := isLocked s |}.

(** [lockStudy]; [now] is [Date.now()].  A record of another kind under a
    study key is excluded by the keys ([keyOf_inj]) and read
    as absent. *)
Definition lockStudy (studyId : jsstring) (now : Z) : K bool :=
  tryK
    (found ← getStudy studyId;
     match found with
     | Some (KStudy study) =>
         if isLocked study then mret true
         else saveStudy (withLock study now)
     | _ => mret false
     end)
    (mret false).

Definition incrementStudyInterviewCount (studyId : jsstring) (now : Z)
  : K bool :=
  tryK
    (found ← getStudy studyId;
     match found with
     | Some (KStudy study) => saveStudy (withInterviewCount study now)
     | _ => mret false
     end)
    (mret false).

Definition saveLink (link : StoredLink) : K bool :=
  tryK
    (_ ← kvSet (LINK_PREFIX ++ token link) (KLink link);
     _ ← kvSadd (STUDY_LINKS_PREFIX ++ sl_studyId link) (token link);
     mret true)
    (mret false).

Definition getStudyLinks (studyId : jsstring) : K (list kvValue) :=
  listRecords (STUDY_LINKS_PREFIX ++ studyId) LINK_PREFIX.

(** ** Vocabulary for the store *)

(** The seven families of keys. *)
Inductive KeyKind : Type :=
  | InterviewKey | StudyIndexKey | LinkKey | StudyLinksKey | StudyKey
  | AllStudies | AllInterviews.

Definition keyOf (kind : KeyKind) (id : jsstring) : jsstring :=
  match kind with
  | InterviewKey => INTERVIEW_PREFIX ++ id
  | StudyIndexKey => STUDY_INDEX_PREFIX ++ id
  | LinkKey => LINK_PREFIX ++ id
  | StudyLinksKey => STUDY_LINKS_PREFIX ++ id
  | StudyKey => STUDY_PREFIX ++ id
  | AllStudies => ALL_STUDIES_KEY
  | AllInterviews => ALL_INTERVIEWS_KEY
  end.

Definition takesId (kind : KeyKind) : bool :=
  match kind with
  | AllStudies | AllInterviews => false
  | _ => true
  end.

(** Newest first. *)
Definition newestFirst (l : list kvValue) : Prop :=
  StronglySorted (fun a b => createdAtOf b <= createdAtOf a) l.

(** The records found under the ids of a set. *)
Definition recordsOf (st : KV) (setKey prefix : jsstring) : list kvValue :=
  omap (fun id => data st !! (prefix ++ id)) (members (sets st) setKey).

Definition emptyKV : KV := {| data := ∅; sets := ∅; faults := [] |}.

Definition withFaults (st : KV) (plan : list bool) : KV :=
  {| data := data st; sets := sets st; faults := plan |}.

Definition sampleInterview (id : string) (created : Z) : StoredInterview :=
  {| si_id := js id; si_studyId := js "s1"; studyName := js "Study";
     participantProfile := extractedProfile; transcript := [userSays "hello"];
     synthesis := None; behaviorData := demoBehavior;
     si_createdAt := created; completedAt := created + 60000;
     completed := true |}.

Definition sampleStudy : StoredStudy :=
  {| ss_id := js "s1"; config := demoConfig; linksEnabled := None;
     ss_createdAt := 1; updatedAt := 1; interviewCount := 0;
     linkCount := None; isLocked := false |}.

(** None of the next [n] commands fails. *)
Definition faultFree (n : nat) (plan : list bool) : bool :=
  forallb negb (take n plan).

(** A store with two interviews of study [s1], and an id in the index
    whose record is gone. *)
Definition sampleKV : KV :=
  {| data :=
       <[INTERVIEW_PREFIX ++ js "a" := KInterview (sampleInterview "a" 10)]>
         (<[INTERVIEW_PREFIX ++ js "b" := KInterview (sampleInterview "b" 20)]>
            (<[STUDY_PREFIX ++ js "s1" := KStudy sampleStudy]> ∅));
     sets :=
       <[STUDY_INDEX_PREFIX ++ js "s1" := [js "a"; js "gone"; js "b"]]>
         (<[ALL_INTERVIEWS_KEY := [js "a"; js "gone"; js "b"]]>
            (<[ALL_STUDIES_KEY := [js "s1"]]> ∅));
     faults := [] |}.

(** ** Export of all interviews (app/api/interviews/export/route.ts) *)

(** What the route answers: a JSON error with a status, or the archive. *)
Inductive ExportResponse : Type :=
  | ExportError (status : Z) (message : jsstring)
  | ExportArchive (archive : jsstring).

Definition throwK {A} (e : error) : K A := fun st => (Throw e, st).

Section ExportRoute.

Variable env : Env.
Variable jwtVerify : jsstring -> jsstring -> VerifyOutcome.
(** Building the archive from the interviews ([JSZip], the dates, the
    summary): it may throw. *)
Variable buildArchive : list kvValue -> result jsstring.

(** [GET]; [authCookie] is [cookieStore.get(SESSION_COOKIE_NAME)?.value]. *)
Definition exportGET (authCookie : option jsstring) : K ExportResponse :=
  tryK
    (match authCookie with
     | Some ((_ :: _) as token) =>
         if negb (verifySessionToken env jwtVerify token)
         then mret (ExportError 401 (js "Session expired or invalid"))
         else
           kvAvailable ← isKVAvailable;
           if negb kvAvailable
           then mret (ExportError 400 (js "Storage not configured"))
           else
             interviews ← getAllInterviews;
             match interviews with
             | [] => mret (ExportError 404 (js "No interviews to export"))
             | _ :: _ =>
                 match buildArchive interviews with
                 | Ok archive => mret (ExportArchive archive)
                 | Throw e => throwK e
                 end
             end
     | _ => mret (ExportError 401 (js "Unauthorized"))
     end)
    (mret (ExportError 500 (js "Failed to export interviews"))).

End ExportRoute.

(** [text.replace] with the global pattern of one double quote and two
    double quotes as the replacement. *)
Definition escapeQuotes (text : jsstring) : jsstring :=
  text ≫= fun c => if (c =? DQUOTE)%N then [DQUOTE; DQUOTE] else [c].

(** [interview.synthesis?.bottomLine?.replace(...) || '']: the bottom
    line with its double quotes doubled, and the empty string when there
    is no synthesis. *)
Definition csvInsight (interview : StoredInterview) : jsstring :=
  match synthesis interview with
  | Some s => escapeQuotes (bottomLine s)
  | None => []
  end.

(** Every double quote of the text has a double quote beside it. *)
Fixpoint quotesPaired (text : jsstring) : bool :=
  match text with
  | [] => true
  | c :: rest =>
      if (c =? DQUOTE)%N
      then match rest with
           | c' :: rest' => (c' =? DQUOTE)%N && quotesPaired rest'
           | [] => false
           end
      else quotesPaired rest
  end.

Definition sampleArchive (interviews : list kvValue) : result jsstring :=
  Ok (js "zip").

(** The request carries a session cookie that [verifySessionToken]
    accepts. *)
Definition presentsSession (env : Env)
    (jwtVerify : jsstring -> jsstring -> VerifyOutcome)
    (authCookie : option jsstring) : bool :=
  match authCookie with
  | Some ((_ :: _) as token) => verifySessionToken env jwtVerify token
  | _ => false
  end.

Definition sampleSynthesis : SynthesisResult :=
  {| statedPreferences := []; revealedPreferences := []; themes := [];
     contradictions := []; keyInsights := [];
     bottomLine := js "They call it " ++ quoted (js "fine") |}.

Definition analysedInterview : StoredInterview :=
  {| si_id := js "a"; si_studyId := js "s1"; studyName := js "Study";
     participantProfile := extractedProfile; transcript := [userSays "hello"];
     synthesis := Some sampleSynthesis; behaviorData := demoBehavior;
     si_createdAt := 10; completedAt := 60010; completed := true |}.

(** ** The study form (components/StudySetup.tsx) *)

(** The state of the form. *)
Record StudyForm : Type := {
  form_name : jsstring;
  form_description : jsstring;
  form_researchQuestion : jsstring;
  form_coreQuestions : list jsstring;
  form_topicAreas : list jsstring;
  form_profileSchema : list ProfileField;
  form_aiBehavior : AIBehavior;
  form_consentText : jsstring
}.

(** [a.length > 0 ? a : ['']]. *)
Definition orOneBlank (a : list jsstring) : list jsstring :=
  match a with
  | [] => [[]]
  | _ :: _ => a
  end.

(** The effect that copies a study configuration into the form. *)
Definition syncForm (studyConfig : StudyConfig) : StudyForm :=
  {| form_name := name studyConfig;
     form_description := description studyConfig;
     form_researchQuestion := researchQuestion studyConfig;
     form_coreQuestions := orOneBlank (coreQuestions studyConfig);
     form_topicAreas := orOneBlank (topicAreas studyConfig);
     form_profileSchema := profileSchema studyConfig;
     form_aiBehavior := aiBehavior studyConfig;
     form_consentText := consentText studyConfig |}.

(** [addProfileField]: the next schema; [now] is [Date.now()]. *)
Definition addProfileField (profileSchema : list ProfileField)
    (preset : option ProfileField) (now : nat) : list ProfileField :=
  match preset with
  | Some p =>
      if existsb (fun f => jsstring_eqb (pf_id f) (pf_id p)) profileSchema
      then profileSchema
      else profileSchema ++ [p]
  | None =>
      profileSchema ++
      [{| pf_id := js "field-" ++ showNat now; pf_label := [];
          extractionHint := []; required := false; options := None |}]
  end.

Definition removeProfileField (profileSchema : list ProfileField)
    (id : jsstring) : list ProfileField :=
  List.filter (fun f => negb (jsstring_eqb (pf_id f) id)) profileSchema.

Definition toggleFieldRequired (profileSchema : list ProfileField)
    (id : jsstring) : list ProfileField :=
  map (fun f =>
         if jsstring_eqb (pf_id f) id
         then {| pf_id := pf_id f; pf_label := pf_label f;
                 extractionHint := extractionHint f;
                 required := negb (required f); options := options f |}
         else f)
      profileSchema.

(** [s.trim()] as a condition. *)
Definition notBlank (s : jsstring) : bool :=
  match trim s with
  | [] => false
  | _ :: _ => true
  end.

(** [buildConfig]; [studyConfig] is the configuration in the store, if
    there is one, and [now] is [Date.now()]. *)
Definition buildConfig (form : StudyForm) (studyConfig : option StudyConfig)
    (now : nat) : StudyConfig :=
  {| sc_id :=
       match studyConfig with
       | Some {| sc_id := (_ :: _) as id |} => id
       | _ => js "study-" ++ showNat now
       end;
     name :=
       match form_name form with
       | [] => js "Untitled Study"
       | _ :: _ => form_name form
       end;
     description := form_description form;
     researchQuestion := form_researchQuestion form;
     coreQuestions := List.filter notBlank (form_coreQuestions form);
     topicAreas := List.filter notBlank (form_topicAreas form);
     profileSchema :=
       List.filter (fun f => notBlank (pf_label f)) (form_profileSchema form);
     aiBehavior := form_aiBehavior form;
     consentText := form_consentText form;
     createdAt :=
       match studyConfig with
       | Some c => if createdAt c =? 0 then Z.of_nat now else createdAt c
       | None => Z.of_nat now
       end;
     tone := None;
     language := None |}.

Definition sampleForm : StudyForm :=
  {| form_name := []; form_description := js "About tools";
     form_researchQuestion := js "How do teams choose tools?";
     form_coreQuestions := [js "What do you use?"; js "  "; []];
     form_topicAreas := [[]];
     form_profileSchema :=
       [{| pf_id := js "role"; pf_label := js "Current Role";
           extractionHint := js "Their job title"; required := true;
           options := None |};
        {| pf_id := js "field-1"; pf_label := js " ";
           extractionHint := []; required := false; options := None |}];
     form_aiBehavior := Standard;
     form_consentText := js "Do you consent?" |}.

(** * Properties *)

(** ** JavaScript string primitives *)

Lemma stripPrefix_length lit s rest :
  stripPrefix lit s = Some rest ->
  (length rest + length lit = length s)%nat.
Proof.
  revert s; induction lit as [|a lit IH]; intros [|b s] H; simpl in *;
    try congruence.
  - inversion H; simpl; lia.
  - inversion H; subst; simpl; lia.
  - destruct (a =? b)%N; [|discriminate]. apply IH in H. lia.
Qed.

Lemma dropWhile_length {A} (p : A -> bool) l :
  (length (dropWhile p l) <= length l)%nat.
Proof.
  induction l as [|x l IH]; simpl; [lia|]. destruct (p x); simpl; lia.
Qed.

(** More fuel than [length s] does not change the outcome. *)
Lemma replaceAllFuel_enough lit s : forall fuel,
  lit <> [] -> (length s <= fuel)%nat ->
  replaceAllFuel fuel lit s = replaceAllFuel (length s) lit s.
Proof.
  intros fuel Hlit. revert s.
  induction fuel as [fuel IH] using lt_wf_ind. intros s Hle.
  destruct s as [|c s].
  - destruct fuel; reflexivity.
  - destruct fuel as [|fuel]; [simpl in Hle; lia|].
    cbn [replaceAllFuel length]. simpl in Hle.
    destruct (stripPrefix lit (c :: s)) as [rest|] eqn:Hp.
    + pose proof (stripPrefix_length _ _ _ Hp) as Hl.
      pose proof (dropWhile_length isWhiteSpace rest) as Hd.
      destruct lit as [|a lit]; [congruence|]. simpl in Hl.
      rewrite (IH fuel) by lia.
      rewrite (IH (length s)) by lia.
      reflexivity.
    + f_equal. apply IH; lia.
Qed.

(** The regular-expression reading of [replaceAll]: the empty string. *)
Lemma replaceAll_nil lit : replaceAll lit [] = [].
Proof. reflexivity. Qed.

(** A match at the head is dropped with the white space after it. *)
Lemma replaceAll_cons_match lit c s rest :
  lit <> [] ->
  stripPrefix lit (c :: s) = Some rest ->
  replaceAll lit (c :: s) = replaceAll lit (dropWhile isWhiteSpace rest).
Proof.
  intros Hlit Hp. unfold replaceAll. cbn [replaceAllFuel length].
  rewrite Hp. apply replaceAllFuel_enough; [done|].
  pose proof (stripPrefix_length _ _ _ Hp) as Hl.
  pose proof (dropWhile_length isWhiteSpace rest).
  destruct lit; [done|]. simpl in *. lia.
Qed.

(** Without a match at the head the code unit is kept. *)
Lemma replaceAll_cons_skip lit c s :
  stripPrefix lit (c :: s) = None ->
  replaceAll lit (c :: s) = c :: replaceAll lit s.
Proof.
  intros Hp. unfold replaceAll. cbn [replaceAllFuel length].
  rewrite Hp. reflexivity.
Qed.

Lemma indexOfFrom_spec c s : forall i,
  0 <= i ->
  (indexOfFrom c s i = -1 /\ absent c s)
  \/ (exists n, indexOfFrom c s i = i + Z.of_nat n /\ firstIndex c s n).
Proof.
  induction s as [|x s IH]; intros i Hi; simpl.
  - left. split; [reflexivity|]. intros j. by destruct j.
  - destruct (x =? c)%N eqn:E.
    + apply N.eqb_eq in E. subst x. right. exists 0%nat.
      split; [lia|]. split; [reflexivity|]. intros j Hj. lia.
    + apply N.eqb_neq in E.
      destruct (IH (i + 1)) as [[H1 H2]|[n [H1 [H2 H3]]]]; [lia| |].
      * left. split; [exact H1|]. intros [|j]; simpl; [congruence|apply H2].
      * right. exists (S n). split; [lia|]. split; [exact H2|].
        intros [|j] Hj; simpl; [congruence|]. apply H3. lia.
Qed.

Lemma indexOf_spec c s :
  (indexOf c s = -1 /\ absent c s)
  \/ (exists n, indexOf c s = Z.of_nat n /\ firstIndex c s n).
Proof. apply (indexOfFrom_spec c s 0). lia. Qed.

Lemma firstIndex_unique c s i j :
  firstIndex c s i -> firstIndex c s j -> i = j.
Proof.
  intros [Hi1 Hi2] [Hj1 Hj2].
  destruct (Nat.lt_trichotomy i j) as [H|[H|H]]; [|done|].
  - by destruct (Hj2 i H).
  - by destruct (Hi2 j H).
Qed.

Lemma firstIndex_lt c s i : firstIndex c s i -> (i < length s)%nat.
Proof. intros [H _]. by apply lookup_lt_Some in H. Qed.

Lemma substring_take_drop s (a n : nat) :
  (a + n <= length s)%nat ->
  substring s (Z.of_nat a) (Z.of_nat a + Z.of_nat n) = take n (drop a s).
Proof.
  intros H. unfold substring.
  replace (Z.min (Z.max (Z.of_nat a) 0) (Z.of_nat (length s)))
    with (Z.of_nat a) by lia.
  replace (Z.min (Z.max (Z.of_nat a + Z.of_nat n) 0) (Z.of_nat (length s)))
    with (Z.of_nat a + Z.of_nat n) by lia.
  replace (Z.min (Z.of_nat a) (Z.of_nat a + Z.of_nat n))
    with (Z.of_nat a) by lia.
  replace (Z.max (Z.of_nat a) (Z.of_nat a + Z.of_nat n) - Z.of_nat a)
    with (Z.of_nat n) by lia.
  by rewrite !Nat2Z.id.
Qed.

(** ** The depth scan *)

Lemma balance_cons o c x s :
  balance o c (x :: s) =
  (if (x =? o)%N then 1 else 0) - (if (x =? c)%N then 1 else 0)
  + balance o c s.
Proof.
  unfold balance, occurrences. simpl.
  rewrite (N.eqb_sym o x), (N.eqb_sym c x).
  destruct (x =? o)%N, (x =? c)%N; simpl length; lia.
Qed.

Lemma balance_nil o c : balance o c [] = 0.
Proof. reflexivity. Qed.

(** The loop returns at the least index where the running depth is zero. *)
Lemma scanDepth_Some o c rest : forall i d j,
  scanDepth o c rest i d = Some j ->
  exists n, j = i + Z.of_nat n /\ (n < length rest)%nat
    /\ d + balance o c (take (S n) rest) = 0
    /\ forall m, (m < n)%nat -> d + balance o c (take (S m) rest) <> 0.
Proof.
  induction rest as [|ch rest IH]; intros i d j H; simpl in H; [discriminate|].
  set (d' := if (ch =? c)%N
             then (if (ch =? o)%N then d + 1 else d) - 1
             else (if (ch =? o)%N then d + 1 else d)) in *.
  assert (Hd : d' = d + balance o c [ch]).
  { rewrite balance_cons, balance_nil. unfold d'.
    destruct (ch =? o)%N, (ch =? c)%N; lia. }
  destruct (d' =? 0) eqn:E.
  - inversion H; subst j. exists 0%nat. rewrite Z.eqb_eq in E.
    split; [lia|]. split; [simpl; lia|]. split.
    + simpl take. rewrite take_0. lia.
    + intros m Hm. lia.
  - rewrite Z.eqb_neq in E. apply IH in H as [n (Hj & Hn & Hz & Hmin)].
    exists (S n). split; [lia|]. split; [simpl; lia|]. split.
    + change (take (S (S n)) (ch :: rest)) with (ch :: take (S n) rest).
      rewrite balance_cons. rewrite balance_cons, balance_nil in Hd. lia.
    + intros [|m] Hm.
      * simpl take. rewrite take_0. lia.
      * change (take (S (S m)) (ch :: rest)) with (ch :: take (S m) rest).
        rewrite balance_cons. rewrite balance_cons, balance_nil in Hd.
        specialize (Hmin m ltac:(lia)). lia.
Qed.

(** The loop runs off the end when the running depth is never zero. *)
Lemma scanDepth_None o c rest : forall i d,
  scanDepth o c rest i d = None ->
  forall n, (n < length rest)%nat -> d + balance o c (take (S n) rest) <> 0.
Proof.
  induction rest as [|ch rest IH]; intros i d H n Hn; simpl in *; [lia|].
  set (d' := if (ch =? c)%N
             then (if (ch =? o)%N then d + 1 else d) - 1
             else (if (ch =? o)%N then d + 1 else d)) in *.
  assert (Hd : d' = d + balance o c [ch]).
  { rewrite balance_cons, balance_nil. unfold d'.
    destruct (ch =? o)%N, (ch =? c)%N; lia. }
  rewrite balance_cons, balance_nil in Hd.
  destruct (d' =? 0) eqn:E; [discriminate|]. rewrite Z.eqb_neq in E.
  destruct n as [|n].
  - rewrite take_0, balance_cons, balance_nil. lia.
  - rewrite balance_cons. specialize (IH _ _ H n ltac:(lia)). lia.
Qed.

Lemma scanDepth_closesAt o c rest i j :
  scanDepth o c rest i 0 = Some j ->
  exists n, j = i + Z.of_nat n /\ closesAt o c rest n.
Proof.
  intros H. apply scanDepth_Some in H as [n (Hj & Hn & Hz & Hmin)].
  exists n. split; [exact Hj|]. repeat split; [exact Hn|lia|].
  intros m Hm. specialize (Hmin m Hm). lia.
Qed.

Lemma scanDepth_neverCloses o c rest i :
  scanDepth o c rest i 0 = None -> neverCloses o c rest.
Proof.
  intros H n Hn. pose proof (scanDepth_None _ _ _ _ _ H n Hn). lia.
Qed.

(** ** Fence stripping *)

Lemma stripPrefix_Some lit s rest :
  stripPrefix lit s = Some rest <-> s = lit ++ rest.
Proof.
  revert s. induction lit as [|a lit IH]; intros s; simpl.
  - split; [by intros [= ->]|by intros ->].
  - destruct s as [|b s]; [split; discriminate|].
    destruct (a =? b)%N eqn:E.
    + apply N.eqb_eq in E. subst b. rewrite IH.
      split; [by intros ->|by intros [= ->]].
    + apply N.eqb_neq in E. split; [discriminate|]. intros [= H _]. congruence.
Qed.

Lemma stripPrefix_head_mismatch a lit c s :
  c <> a -> stripPrefix (a :: lit) (c :: s) = None.
Proof.
  intros H. simpl. destruct (a =? c)%N eqn:E; [|reflexivity].
  apply N.eqb_eq in E. congruence.
Qed.

Lemma dropWhile_suffix {A} (p : A -> bool) l :
  exists dropped, l = dropped ++ dropWhile p l.
Proof.
  induction l as [|x l [d IH]]; [by exists []|]. simpl.
  destruct (p x); [|by exists []]. exists (x :: d). simpl. by rewrite <- IH.
Qed.

(** [trim] keeps a contiguous part of its argument. *)
Lemma trim_infix s : exists before after, s = before ++ trim s ++ after.
Proof.
  unfold trim.
  destruct (dropWhile_suffix isWhiteSpace s) as [d1 E1].
  destruct (dropWhile_suffix isWhiteSpace
              (reverse (dropWhile isWhiteSpace s))) as [d2 E2].
  exists d1, (reverse d2). rewrite E1 at 1. f_equal.
  rewrite <- reverse_app, <- E2. by rewrite reverse_involutive.
Qed.

Lemma occursIn_trans x s t :
  occursIn x s -> (exists before after, t = before ++ s ++ after) ->
  occursIn x t.
Proof.
  intros (b1 & a1 & ->) (b2 & a2 & ->).
  exists (b2 ++ b1), (a1 ++ a2). by rewrite <- !app_assoc.
Qed.

Lemma occursIn_cons x c t :
  occursIn x (c :: t) -> (exists rest, c :: t = x ++ rest) \/ occursIn x t.
Proof.
  intros ([|b before] & after & E).
  - left. by exists after.
  - right. injection E as _ E. by exists before, after.
Qed.

Lemma occursIn_nil x : x <> [] -> ~ occursIn x [].
Proof.
  intros Hx (b & a & E). symmetry in E.
  apply app_eq_nil in E as [_ E]. apply app_eq_nil in E as [E _]. done.
Qed.

Lemma fence_unfold : fence = [BACKTICK; BACKTICK; BACKTICK].
Proof. reflexivity. Qed.

(** Where the text does not begin with two backticks, neither does what
    is left of it after the fences are removed. *)
Lemma replaceAll_fence_head s :
  (forall t, s <> BACKTICK :: BACKTICK :: t) ->
  forall t, replaceAll fence s <> BACKTICK :: BACKTICK :: t.
Proof.
  intros Hs t.
  destruct s as [|c s]; [discriminate|].
  destruct (N.eq_dec c BACKTICK) as [->|Hc].
  - destruct s as [|c' s]; [discriminate|].
    assert (Hc' : c' <> BACKTICK) by (intros ->; by apply (Hs s)).
    rewrite replaceAll_cons_skip.
    2:{ rewrite fence_unfold.
        change (stripPrefix [BACKTICK; BACKTICK; BACKTICK] (BACKTICK :: c' :: s))
          with (stripPrefix [BACKTICK; BACKTICK] (c' :: s)).
        by apply stripPrefix_head_mismatch. }
    rewrite replaceAll_cons_skip
      by (rewrite fence_unfold; by apply stripPrefix_head_mismatch).
    intros [= H _]. congruence.
  - rewrite replaceAll_cons_skip
      by (rewrite fence_unfold; by apply stripPrefix_head_mismatch).
    intros [= H _]. congruence.
Qed.

(** No fence marker is left after [replace(/```\s*/g, '')]. *)
Lemma replaceAll_fence_free s : ~ occursIn fence (replaceAll fence s).
Proof.
  remember (length s) as n eqn:Hn. revert s Hn.
  induction n as [n IH] using lt_wf_ind. intros s Hn.
  destruct s as [|c s].
  - rewrite replaceAll_nil. by apply occursIn_nil.
  - destruct (stripPrefix fence (c :: s)) as [rest|] eqn:Hp.
    + rewrite (replaceAll_cons_match fence c s rest) by done.
      pose proof (stripPrefix_length _ _ _ Hp) as Hl.
      pose proof (dropWhile_length isWhiteSpace rest) as Hd.
      apply (IH (length (dropWhile isWhiteSpace rest))); [|reflexivity].
      rewrite fence_unfold in Hl. simpl in *. lia.
    + rewrite (replaceAll_cons_skip fence c s Hp).
      intros H. apply occursIn_cons in H as [[rest E]|H].
      * rewrite fence_unfold in E. injection E as -> E.
        apply (replaceAll_fence_head s) in E; [done|].
        intros t ->. by rewrite fence_unfold in Hp; simpl in Hp.
      * apply (IH (length s)) in H; [done|simpl in Hn; lia|reflexivity].
Qed.

(** The text [cleanJSON] searches holds no fence marker. *)
Lemma stripFences_fence_free text : ~ occursIn fence (stripFences text).
Proof.
  intros H. apply (replaceAll_fence_free (replaceAll fenceJson text)).
  apply (occursIn_trans _ _ _ H). apply trim_infix.
Qed.

(** ** [cleanJSON] *)

Lemma absent_firstIndex c s i : absent c s -> firstIndex c s i -> False.
Proof. intros Ha [Hi _]. exact (Ha i Hi). Qed.

Lemma bracket_not_brace : LBRACKET <> LBRACE.
Proof. unfold LBRACKET, LBRACE. discriminate. Qed.

Lemma firstIndex_distinct a b s i j :
  a <> b -> firstIndex a s i -> firstIndex b s j -> i <> j.
Proof. intros Hab [Hi _] [Hj _] ->. congruence. Qed.

(** [cleanJSON] unfolded on a non-empty text, with both searches named. *)
Lemma cleanJSON_cons c text :
  cleanJSON (c :: text) =
  let cleaned := stripFences (c :: text) in
  let firstBracket := indexOf LBRACKET cleaned in
  let firstBrace := indexOf LBRACE cleaned in
  match
    (if negb (firstBracket =? -1)
        && ((firstBrace =? -1) || (firstBracket <? firstBrace))
     then scanDepth LBRACKET RBRACKET
            (drop (Z.to_nat firstBracket) cleaned) firstBracket 0
     else None)
  with
  | Some i => substring cleaned firstBracket (i + 1)
  | None =>
      match
        (if negb (firstBrace =? -1)
         then scanDepth LBRACE RBRACE
                (drop (Z.to_nat firstBrace) cleaned) firstBrace 0
         else None)
      with
      | Some i => substring cleaned firstBrace (i + 1)
      | None => cleaned
      end
  end.
Proof. reflexivity. Qed.

Lemma scan_result_substring o c s (first : nat) j :
  scanDepth o c (drop first s) (Z.of_nat first) 0 = Some j ->
  exists n, closesAt o c (drop first s) n
    /\ substring s (Z.of_nat first) (j + 1) = take (S n) (drop first s).
Proof.
  intros H. apply scanDepth_closesAt in H as [n [-> Hc]].
  exists n. split; [exact Hc|].
  replace (Z.of_nat first + Z.of_nat n + 1)
    with (Z.of_nat first + Z.of_nat (S n)) by lia.
  apply substring_take_drop.
  destruct Hc as [Hn _]. rewrite length_drop in Hn. lia.
Qed.

(** The object branch of [cleanJSON], once the array branch gave nothing. *)
Lemma cleanJSON_object_branch text (cleaned : jsstring) :
  text <> [] -> cleaned = stripFences text ->
  forall out,
  match
    (if negb (indexOf LBRACE cleaned =? -1)
     then scanDepth LBRACE RBRACE
            (drop (Z.to_nat (indexOf LBRACE cleaned)) cleaned)
            (indexOf LBRACE cleaned) 0
     else None)
  with
  | Some i => substring cleaned (indexOf LBRACE cleaned) (i + 1)
  | None => cleaned
  end = out ->
  (forall fb, firstIndex LBRACKET cleaned fb ->
     (forall j, (j < fb)%nat -> cleaned !! j <> Some LBRACE) ->
     neverCloses LBRACKET RBRACKET (drop fb cleaned)) ->
  (forall fb fc, firstIndex LBRACKET cleaned fb -> firstIndex LBRACE cleaned fc ->
     (fb < fc)%nat -> neverCloses LBRACKET RBRACKET (drop fb cleaned)) ->
  cleanJSON_spec text out.
Proof.
  intros Hne -> out Hout Harr Harr'. subst out.
  destruct (indexOf_spec LBRACE (stripFences text))
    as [[Hc Hca]|[fc [Hc Hcf]]]; rewrite Hc.
  - simpl. apply clean_none; [done|exact Harr|].
    intros fc Hf. destruct (absent_firstIndex _ _ _ Hca Hf).
  - replace (Z.of_nat fc =? -1) with false by (symmetry; apply Z.eqb_neq; lia).
    simpl negb. cbv iota. rewrite Nat2Z.id.
    destruct (scanDepth LBRACE RBRACE _ _ 0) as [j|] eqn:Hs.
    + apply scan_result_substring in Hs as [n [Hn ->]].
      apply clean_object; [done|exact Hcf| |exact Hn].
      intros fb Hb Hlt. exact (Harr' fb fc Hb Hcf Hlt).
    + apply clean_none; [done|exact Harr|].
      intros fc' Hf. rewrite (firstIndex_unique _ _ _ _ Hf Hcf).
      exact (scanDepth_neverCloses _ _ _ _ Hs).
Qed.

(** [cleanJSON] follows the case analysis of [cleanJSON_spec]. *)
Lemma cleanJSON_cases (text : jsstring) :
  cleanJSON_spec text (cleanJSON text).
Proof.
  destruct text as [|c0 text0]; [by apply clean_empty|].
  rewrite cleanJSON_cons. cbv zeta.
  set (text := c0 :: text0). assert (Hne : text <> []) by done.
  set (cleaned := stripFences text).
  destruct (indexOf_spec LBRACKET cleaned) as [[Hb Hba]|[fb [Hb Hbf]]];
    rewrite Hb.
  - (* no bracket *)
    simpl negb. cbv iota. simpl andb. cbv iota.
    eapply cleanJSON_object_branch; [done|reflexivity|reflexivity| |].
    + intros fb Hf. destruct (absent_firstIndex _ _ _ Hba Hf).
    + intros fb fc Hf. destruct (absent_firstIndex _ _ _ Hba Hf).
  - replace (Z.of_nat fb =? -1) with false by (symmetry; apply Z.eqb_neq; lia).
    simpl negb. rewrite andb_true_l. rewrite Nat2Z.id.
    destruct (indexOf_spec LBRACE cleaned) as [[Hc Hca]|[fc [Hc Hcf]]].
    + (* a bracket and no brace *)
      rewrite Hc at 1 2. simpl orb. cbv iota.
      destruct (scanDepth LBRACKET RBRACKET _ _ 0) as [j|] eqn:Hs.
      * apply scan_result_substring in Hs as [n [Hn ->]].
        apply clean_array; [done|exact Hbf| |exact Hn].
        intros k _. apply Hca.
      * eapply cleanJSON_object_branch; [done|reflexivity|reflexivity| |].
        -- intros fb' Hf _. rewrite (firstIndex_unique _ _ _ _ Hf Hbf).
           exact (scanDepth_neverCloses _ _ _ _ Hs).
        -- intros fb' fc Hf _ _. rewrite (firstIndex_unique _ _ _ _ Hf Hbf).
           exact (scanDepth_neverCloses _ _ _ _ Hs).
    + rewrite Hc at 1 2.
      replace (Z.of_nat fc =? -1) with false
        by (symmetry; apply Z.eqb_neq; lia).
      rewrite orb_false_l.
      assert (Hd : fb <> fc) by (by apply (firstIndex_distinct LBRACKET LBRACE cleaned)).
      destruct (Z.of_nat fb <? Z.of_nat fc) eqn:Hlt.
      * (* the bracket comes first *)
        apply Z.ltb_lt in Hlt.
        destruct (scanDepth LBRACKET RBRACKET _ _ 0) as [j|] eqn:Hs.
        -- apply scan_result_substring in Hs as [n [Hn ->]].
           apply clean_array; [done|exact Hbf| |exact Hn].
           intros k Hk. apply (proj2 Hcf). lia.
        -- eapply cleanJSON_object_branch; [done|reflexivity|reflexivity| |].
           ++ intros fb' Hf _. rewrite (firstIndex_unique _ _ _ _ Hf Hbf).
              exact (scanDepth_neverCloses _ _ _ _ Hs).
           ++ intros fb' fc' Hf _ _. rewrite (firstIndex_unique _ _ _ _ Hf Hbf).
              exact (scanDepth_neverCloses _ _ _ _ Hs).
      * (* the brace comes first *)
        apply Z.ltb_ge in Hlt.
        eapply cleanJSON_object_branch; [done|reflexivity|reflexivity| |].
        -- intros fb' Hf Hno. rewrite (firstIndex_unique _ _ _ _ Hf Hbf) in Hno.
           destruct (Hno fc ltac:(lia) (proj1 Hcf)).
        -- intros fb' fc' Hf Hf' Hlt'.
           rewrite (firstIndex_unique _ _ _ _ Hf Hbf) in Hlt'.
           rewrite (firstIndex_unique _ _ _ _ Hf' Hcf) in Hlt'. lia.
Qed.

Lemma closesAt_unique o c s n m : closesAt o c s n -> closesAt o c s m -> n = m.
Proof.
  intros (_ & Hn & Hnmin) (_ & Hm & Hmmin).
  destruct (Nat.lt_trichotomy n m) as [H|[H|H]]; [|done|].
  - destruct (Hmmin n H Hn).
  - destruct (Hnmin m H Hm).
Qed.

Lemma closesAt_neverCloses o c s n : closesAt o c s n -> neverCloses o c s -> False.
Proof. intros (Hlt & Hn & _) Hnever. exact (Hnever n Hlt Hn). Qed.

(** The case analysis of [cleanJSON_spec] leaves one output only. *)
Lemma cleanJSON_spec_functional text a b :
  cleanJSON_spec text a -> cleanJSON_spec text b -> a = b.
Proof.
  intros Ha Hb.
  destruct Ha as [He|fb n Hne Hfb Hno Hcl|fc n Hne Hfc Harr Hcl|Hne Harr Hobj];
    destruct Hb as [He'|fb' n' Hne' Hfb' Hno' Hcl'|fc' n' Hne' Hfc' Harr' Hcl'
                   |Hne' Harr' Hobj']; try congruence.
  - rewrite (firstIndex_unique _ _ _ _ Hfb' Hfb) in *.
    by rewrite (closesAt_unique _ _ _ _ _ Hcl Hcl').
  - exfalso. apply (closesAt_neverCloses _ _ _ _ Hcl). apply Harr'; [exact Hfb|].
    destruct (Nat.lt_trichotomy fb fc') as [H|[H|H]]; [exact H| |].
    + destruct (firstIndex_distinct _ _ _ _ _ bracket_not_brace Hfb Hfc' H).
    + destruct (Hno fc' H (proj1 Hfc')).
  - exfalso. exact (closesAt_neverCloses _ _ _ _ Hcl (Harr' fb Hfb Hno)).
  - exfalso. apply (closesAt_neverCloses _ _ _ _ Hcl'). apply Harr; [exact Hfb'|].
    destruct (Nat.lt_trichotomy fb' fc) as [H|[H|H]]; [exact H| |].
    + destruct (firstIndex_distinct _ _ _ _ _ bracket_not_brace Hfb' Hfc H).
    + destruct (Hno' fc H (proj1 Hfc)).
  - rewrite (firstIndex_unique _ _ _ _ Hfc' Hfc) in *.
    by rewrite (closesAt_unique _ _ _ _ _ Hcl Hcl').
  - exfalso. exact (closesAt_neverCloses _ _ _ _ Hcl (Hobj' fc Hfc)).
  - exfalso. exact (closesAt_neverCloses _ _ _ _ Hcl' (Harr fb' Hfb' Hno')).
  - exfalso. exact (closesAt_neverCloses _ _ _ _ Hcl' (Hobj fc' Hfc')).
Qed.

(** *** The declarative reading of fence stripping *)

Lemma dropWhile_split {A} (p : A -> bool) l :
  exists dropped,
    l = dropped ++ dropWhile p l /\ Forall (fun x => p x = true) dropped.
Proof.
  induction l as [|x l (d & IH & Hd)]; [by exists []|]. simpl.
  destruct (p x) eqn:E; [|by exists []].
  exists (x :: d). split; [simpl; by rewrite <- IH|by constructor].
Qed.

Lemma dropWhile_app_all {A} (p : A -> bool) l k :
  Forall (fun x => p x = true) l -> dropWhile p (l ++ k) = dropWhile p k.
Proof.
  induction 1 as [|x l Hx _ IH]; [done|]. simpl. by rewrite Hx.
Qed.

Lemma dropWhile_no_lead s :
  ~ startsWithWhiteSpace s -> dropWhile isWhiteSpace s = s.
Proof.
  destruct s as [|c s]; [done|]. intros H. simpl.
  destruct (isWhiteSpace c) eqn:E; [|done].
  destruct H. by exists c, s.
Qed.

Lemma dropWhile_head s : ~ startsWithWhiteSpace (dropWhile isWhiteSpace s).
Proof.
  induction s as [|c s IH]; simpl.
  - intros (x & r & H & _). discriminate H.
  - destruct (isWhiteSpace c) eqn:E; [exact IH|].
    intros (x & r & [= <- <-] & Hx). congruence.
Qed.

Lemma removed_replaceAll lit s :
  lit <> [] -> removed lit s (replaceAll lit s).
Proof.
  intros Hlit. remember (length s) as n eqn:Hn. revert s Hn.
  induction n as [n IH] using lt_wf_ind. intros s ->.
  destruct s as [|c s]; [rewrite replaceAll_nil; constructor|].
  destruct (stripPrefix lit (c :: s)) as [rest|] eqn:Hp.
  - rewrite (replaceAll_cons_match lit c s rest Hlit Hp).
    pose proof (proj1 (stripPrefix_Some _ _ _) Hp) as Hs.
    destruct (dropWhile_split isWhiteSpace rest) as (ws & Hrest & Hws).
    rewrite Hs. rewrite Hrest at 1.
    apply removed_match; [exact Hws|apply dropWhile_head|].
    apply (IH (length (dropWhile isWhiteSpace rest))); [|done].
    apply (f_equal length) in Hs, Hrest. rewrite length_app in Hs, Hrest.
    destruct lit; [done|]. simpl in *. lia.
  - rewrite (replaceAll_cons_skip lit c s Hp). apply removed_keep.
    + intros rest Hs. apply stripPrefix_Some in Hs. congruence.
    + apply (IH (length s)); [simpl; lia|done].
Qed.

Lemma removed_unique lit s out :
  lit <> [] -> removed lit s out -> out = replaceAll lit s.
Proof.
  intros Hlit. induction 1 as [|ws rest out Hws Hrest _ IH|c s out Hno _ IH].
  - by rewrite replaceAll_nil.
  - destruct lit as [|a lit]; [done|].
    change ((a :: lit) ++ ws ++ rest) with (a :: (lit ++ ws ++ rest)).
    rewrite (replaceAll_cons_match (a :: lit) a (lit ++ ws ++ rest)
               (ws ++ rest)); [|done|by apply stripPrefix_Some].
    by rewrite (dropWhile_app_all _ _ _ Hws), (dropWhile_no_lead _ Hrest).
  - rewrite replaceAll_cons_skip; [by rewrite IH|].
    destruct (stripPrefix lit (c :: s)) as [rest|] eqn:Hp; [|done].
    apply stripPrefix_Some in Hp. by destruct (Hno rest).
Qed.

Lemma reverse_no_lead t :
  ~ endsWithWhiteSpace t -> ~ startsWithWhiteSpace (reverse t).
Proof.
  intros Hend (c & r & Hr & Hc). apply Hend.
  exists (reverse r), c. split; [|exact Hc].
  rewrite <- (reverse_involutive t), Hr. by rewrite reverse_cons.
Qed.

Lemma allWhiteSpace_reverse s : allWhiteSpace s -> allWhiteSpace (reverse s).
Proof. unfold allWhiteSpace. intros H. by apply Forall_reverse. Qed.

Lemma trimmedOf_trim s : trimmedOf s (trim s).
Proof.
  unfold trim.
  destruct (dropWhile_split isWhiteSpace s) as (lead & Hs & Hlead).
  destruct (dropWhile_split isWhiteSpace (reverse (dropWhile isWhiteSpace s)))
    as (trail & Hr & Htrail).
  set (core := dropWhile isWhiteSpace (reverse (dropWhile isWhiteSpace s))) in *.
  assert (Hmid : dropWhile isWhiteSpace s = reverse core ++ reverse trail).
  { rewrite <- reverse_app, <- Hr. by rewrite reverse_involutive. }
  exists lead, (reverse trail). split; [by rewrite <- Hmid|].
  split; [exact Hlead|]. split; [by apply allWhiteSpace_reverse|]. split.
  - intros (c & r & Hc & Hw).
    apply (dropWhile_head s). exists c, (r ++ reverse trail).
    split; [by rewrite Hmid, Hc|exact Hw].
  - intros (front & c & Hc & Hw).
    apply (dropWhile_head (reverse (dropWhile isWhiteSpace s))).
    exists c, (reverse front). split; [|exact Hw]. fold core.
    rewrite <- (reverse_involutive core), Hc. by rewrite reverse_snoc.
Qed.

Lemma trimmedOf_unique s t : trimmedOf s t -> t = trim s.
Proof.
  intros (lead & trail & -> & Hlead & Htrail & Hstart & Hend). unfold trim.
  rewrite (dropWhile_app_all _ _ _ Hlead).
  destruct t as [|c t].
  - simpl. rewrite <- (app_nil_r trail) at 1.
    rewrite (dropWhile_app_all _ _ _ Htrail). simpl.
    symmetry. rewrite reverse_nil. done.
  - rewrite (dropWhile_no_lead ((c :: t) ++ trail)).
    2: { intros (x & r & [= <- <-] & Hx). apply Hstart. by exists c, t. }
    rewrite reverse_app.
    rewrite (dropWhile_app_all _ _ _ (allWhiteSpace_reverse _ Htrail)).
    rewrite (dropWhile_no_lead _ (reverse_no_lead _ Hend)).
    by rewrite reverse_involutive.
Qed.

Lemma fenceJson_nonempty : fenceJson <> [].
Proof. discriminate. Qed.

Lemma fence_nonempty : fence <> [].
Proof. discriminate. Qed.

(** The declarative reading determines the fence-free text, and
    [stripFences] computes it. *)
Lemma fenceStripped_stripFences text cleaned :
  fenceStripped text cleaned <-> cleaned = stripFences text.
Proof.
  unfold stripFences. split.
  - intros (a & b & Ha & Hb & Ht).
    apply (removed_unique _ _ _ fenceJson_nonempty) in Ha. subst a.
    apply (removed_unique _ _ _ fence_nonempty) in Hb. subst b.
    by apply trimmedOf_unique.
  - intros ->. eexists _, _.
    split; [apply (removed_replaceAll _ _ fenceJson_nonempty)|].
    split; [apply (removed_replaceAll _ _ fence_nonempty)|].
    apply trimmedOf_trim.
Qed.

(** C3 (as amended): [cleanJSON] returns the fixed text ["{}"] for the
    empty input.  For every other input it first removes every marker
    [```json] and then every marker [```], each with the white space
    that follows it, and trims the result (no marker is left, and the
    fence-free text is the only text that this description allows); it
    then returns the span from the first opening bracket (when no brace
    precedes it) or else from the first opening brace up to where the
    depth of that kind of bracket first returns to zero; when no such
    span closes it returns the whole fence-free text.  The cases leave
    one output only. *)
Theorem cleanJSON_meets_spec (text : jsstring) :
  cleanJSON_spec text (cleanJSON text)
  /\ ~ occursIn fence (stripFences text)
  /\ (forall out, cleanJSON_spec text out -> out = cleanJSON text)
  /\ (forall cleaned, fenceStripped text cleaned <-> cleaned = stripFences text).
Proof.
  split; [apply cleanJSON_cases|]. split; [apply stripFences_fence_free|].
  split; [|apply fenceStripped_stripFences].
  intros out Hout.
  exact (cleanJSON_spec_functional text _ _ Hout (cleanJSON_cases text)).
Qed.

Lemma firstIndex_check c s i :
  s !! i = Some c ->
  forallb (fun j => negb (bool_decide (s !! j = Some c))) (seq 0 i) = true ->
  firstIndex c s i.
Proof.
  intros Hi H. split; [exact Hi|]. intros j Hj.
  rewrite forallb_forall in H. specialize (H j).
  rewrite in_seq in H. specialize (H ltac:(lia)).
  apply negb_true_iff, bool_decide_eq_false in H. exact H.
Qed.

Lemma closesAt_check o c s n :
  (n <? length s)%nat = true ->
  balance o c (take (S n) s) = 0 ->
  forallb (fun m => negb (balance o c (take (S m) s) =? 0)) (seq 0 n) = true ->
  closesAt o c s n.
Proof.
  intros Hn Hz H. split; [by apply Nat.ltb_lt|]. split; [exact Hz|].
  intros m Hm. rewrite forallb_forall in H. specialize (H m).
  rewrite in_seq in H. specialize (H ltac:(lia)).
  by apply negb_true_iff, Z.eqb_neq in H.
Qed.

Ltac keep_units :=
  repeat (apply removed_keep; [by intros rest [=]|]).

Lemma cleanJSON_meets_spec_witness :
  js "[1,[2],3]" = stripFences fencedArray
  /\ js "[1,[2],3]" = cleanJSON fencedArray.
Proof.
  destruct (cleanJSON_meets_spec fencedArray) as (_ & _ & Hout & Hstrip).
  assert (Hs : js "[1,[2],3]" = stripFences fencedArray).
  { apply Hstrip.
    exists (js "  [1,[2],3]" ++ [LF] ++ js "``` "), (js "  [1,[2],3]" ++ [LF]).
    split; [|split].
    - keep_units.
      apply (removed_match fenceJson [LF]
               (js "[1,[2],3]" ++ [LF] ++ js "``` ")
               (js "[1,[2],3]" ++ [LF] ++ js "``` ")).
      + by repeat constructor.
      + intros (c & rest & [= <- _] & Hc). discriminate Hc.
      + keep_units. constructor.
    - keep_units.
      apply (removed_match fence (js " ") [] []).
      + by repeat constructor.
      + intros (c & rest & H & _). discriminate H.
      + constructor.
    - exists (js "  "), [LF]. split; [reflexivity|].
      split; [by repeat constructor|]. split; [by repeat constructor|].
      split.
      + intros (c & rest & [= <- _] & Hc). discriminate Hc.
      + intros (front & c & H & Hc).
        change (js "[1,[2],3]") with (js "[1,[2],3" ++ [RBRACKET]) in H.
        apply app_inj_tail in H as [_ <-]. discriminate Hc. }
  split; [exact Hs|].
  apply Hout. rewrite Hs at 1.
  change (stripFences fencedArray)
    with (take 9 (drop 0 (stripFences fencedArray))).
  apply (clean_array fencedArray 0 8).
  - discriminate.
  - apply firstIndex_check; reflexivity.
  - intros j Hj. lia.
  - apply closesAt_check; reflexivity.
Defined.

Example cleanJSON_array_first : cleanJSON arrayFirst = js "[1,[2],3]".
Proof. reflexivity. Qed.

Example cleanJSON_array_cut_short : cleanJSON arrayCutShort = js "{a}".
Proof. reflexivity. Qed.

Example cleanJSON_fence_only : cleanJSON fence = [].
Proof. reflexivity. Qed.

Lemma absent_Forall c s :
  forallb (fun x => negb (x =? c)%N) s = true -> absent c s.
Proof.
  intros H j Hj. apply list_elem_of_lookup_2 in Hj.
  rewrite forallb_forall in H. apply list_elem_of_In in Hj.
  specialize (H _ Hj). rewrite N.eqb_refl in H. discriminate.
Qed.

(** C3 (as stated) fails: a text without any bracket or brace has no JSON
    structure, and [cleanJSON] returns it as it is, not ["{}"]. *)
Lemma cleanJSON_no_default_counterexample :
  noJsonStructure noJsonHere /\ cleanJSON noJsonHere <> js "{}".
Proof.
  split; [split|].
  - intros fb Hf. exfalso. revert Hf. apply absent_firstIndex.
    apply absent_Forall. vm_compute. reflexivity.
  - intros fc Hf. exfalso. revert Hf. apply absent_firstIndex.
    apply absent_Forall. vm_compute. reflexivity.
  - vm_compute. discriminate.
Qed.

(** C4: the fenced answer with a leading remark is reduced to the object
    inside the fence, and a text with neither bracket nor brace is
    returned unchanged. *)
Theorem cleanJSON_examples :
  cleanJSON sureInput = sureOutput /\ cleanJSON noJsonHere = noJsonHere.
Proof. split; vm_compute; reflexivity. Qed.

(** C10: when the fence-free text has an opening brace with no opening
    bracket before it, and the brace depth never returns to zero,
    [cleanJSON] returns the whole fence-free text. *)
Theorem cleanJSON_unclosed_brace (text : jsstring) (fc : nat) :
  firstIndex LBRACE (stripFences text) fc ->
  (forall j, (j < fc)%nat -> stripFences text !! j <> Some LBRACKET) ->
  neverCloses LBRACE RBRACE (drop fc (stripFences text)) ->
  cleanJSON text = stripFences text.
Proof.
  intros Hfc Hnob Hnever.
  assert (Hne : text <> []).
  { intros ->. destruct Hfc as [H _]. by destruct fc. }
  apply (cleanJSON_spec_functional text); [apply cleanJSON_cases|].
  apply clean_none; [exact Hne| |].
  - intros fb Hfb Hno. exfalso.
    destruct (Nat.lt_trichotomy fb fc) as [H|[H|H]].
    + exact (Hnob fb H (proj1 Hfb)).
    + destruct (firstIndex_distinct _ _ _ _ _ bracket_not_brace Hfb Hfc H).
    + exact (Hno fc H (proj1 Hfc)).
  - intros fc' Hf. by rewrite (firstIndex_unique _ _ _ _ Hf Hfc).
Qed.

Lemma neverCloses_check o c s :
  forallb (fun n => negb (balance o c (take (S n) s) =? 0)) (seq 0 (length s))
  = true ->
  neverCloses o c s.
Proof.
  intros H n Hn. rewrite forallb_forall in H.
  specialize (H n). rewrite in_seq in H. specialize (H ltac:(lia)).
  apply negb_true_iff, Z.eqb_neq in H. exact H.
Qed.

Lemma cleanJSON_unclosed_brace_witness :
  stripFences unclosedInput = unclosedCleaned
  /\ cleanJSON unclosedInput = stripFences unclosedInput.
Proof.
  split; [vm_compute; reflexivity|].
  apply (cleanJSON_unclosed_brace unclosedInput 0).
  - split; [vm_compute; reflexivity|]. intros j Hj. lia.
  - intros j Hj. lia.
  - apply neverCloses_check. vm_compute. reflexivity.
Defined.

(** ** Gemini provider: failures *)

Section ProviderFacts.

Variable JSON_parse : jsstring -> result json.
Variable backend : ChatRequest -> BackendOutcome.

Lemma interviewAttempt_rejected req :
  backend req = Rejected ->
  interviewAttempt JSON_parse backend req = Throw BackendError.
Proof. intros H. unfold interviewAttempt. by rewrite H. Qed.

Lemma interviewAttempt_unparseable req text e :
  backend req = Resolved text ->
  JSON_parse (parsedText text) = Throw e ->
  interviewAttempt JSON_parse backend req = Throw e.
Proof.
  intros H1 H2. unfold interviewAttempt. rewrite H1.
  fold (parsedText text). by rewrite H2.
Qed.

Lemma interviewAttempt_null req text :
  backend req = Resolved text ->
  JSON_parse (parsedText text) = Ok JNull ->
  interviewAttempt JSON_parse backend req = Throw TypeError.
Proof.
  intros H1 H2. unfold interviewAttempt. rewrite H1.
  fold (parsedText text). by rewrite H2.
Qed.

Lemma interviewAttempt_parsed req text parsed :
  backend req = Resolved text ->
  JSON_parse (parsedText text) = Ok parsed ->
  parsed <> JNull ->
  interviewAttempt JSON_parse backend req =
  Ok {| message :=
          orDefault (propertyOf parsed (js "message")) (JStr defaultMessage);
        questionAddressed :=
          nullish (propertyOf parsed (js "questionAddressed")) JNull;
        phaseTransition :=
          nullish (propertyOf parsed (js "phaseTransition")) JNull;
        profileUpdates :=
          orDefault (propertyOf parsed (js "profileUpdates")) (JArr []);
        shouldConclude :=
          orDefault (propertyOf parsed (js "shouldConclude")) (JBool false) |}.
Proof.
  intros H1 H2 Hn. unfold interviewAttempt. rewrite H1.
  fold (parsedText text). rewrite H2.
  destruct parsed; try done.
Qed.

Lemma generate_of_throw history cfg profile prog ctx e :
  interviewAttempt JSON_parse backend
    (chatRequest history cfg profile prog ctx) = Throw e ->
  generateInterviewResponse JSON_parse backend history cfg profile prog ctx
  = Ok defaultInterviewResponse.
Proof. intros H. unfold generateInterviewResponse. by rewrite H. Qed.

Lemma generate_of_ok history cfg profile prog ctx r :
  interviewAttempt JSON_parse backend
    (chatRequest history cfg profile prog ctx) = Ok r ->
  generateInterviewResponse JSON_parse backend history cfg profile prog ctx
  = Ok r.
Proof. intros H. unfold generateInterviewResponse. by rewrite H. Qed.

End ProviderFacts.

(** C5: whatever fails inside the provider's [try] block -- the SDK call
    throws or rejects (unreachable backend, timeout, exhausted quota), the
    cleaned output is not JSON, or it parses to [null] -- the provider
    returns the fixed fallback response, whose message is not empty, and
    it returns normally on every input. *)
Theorem generateInterviewResponse_fallback
    (JSON_parse : jsstring -> result json)
    (backend : ChatRequest -> BackendOutcome)
    (history : list InterviewMessage) (cfg : StudyConfig)
    (profile : option ParticipantProfile) (prog : QuestionProgress)
    (ctx : jsstring) :
  let req := chatRequest history cfg profile prog ctx in
  let response :=
    generateInterviewResponse JSON_parse backend history cfg profile prog ctx in
  (exists r, response = Ok r)
  /\ (backend req = Rejected -> response = Ok defaultInterviewResponse)
  /\ (forall text e,
        backend req = Resolved text ->
        JSON_parse (parsedText text) = Throw e ->
        response = Ok defaultInterviewResponse)
  /\ (forall text,
        backend req = Resolved text ->
        JSON_parse (parsedText text) = Ok JNull ->
        response = Ok defaultInterviewResponse)
  /\ (forall e,
        interviewAttempt JSON_parse backend req = Throw e ->
        response = Ok defaultInterviewResponse)
  /\ defaultInterviewResponse =
     {| message :=
          JStr (js "I appreciate you sharing that. What else comes to mind?");
        questionAddressed := JNull;
        phaseTransition := JNull;
        profileUpdates := JArr [];
        shouldConclude := JBool false |}
  /\ truthy (Some (message defaultInterviewResponse)) = true.
Proof.
  intros req response. repeat split.
  - unfold response, generateInterviewResponse.
    destruct (interviewAttempt _ _ _) as [r|e]; simpl; eauto.
  - intros H. eapply generate_of_throw, interviewAttempt_rejected, H.
  - intros text e H1 H2.
    eapply generate_of_throw, interviewAttempt_unparseable; eauto.
  - intros text H1 H2.
    eapply generate_of_throw, interviewAttempt_null; eauto.
  - intros e H. eapply generate_of_throw, H.
Qed.

Lemma generateInterviewResponse_fallback_witness :
  generateInterviewResponse sampleParse unavailable
    [userSays "hello"] demoConfig None demoProgress []
  = Ok defaultInterviewResponse
  /\ generateInterviewResponse sampleParse (replies "Sorry, I cannot.")
       [userSays "hello"] demoConfig None demoProgress []
     = Ok defaultInterviewResponse
  /\ generateInterviewResponse sampleParse (replies "null")
       [userSays "hello"] demoConfig None demoProgress []
     = Ok defaultInterviewResponse.
Proof.
  split; [|split].
  - pose proof (generateInterviewResponse_fallback sampleParse unavailable
                  [userSays "hello"] demoConfig None demoProgress []) as H.
    cbv zeta in H. destruct H as (_ & H & _). apply H. reflexivity.
  - pose proof (generateInterviewResponse_fallback sampleParse
                  (replies "Sorry, I cannot.")
                  [userSays "hello"] demoConfig None demoProgress []) as H.
    cbv zeta in H. destruct H as (_ & _ & H & _).
    apply (H (Some (js "Sorry, I cannot.")) SyntaxError); reflexivity.
  - pose proof (generateInterviewResponse_fallback sampleParse (replies "null")
                  [userSays "hello"] demoConfig None demoProgress []) as H.
    cbv zeta in H. destruct H as (_ & _ & _ & H & _).
    apply (H (Some (js "null"))); reflexivity.
Defined.

(** ** Gemini provider: per-field defaults *)

Lemma orDefault_truthy a b : truthy (Some b) = true -> truthy (Some (orDefault a b)) = true.
Proof.
  intros Hb. unfold orDefault. destruct a as [v|]; [|exact Hb].
  destruct (truthy (Some v)) eqn:E; [exact E|exact Hb].
Qed.

Lemma orDefault_falsy a b : truthy a = false -> orDefault a b = b.
Proof. intros H. unfold orDefault. destruct a; [by rewrite H|done]. Qed.

Lemma orDefault_kept v b : truthy (Some v) = true -> orDefault (Some v) b = v.
Proof. intros H. unfold orDefault. by rewrite H. Qed.

Lemma nullish_kept v b : v <> JNull -> nullish (Some v) b = v.
Proof. intros H. by destruct v. Qed.

(** C9 (as amended): when the backend call succeeds and the cleaned output
    parses, a parsed [null] gives the fallback response; otherwise
    [message], [profileUpdates] and [shouldConclude] take their default
    when absent or falsy, [questionAddressed] and [phaseTransition]
    become [null] only when absent or [null] (any other value, falsy or
    not, is kept), and the message returned is never empty. *)
Theorem generateInterviewResponse_defaults
    (JSON_parse : jsstring -> result json)
    (backend : ChatRequest -> BackendOutcome)
    (history : list InterviewMessage) (cfg : StudyConfig)
    (profile : option ParticipantProfile) (prog : QuestionProgress)
    (ctx : jsstring) (text : option jsstring) (parsed : json) :
  backend (chatRequest history cfg profile prog ctx) = Resolved text ->
  JSON_parse (parsedText text) = Ok parsed ->
  exists r,
    generateInterviewResponse JSON_parse backend history cfg profile prog ctx
    = Ok r
    /\ (parsed = JNull -> r = defaultInterviewResponse)
    /\ (parsed <> JNull ->
        let prop := propertyOf parsed in
        (truthy (prop (js "message")) = false ->
           message r = JStr defaultMessage)
        /\ (forall v, prop (js "message") = Some v ->
              truthy (Some v) = true -> message r = v)
        /\ (truthy (prop (js "profileUpdates")) = false ->
              profileUpdates r = JArr [])
        /\ (forall v, prop (js "profileUpdates") = Some v ->
              truthy (Some v) = true -> profileUpdates r = v)
        /\ (truthy (prop (js "shouldConclude")) = false ->
              shouldConclude r = JBool false)
        /\ (forall v, prop (js "shouldConclude") = Some v ->
              truthy (Some v) = true -> shouldConclude r = v)
        /\ (prop (js "questionAddressed") = None
            \/ prop (js "questionAddressed") = Some JNull ->
              questionAddressed r = JNull)
        /\ (forall v, prop (js "questionAddressed") = Some v ->
              v <> JNull -> questionAddressed r = v)
        /\ (prop (js "phaseTransition") = None
            \/ prop (js "phaseTransition") = Some JNull ->
              phaseTransition r = JNull)
        /\ (forall v, prop (js "phaseTransition") = Some v ->
              v <> JNull -> phaseTransition r = v))
    /\ truthy (Some (message r)) = true
    /\ message r <> JStr [].
Proof.
  intros Hb Hp.
  assert (Hnonempty : forall r : AIInterviewResponse,
             truthy (Some (message r)) = true -> message r <> JStr []).
  { intros r Ht E. rewrite E in Ht. discriminate. }
  assert (Hcase : parsed = JNull \/ parsed <> JNull)
    by (destruct parsed; (by left) || (by right)).
  destruct Hcase as [->|Hn].
  - exists defaultInterviewResponse. split; [|split; [done|split; [done|]]].
    + eapply generate_of_throw, interviewAttempt_null; eauto.
    + split; [reflexivity|]. by apply Hnonempty.
  - eexists. split.
    { eapply generate_of_ok, interviewAttempt_parsed; eauto. }
    split; [by intros ->|]. split.
    + intros _. cbv zeta. simpl.
      repeat split.
      * apply orDefault_falsy.
      * intros v -> Hv. by apply orDefault_kept.
      * apply orDefault_falsy.
      * intros v -> Hv. by apply orDefault_kept.
      * apply orDefault_falsy.
      * intros v -> Hv. by apply orDefault_kept.
      * by intros [->| ->].
      * intros v -> Hv. by apply nullish_kept.
      * by intros [->| ->].
      * intros v -> Hv. by apply nullish_kept.
    + assert (Ht : truthy (Some (orDefault (propertyOf parsed (js "message"))
                                   (JStr defaultMessage))) = true)
        by (by apply orDefault_truthy).
      split; [exact Ht|]. simpl. intros E. rewrite E in Ht. discriminate.
Qed.

(** C9 (as stated) fails: a [questionAddressed] of [0] is falsy, yet it is
    returned as it is, not replaced by [null]. *)
Lemma falsy_questionAddressed_counterexample :
  sampleParse (parsedText (Some zeroText)) = Ok zeroParsed
  /\ truthy (propertyOf zeroParsed (js "questionAddressed")) = false
  /\ generateInterviewResponse sampleParse repliesZero
       [userSays "hello"] demoConfig None demoProgress []
     = Ok {| message := JStr defaultMessage;
             questionAddressed := JNum (S754_zero false);
             phaseTransition := JNull;
             profileUpdates := JArr [];
             shouldConclude := JBool false |}
  /\ JNum (S754_zero false) <> JNull.
Proof. repeat split; (vm_compute; reflexivity) || discriminate. Qed.

Lemma generateInterviewResponse_defaults_witness :
  exists r,
    generateInterviewResponse sampleParse repliesZero
      [userSays "hello"] demoConfig None demoProgress [] = Ok r
    /\ message r = JStr defaultMessage
    /\ questionAddressed r = JNum (S754_zero false).
Proof.
  destruct (generateInterviewResponse_defaults sampleParse repliesZero
              [userSays "hello"] demoConfig None demoProgress []
              (Some zeroText) zeroParsed)
    as (r & Hr & _ & Hfields & _); [reflexivity|vm_compute; reflexivity|].
  exists r. split; [exact Hr|].
  destruct Hfields as (Hm & _ & _ & _ & _ & _ & _ & Hq & _); [discriminate|].
  split.
  - apply Hm. reflexivity.
  - apply Hq; [reflexivity|discriminate].
Defined.

(** ** Gemini provider: the history window *)

Lemma sliceLast10_length (history : list InterviewMessage) :
  length (sliceLast10 history) = Nat.min 10 (length history).
Proof. unfold sliceLast10. rewrite length_drop. lia. Qed.

Lemma sliceLast10_suffix (history : list InterviewMessage) :
  history = take (length history - 10) history ++ sliceLast10 history.
Proof. unfold sliceLast10. by rewrite take_drop. Qed.

Lemma filter_user_nonempty (l : list InterviewMessage) :
  hasUserMessage l ->
  List.filter (fun m => Role_eqb (role m) RoleUser) l <> [].
Proof.
  intros (m & Hin & Hrole) E.
  assert (H : In m (List.filter (fun m => Role_eqb (role m) RoleUser) l)).
  { apply filter_In. split; [by apply list_elem_of_In|]. by rewrite Hrole. }
  rewrite E in H. destruct H.
Qed.

(** With a user message among the recent ones, what came before them
    plays no part in the choice of the message to send. *)
Lemma lastUserMessage_app (older recent : list InterviewMessage) :
  hasUserMessage recent ->
  lastUserMessage (older ++ recent) = lastUserMessage recent.
Proof.
  intros H. unfold lastUserMessage. rewrite List.filter_app, last_app.
  apply filter_user_nonempty, last_is_Some in H as [m ->]. reflexivity.
Qed.

Lemma lastUserMessage_window (history : list InterviewMessage) :
  hasUserMessage (sliceLast10 history) ->
  lastUserMessage history = lastUserMessage (sliceLast10 history).
Proof.
  intros H. rewrite (sliceLast10_suffix history) at 1.
  by apply lastUserMessage_app.
Qed.

(** C7 (as stated) fails: the message sent is the last user message of
    the whole history, which may be older than the last ten messages. *)
Lemma older_message_sent_counterexample :
  sliceLast10 (staleHistory "first answer")
  = sliceLast10 (staleHistory "another answer")
  /\ sentMessage (chatRequest (staleHistory "first answer")
                    demoConfig None demoProgress [])
     = js "first answer"
  /\ sentMessage (chatRequest (staleHistory "another answer")
                    demoConfig None demoProgress [])
     = js "another answer"
  /\ ~ olderMessagesExcluded.
Proof.
  split; [reflexivity|]. split; [reflexivity|]. split; [reflexivity|].
  intros H.
  specialize (H (staleHistory "first answer") (staleHistory "another answer")
                demoConfig None demoProgress [] eq_refl).
  apply (f_equal sentMessage) in H. vm_compute in H. discriminate.
Qed.

(** C7 (as amended): the chat history passed to the backend is exactly the
    last ten messages (all of them when there are fewer), so no older
    message is part of it; the message sent is the text of the last user
    message of the whole history or the fixed request to continue; and
    when one of the last ten messages is a user message, the whole request
    is determined by the last ten messages. *)
Theorem chatRequest_history_window
    (history : list InterviewMessage) (cfg : StudyConfig)
    (profile : option ParticipantProfile) (prog : QuestionProgress)
    (ctx : jsstring) :
  let req := chatRequest history cfg profile prog ctx in
  chatHistory req = map toChatTurn (sliceLast10 history)
  /\ length (chatHistory req) = Nat.min 10 (length history)
  /\ history = take (length history - 10) history ++ sliceLast10 history
  /\ (sentMessage req = js "Please continue the interview."
      \/ exists m, lastUserMessage history = Some m
                   /\ m ∈ history /\ role m = RoleUser
                   /\ sentMessage req = content m)
  /\ (hasUserMessage (sliceLast10 history) ->
      forall other : list InterviewMessage,
        sliceLast10 other = sliceLast10 history ->
        chatRequest other cfg profile prog ctx = req).
Proof.
  cbv zeta. split; [reflexivity|]. split.
  { simpl. rewrite length_map. apply sliceLast10_length. }
  split; [apply sliceLast10_suffix|]. split.
  - simpl. destruct (lastUserMessage history) as [m|] eqn:E; [|by left].
    destruct (content m) as [|c rest] eqn:Ec; [by left|].
    right. exists m. split; [reflexivity|].
    unfold lastUserMessage in E. apply last_Some_elem_of in E.
    apply list_elem_of_In, filter_In in E as [Hin Hrole].
    split; [by apply list_elem_of_In|]. split; [|by rewrite Ec].
    by destruct (role m).
  - intros Huser other Hsame. unfold chatRequest.
    rewrite (lastUserMessage_window history Huser).
    rewrite (lastUserMessage_window other) by (by rewrite Hsame).
    by rewrite Hsame.
Qed.

Lemma chatRequest_history_window_witness :
  chatRequest (recentHistory "another answer") demoConfig None demoProgress []
  = chatRequest (recentHistory "first answer") demoConfig None demoProgress [].
Proof.
  pose proof (chatRequest_history_window (recentHistory "first answer")
                demoConfig None demoProgress []) as H.
  cbv zeta in H. destruct H as (_ & _ & _ & _ & H).
  apply H; [|reflexivity].
  exists (userSays "done"). split; [|reflexivity].
  apply list_elem_of_In. vm_compute. tauto.
Defined.

(** ** Prompt assembler: the pending-fields warning *)

Lemma isUnresolved_spec profile f :
  isUnresolved profile f = true <->
  (findFieldValue profile (pf_id f) = None
   \/ exists v, findFieldValue profile (pf_id f) = Some v
                /\ (status v = Pending \/ status v = Vague)).
Proof.
  unfold isUnresolved, unresolvedValue.
  destruct (findFieldValue profile (pf_id f)) as [v|].
  - split.
    + intros H. right. exists v. split; [reflexivity|].
      destruct (status v); (by left) || (by right) || discriminate.
    + intros [H|(v' & Hv & Hs)]; [discriminate|]. inversion Hv; subst v'.
      by destruct Hs as [-> | ->].
  - split; [by left|done].
Qed.

Lemma pendingRequired_In cfg profile f :
  In f (pendingRequired cfg profile) <->
  In f (profileSchema cfg) /\ required f = true
  /\ isUnresolved profile f = true.
Proof. unfold pendingRequired. rewrite !filter_In. tauto. Qed.

Lemma unresolvedRequired_length cfg profile :
  unresolvedRequired cfg profile <->
  (0 < length (pendingRequired cfg profile))%nat.
Proof.
  split.
  - intros (f & Hin & Hreq & Hun).
    assert (H : In f (pendingRequired cfg profile)).
    { apply pendingRequired_In. split; [by apply list_elem_of_In|].
      split; [exact Hreq|]. by apply isUnresolved_spec. }
    destruct (pendingRequired cfg profile); [destruct H|simpl; lia].
  - intros H. destruct (pendingRequired cfg profile) as [|f l] eqn:E;
      [simpl in H; lia|].
    assert (Hin : In f (pendingRequired cfg profile)) by (rewrite E; by left).
    apply pendingRequired_In in Hin as (Hin & Hreq & Hun).
    exists f. split; [by apply list_elem_of_In|]. split; [exact Hreq|].
    by apply isUnresolved_spec.
Qed.

Lemma pendingWarningText_nonempty n : pendingWarningText n <> [].
Proof. discriminate. Qed.

Lemma join_occurs sep (before : list jsstring) x after :
  occursIn x (join sep (before ++ x :: after)).
Proof.
  induction before as [|p before IH].
  - destruct after as [|q after].
    + exists [], []. simpl. by rewrite app_nil_r.
    + exists [], (sep ++ join sep (q :: after)). reflexivity.
  - destruct IH as (b & a & E).
    destruct (before ++ x :: after) as [|q rest] eqn:El.
    + by destruct before.
    + change (join sep ((p :: before) ++ x :: after))
        with (join sep (p :: before ++ x :: after)).
      rewrite El.
      change (join sep (p :: q :: rest)) with (p ++ sep ++ join sep (q :: rest)).
      rewrite E. exists (p ++ sep ++ b), a. by rewrite <- !app_assoc.
Qed.

(** *** Texts without the warning sign *)

Lemma plain_spec s : plain s = true <-> SIGN ∉ s.
Proof.
  unfold plain. rewrite forallb_forall. split.
  - intros H Hin. apply list_elem_of_In in Hin. specialize (H _ Hin).
    by rewrite N.eqb_refl in H.
  - intros H c Hc. apply negb_true_iff, N.eqb_neq. intros ->.
    apply H. by apply list_elem_of_In.
Qed.

Lemma plain_app a b : plain (a ++ b) = plain a && plain b.
Proof. unfold plain. apply forallb_app. Qed.

Lemma plain_js s : plain (js s) = true.
Proof.
  unfold plain, js. apply forallb_forall. intros c Hc.
  apply in_map_iff in Hc as (a & <- & _).
  pose proof (N_ascii_bounded a). apply negb_true_iff, N.eqb_neq.
  unfold SIGN. lia.
Qed.

Lemma plain_join sep ls :
  plain sep = true -> forallb plain ls = true -> plain (join sep ls) = true.
Proof.
  intros Hsep. induction ls as [|p ls IH]; [done|].
  intros H. apply andb_prop in H as [Hp Hls]. destruct ls as [|q ls].
  - exact Hp.
  - change (join sep (p :: q :: ls)) with (p ++ sep ++ join sep (q :: ls)).
    rewrite !plain_app, Hp, Hsep. by rewrite IH.
Qed.

Lemma plain_lines ls : forallb plain ls = true -> plain (lines ls) = true.
Proof. by apply plain_join. Qed.

Lemma forallb_map_plain {A} (f : A -> jsstring) l :
  (forall x, In x l -> plain (f x) = true) -> forallb plain (map f l) = true.
Proof.
  intros H. apply forallb_forall. intros s Hs.
  apply in_map_iff in Hs as (x & <- & Hx). by apply H.
Qed.

Ltac plain_parts :=
  repeat (rewrite plain_app; apply andb_true_intro; split);
  try apply plain_js; try reflexivity; try assumption.

Lemma plain_showNat n : plain (showNat n) = true.
Proof. apply plain_js. Qed.

Lemma plain_getAIBehaviorInstruction b :
  plain (getAIBehaviorInstruction b) = true.
Proof. by destruct b. Qed.

Lemma plain_getToneInstruction t : plain (getToneInstruction t) = true.
Proof. by destruct t as [[]|]. Qed.

Lemma plain_languageInstruction cfg : plain (languageInstruction cfg) = true.
Proof.
  unfold languageInstruction. destruct (language cfg) as [l|]; [|done].
  by destruct (jsstring_eqb l (js "jp")).
Qed.

Lemma plain_phaseName p : plain (phaseName p) = true.
Proof. by destruct p. Qed.

Lemma plain_statusName s : plain (statusName s) = true.
Proof. by destruct s. Qed.

Lemma indexFrom_question i qs q :
  In q (indexFrom i qs) -> In (question q) qs.
Proof.
  revert i. induction qs as [|x qs IH]; intros i; [done|]. simpl.
  intros [<-|H]; [by left|right; by apply (IH (i + 1))].
Qed.

Lemma plain_remainingBlock cfg prog :
  forallb plain (coreQuestions cfg) = true ->
  plain (remainingBlock cfg prog) = true.
Proof.
  intros Hq. unfold remainingBlock, remainingBlockOf.
  destruct (0 <? length (remainingQuestions cfg prog))%nat; [|apply plain_js].
  plain_parts. apply plain_join; [done|]. apply forallb_map_plain.
  intros q Hin. unfold questionLine. plain_parts.
  rewrite forallb_forall in Hq. apply Hq.
  apply list_elem_of_In, elem_of_take in Hin as (k & Hin & _).
  apply list_elem_of_lookup_2, list_elem_of_In in Hin.
  unfold remainingQuestions in Hin. apply List.filter_In in Hin as [Hin _].
  by apply indexFrom_question in Hin.
Qed.

Lemma find_In {A} (p : A -> bool) l x : find p l = Some x -> In x l.
Proof.
  induction l as [|y l IH]; [done|]. simpl.
  destruct (p y); [intros [= ->]; by left|right; by apply IH].
Qed.

Lemma plain_formatProfileFields schema profile :
  forallb (fun f => plain (pf_id f) && plain (extractionHint f)) schema = true ->
  match profile with
  | Some p => forallb (fun v => plain (default [] (value v))) (fields p) = true
  | None => True
  end ->
  plain (formatProfileFields schema profile) = true.
Proof.
  intros Hschema Hvalues. unfold formatProfileFields.
  apply plain_join; [done|]. apply forallb_map_plain. intros f Hf.
  rewrite forallb_forall in Hschema. specialize (Hschema f Hf).
  apply andb_prop in Hschema as [Hid Hhint].
  unfold formatProfileField, formatProfileFieldWith, quoted.
  assert (Hshow : plain (showNullable
                    (findFieldValue profile (pf_id f) ≫= value)) = true).
  { destruct (findFieldValue profile (pf_id f)) as [v|] eqn:Hfind;
      [|apply plain_js].
    destruct profile as [p|]; [|discriminate Hfind]. simpl in Hfind.
    apply find_In in Hfind. rewrite forallb_forall in Hvalues.
    specialize (Hvalues v Hfind). simpl.
    destruct (value v); [exact Hvalues|apply plain_js]. }
  plain_parts.
  - by destruct (required f).
  - destruct (findFieldValue profile (pf_id f)) as [v|]; [|apply plain_js].
    destruct (status v); try apply plain_js. plain_parts.
Qed.

(** Apart from the slot of the warning, the template is free of the
    warning sign when its inputs are. *)
Lemma prompt_plain cfg profile prog ctx :
  plainInputs cfg profile ctx = true ->
  forallb plain (promptHead cfg profile prog) = true
  /\ forallb plain (promptTail profile ctx) = true.
Proof.
  unfold plainInputs. intros H.
  apply andb_prop in H as [H Hctx]. apply andb_prop in H as [H Hprofile].
  apply andb_prop in H as [H Hschema]. apply andb_prop in H as [H Hqs].
  apply andb_prop in H as [H Htopics]. apply andb_prop in H as [Hrq Hdesc].
  assert (Hraw : plain (match profile with
                        | Some p => rawContext p
                        | None => []
                        end) = true).
  { destruct profile as [p|]; [|done].
    apply andb_prop in Hprofile as [Hp _]. by apply andb_prop in Hp as [_ ?]. }
  assert (Hvalues : match profile with
                    | Some p =>
                        forallb (fun v => plain (default [] (value v)))
                          (fields p) = true
                    | None => True
                    end).
  { destruct profile as [p|]; [|done]. by apply andb_prop in Hprofile as [_ ?]. }
  split.
  - unfold promptHead, promptHeadWith. apply forallb_forall.
    apply List.Forall_forall.
    repeat first [apply List.Forall_nil | apply List.Forall_cons];
      plain_parts;
      try apply plain_showNat;
      try apply plain_getAIBehaviorInstruction;
      try apply plain_getToneInstruction;
      try apply plain_languageInstruction;
      try apply plain_phaseName.
    + clear -Hprofile. destruct profile as [p|]; [|reflexivity].
      apply andb_prop in Hprofile as [Hp _]. apply andb_prop in Hp as [Hn _].
      cbn [mbind option_bind].
      destruct (nickname p) as [[|c n]|]; try reflexivity.
      rewrite plain_app, plain_js. exact Hn.
    + by apply plain_join.
    + by apply plain_remainingBlock.
    + by apply plain_formatProfileFields.
  - unfold promptTail, quoted. apply forallb_forall.
    apply List.Forall_forall.
    repeat first [apply List.Forall_nil | apply List.Forall_cons];
      plain_parts.
    + unfold orElse. destruct profile as [p|]; [|apply plain_js].
      destruct (rawContext p); [apply plain_js|exact Hraw].
    + destruct ctx as [|c ctx]; [reflexivity|]. plain_parts.
Qed.

Lemma occursIn_elem x block text :
  x ∈ block -> occursIn block text -> x ∈ text.
Proof.
  intros Hx (before & after & ->). rewrite !elem_of_app. right. by left.
Qed.

Lemma occursInb_sound block text :
  occursInb block text = true -> occursIn block text.
Proof.
  induction text as [|c text IH]; simpl.
  - destruct (stripPrefix block []) as [rest|] eqn:E; [|discriminate].
    intros _. apply stripPrefix_Some in E. exists [], rest. exact E.
  - destruct (stripPrefix block (c :: text)) as [rest|] eqn:E.
    + intros _. apply stripPrefix_Some in E. exists [], rest. exact E.
    + intros H. destruct (IH H) as (before & after & ->).
      by exists (c :: before), after.
Qed.

(** The slot of the warning, and the warning in the prompt. *)
Lemma pendingWarning_slot cfg profile prog ctx :
  let n := length (pendingRequired cfg profile) in
  (unresolvedRequired cfg profile <->
   pendingWarning cfg profile = pendingWarningText n /\ (0 < n)%nat)
  /\ (~ unresolvedRequired cfg profile <-> pendingWarning cfg profile = [])
  /\ (unresolvedRequired cfg profile ->
      occursIn (pendingWarningText n)
        (buildInterviewSystemPrompt cfg profile prog ctx)).
Proof.
  cbv zeta.
  pose proof (unresolvedRequired_length cfg profile) as Hlen.
  unfold pendingWarning.
  destruct (0 <? length (pendingRequired cfg profile))%nat eqn:E.
  - apply Nat.ltb_lt in E. split; [|split].
    + split; [by intros _|intros _; by apply Hlen].
    + split; [intros H; destruct H; by apply Hlen|].
      intros H. by destruct (pendingWarningText_nonempty _ H).
    + intros _. unfold buildInterviewSystemPrompt, lines, pendingWarning.
      replace (0 <? length (pendingRequired cfg profile))%nat with true
        by (symmetry; by apply Nat.ltb_lt).
      apply join_occurs.
  - apply Nat.ltb_ge in E. split; [|split].
    + split; [intros H; apply Hlen in H; lia|intros [_ H]; lia].
    + split; [done|]. intros _ H. apply Hlen in H. lia.
    + intros H. apply Hlen in H. lia.
Qed.

Lemma resolved_prompt_plain cfg profile prog ctx :
  plainInputs cfg profile ctx = true ->
  ~ unresolvedRequired cfg profile ->
  plain (buildInterviewSystemPrompt cfg profile prog ctx) = true.
Proof.
  intros Hplain Hno.
  destruct (prompt_plain cfg profile prog ctx Hplain) as [Hhead Htail].
  destruct (pendingWarning_slot cfg profile prog ctx) as (_ & Hslot & _).
  unfold buildInterviewSystemPrompt. rewrite (proj1 Hslot Hno).
  apply plain_lines. rewrite !forallb_app, Hhead, Htail. reflexivity.
Qed.

Lemma sign_in_prompt cfg profile prog ctx :
  plainInputs cfg profile ctx = true ->
  SIGN ∈ buildInterviewSystemPrompt cfg profile prog ctx ->
  unresolvedRequired cfg profile.
Proof.
  intros Hplain Hin. apply unresolvedRequired_length.
  destruct (length (pendingRequired cfg profile)) as [|k] eqn:E; [|lia].
  exfalso. revert Hin. apply plain_spec.
  apply resolved_prompt_plain; [exact Hplain|].
  intros H. apply unresolvedRequired_length in H. lia.
Qed.

(** C6 (as amended): the template emits, in the slot after the listing
    of the profile fields, a line break, the warning sign and the text
    [N required fields still pending. Stay in background phase until
    collected or explicitly refused.], with [N] the number of required
    fields that have no recorded value or are pending or vague, exactly
    when there is such a field, and nothing when there is none; when it
    is emitted the prompt contains it.  When none of the free texts
    spliced into the prompt holds the warning sign, the prompt contains
    the warning block, for any count, only when there is such a field,
    and it contains the warning sign exactly then. *)
Theorem buildInterviewSystemPrompt_pending_warning
    (cfg : StudyConfig) (profile : option ParticipantProfile)
    (prog : QuestionProgress) (ctx : jsstring) :
  let prompt := buildInterviewSystemPrompt cfg profile prog ctx in
  let slot := pendingWarning cfg profile in
  let n := length (pendingRequired cfg profile) in
  let block (m : nat) :=
    [LF] ++ [9888%N; 65039%N] ++ js " " ++ showNat m
      ++ js " required fields still pending. Stay in background phase until collected or explicitly refused." in
  prompt = lines (promptHead cfg profile prog ++ [slot] ++ promptTail profile ctx)
  /\ (unresolvedRequired cfg profile <-> slot = block n /\ (0 < n)%nat)
  /\ (~ unresolvedRequired cfg profile <-> slot = [])
  /\ (unresolvedRequired cfg profile -> occursIn (block n) prompt)
  /\ (plainInputs cfg profile ctx = true ->
      (forall m, occursIn (block m) prompt -> unresolvedRequired cfg profile)
      /\ (SIGN ∈ prompt <-> unresolvedRequired cfg profile)).
Proof.
  cbv zeta. split; [reflexivity|].
  destruct (pendingWarning_slot cfg profile prog ctx) as (Hslot & Hnone & Hin).
  split; [exact Hslot|]. split; [exact Hnone|]. split; [exact Hin|].
  intros Hplain.
  assert (Hsign : forall m, SIGN ∈ pendingWarningText m).
  { intros m. unfold pendingWarningText, WARNING_SIGN, SIGN.
    rewrite !elem_of_app. right. left. apply elem_of_cons. by left. }
  split.
  - intros m Hm. apply (sign_in_prompt cfg profile prog ctx Hplain).
    exact (occursIn_elem _ _ _ (Hsign m) Hm).
  - split; [by apply sign_in_prompt|]. intros Hun.
    exact (occursIn_elem _ _ _ (Hsign _) (Hin Hun)).
Qed.

Lemma buildInterviewSystemPrompt_pending_warning_witness :
  occursIn
    ([LF] ++ [9888%N; 65039%N]
       ++ js " 1 required fields still pending. Stay in background phase until collected or explicitly refused.")
    (buildInterviewSystemPrompt demoConfig None demoProgress [])
  /\ pendingWarning demoConfig (Some extractedProfile) = []
  /\ (SIGN ∉ buildInterviewSystemPrompt demoConfig (Some extractedProfile)
               demoProgress []).
Proof.
  assert (Hresolved : ~ unresolvedRequired demoConfig (Some extractedProfile)).
  { intros (f & Hin & _ & Hun).
    apply list_elem_of_In in Hin. destruct Hin as [<-|[]].
    destruct Hun as [Hun|(v & Hv & Hs)]; [discriminate|].
    vm_compute in Hv. inversion Hv; subst v. simpl in Hs.
    destruct Hs; discriminate. }
  split; [|split].
  - pose proof (buildInterviewSystemPrompt_pending_warning
                  demoConfig None demoProgress []) as H.
    cbv zeta in H. destruct H as (_ & _ & _ & H & _). apply H.
    exists demoField. split; [by left|]. split; [reflexivity|by left].
  - pose proof (buildInterviewSystemPrompt_pending_warning
                  demoConfig (Some extractedProfile) demoProgress []) as H.
    cbv zeta in H. destruct H as (_ & _ & H & _). by apply H.
  - pose proof (buildInterviewSystemPrompt_pending_warning
                  demoConfig (Some extractedProfile) demoProgress []) as H.
    cbv zeta in H. destruct H as (_ & _ & _ & _ & H).
    destruct (H eq_refl) as [_ Hiff]. intros Hin. apply Hresolved.
    by apply Hiff.
Defined.

(** C6 (as stated) fails: a study without profile fields, whose research
    question quotes the warning, has no unresolved required field, and
    yet its prompt contains the warning block. *)
Lemma warning_quoted_counterexample :
  ~ unresolvedRequired echoConfig None
  /\ occursIn
       ([LF] ++ [9888%N; 65039%N]
          ++ js " 1 required fields still pending. Stay in background phase until collected or explicitly refused.")
       (buildInterviewSystemPrompt echoConfig None demoProgress []).
Proof.
  split.
  - intros (f & Hin & _). by apply elem_of_nil in Hin.
  - apply occursInb_sound. vm_compute. reflexivity.
Qed.

(** ** Question-progress model *)

Lemma phaseOrder_inj a b : phaseOrder a = phaseOrder b -> a = b.
Proof. by destruct a, b. Qed.

Lemma advancePhase_order p requested :
  (phaseOrder (currentPhase p)
   <= phaseOrder (currentPhase (advancePhase p requested)))%nat.
Proof.
  unfold advancePhase.
  destruct (phaseOrder (currentPhase p) <? phaseOrder requested)%nat eqn:E;
    simpl; [apply Nat.ltb_lt in E|]; lia.
Qed.

Lemma advancePhase_sequence_order (requests : list InterviewPhase) :
  forall p,
  (phaseOrder (currentPhase p)
   <= phaseOrder (currentPhase (foldl advancePhase p requests)))%nat.
Proof.
  induction requests as [|r requests IH]; intros p; simpl; [lia|].
  etransitivity; [apply (advancePhase_order p r)|apply IH].
Qed.

(** C1: [advancePhase] changes the progress only when the requested phase
    is strictly later than the current one in the order background,
    core-questions, exploration, feedback, wrap-up, and then only the
    phase; an earlier or equal request leaves the progress as it is; over
    any sequence of requests the phase never moves backwards. *)
Theorem advancePhase_forward_only (p : QuestionProgress)
    (requested : InterviewPhase) :
  (advancePhase p requested <> p ->
     (phaseOrder (currentPhase p) < phaseOrder requested)%nat
     /\ advancePhase p requested = withPhase p requested)
  /\ ((phaseOrder requested <= phaseOrder (currentPhase p))%nat ->
        advancePhase p requested = p)
  /\ (forall requests : list InterviewPhase,
        (phaseOrder (currentPhase p)
         <= phaseOrder (currentPhase (foldl advancePhase p requests)))%nat)
  /\ map phaseOrder [Background; CoreQuestions; Exploration; Feedback; WrapUp]
     = [0; 1; 2; 3; 4]%nat.
Proof.
  split; [|split; [|split]].
  - unfold advancePhase.
    destruct (phaseOrder (currentPhase p) <? phaseOrder requested)%nat eqn:E.
    + apply Nat.ltb_lt in E. by intros _.
    + by intros H.
  - intros H. unfold advancePhase.
    replace (phaseOrder (currentPhase p) <? phaseOrder requested)%nat
      with false by (symmetry; apply Nat.ltb_ge; lia).
    reflexivity.
  - intros requests. apply advancePhase_sequence_order.
  - reflexivity.
Qed.

Lemma advancePhase_forward_only_witness :
  advancePhase feedbackProgress CoreQuestions = feedbackProgress
  /\ advancePhase feedbackProgress WrapUp = withPhase feedbackProgress WrapUp.
Proof.
  split.
  - apply (advancePhase_forward_only feedbackProgress CoreQuestions).
    simpl. lia.
  - apply (advancePhase_forward_only feedbackProgress WrapUp).
    vm_compute. discriminate.
Defined.

(** ** Turn orchestrator *)

Lemma markAddressed_state p i :
  currentPhase (markAddressed p i) = currentPhase p
  /\ isComplete (markAddressed p i) = isComplete p.
Proof. unfold markAddressed. by destruct (_ && _). Qed.

Lemma advancePhase_isComplete p requested :
  isComplete (advancePhase p requested) = isComplete p.
Proof. unfold advancePhase. by destruct (_ <? _)%nat. Qed.

Lemma Phase_eqb_eq a b : Phase_eqb a b = true <-> a = b.
Proof.
  unfold Phase_eqb. rewrite Nat.eqb_eq.
  split; [apply phaseOrder_inj|by intros ->].
Qed.

Lemma advancePhase_WrapUp p requested :
  currentPhase p = WrapUp -> currentPhase (advancePhase p requested) = WrapUp.
Proof.
  intros H. pose proof (advancePhase_order p requested) as Hle.
  rewrite H in Hle. simpl in Hle.
  apply phaseOrder_inj. simpl.
  destruct (currentPhase (advancePhase p requested)); simpl in *; lia.
Qed.

(** What one turn does to the phase and to the completion flag. *)
Lemma applyTurn_outcome cfg s r res :
  applyTurn cfg s r = Some res ->
  isComplete (s_progress s) = false
  /\ t_concluded res
     = r_shouldConclude r && Phase_eqb (currentPhase (s_progress s)) WrapUp
  /\ isComplete (s_progress (t_session res)) = t_concluded res
  /\ (currentPhase (s_progress s) = WrapUp ->
      currentPhase (s_progress (t_session res)) = WrapUp).
Proof.
  unfold applyTurn. destruct (isComplete (s_progress s)) eqn:Hc; [discriminate|].
  intros H. inversion H; subst res; clear H. simpl.
  split; [reflexivity|]. split; [reflexivity|]. split; [reflexivity|].
  intros Hw.
  assert (H1 : currentPhase
                 (match r_questionAddressed r with
                  | Some i => markAddressed (s_progress s) i
                  | None => s_progress s
                  end) = WrapUp).
  { destruct (r_questionAddressed r); [|exact Hw].
    by rewrite (proj1 (markAddressed_state _ _)). }
  destruct (r_phaseTransition r); [|exact H1].
  destruct (_ && _); [exact H1|]. by apply advancePhase_WrapUp.
Qed.

(** A session is complete only in the wrap-up phase. *)
Lemma reachable_complete_WrapUp cfg s :
  reachable cfg s ->
  isComplete (s_progress s) = true -> currentPhase (s_progress s) = WrapUp.
Proof.
  induction 1 as [id|s r res Hs IH Hturn]; [discriminate|].
  apply applyTurn_outcome in Hturn as (_ & Hconc & Hcompl & Hkeep).
  rewrite Hcompl, Hconc. intros H. apply andb_true_iff in H as [_ H].
  apply Hkeep. by apply Phase_eqb_eq.
Qed.

(** C2: in every reachable session, a turn concludes only when the
    response asks for it and the current phase is wrap-up; when the
    current phase is not wrap-up, a response with [shouldConclude = true]
    is treated as false and [isComplete] stays false. *)
Theorem shouldConclude_only_in_WrapUp (cfg : StudyConfig) (s : Session)
    (r : TurnResponse) (res : TurnResult) :
  reachable cfg s ->
  applyTurn cfg s r = Some res ->
  (t_concluded res = true ->
     r_shouldConclude r = true /\ currentPhase (s_progress s) = WrapUp)
  /\ (currentPhase (s_progress s) <> WrapUp ->
        t_concluded res = false
        /\ isComplete (s_progress s) = false
        /\ isComplete (s_progress (t_session res)) = false)
  /\ (isComplete (s_progress (t_session res)) = true ->
        currentPhase (s_progress (t_session res)) = WrapUp).
Proof.
  intros Hreach Hturn.
  pose proof (reachable_turn cfg s r res Hreach Hturn) as Hreach'.
  apply applyTurn_outcome in Hturn as (Hopen & Hconc & Hcompl & Hkeep).
  split; [|split].
  - rewrite Hconc. intros H. apply andb_true_iff in H as [H1 H2].
    split; [exact H1|]. by apply Phase_eqb_eq.
  - intros Hphase.
    assert (Hc : t_concluded res = false).
    { rewrite Hconc. apply andb_false_iff. right.
      destruct (Phase_eqb _ _) eqn:E; [|reflexivity].
      apply Phase_eqb_eq in E. contradiction. }
    split; [exact Hc|]. split; [exact Hopen|]. by rewrite Hcompl.
  - by apply reachable_complete_WrapUp with (cfg := cfg).
Qed.

Lemma shouldConclude_only_in_WrapUp_witness :
  exists res,
    applyTurn demoConfig (initialSession demoConfig (js "p1")) hastyResponse
    = Some res
    /\ t_concluded res = false
    /\ isComplete (s_progress (t_session res)) = false.
Proof.
  eexists. split; [reflexivity|].
  pose proof (shouldConclude_only_in_WrapUp demoConfig
                (initialSession demoConfig (js "p1")) hastyResponse _
                (reachable_init demoConfig (js "p1")) eq_refl) as H.
  destruct H as (_ & H & _).
  destruct H as (H1 & _ & H2); [discriminate|]. by split.
Defined.
(** ** The prompt assembler over a store of arrays *)

Lemma R_bind_run {A B} (m : R A) (k : A -> R B) h a :
  m h = Some a -> (m ≫= k) h = k a h.
Proof. intros H. unfold mbind, R_bind. by rewrite H. Qed.

Lemma M_bind_run {A B} (m : M A) (k : A -> M B) h a h' :
  m h = Some (a, h') -> (m ≫= k) h = k a h'.
Proof. intros H. unfold mbind, M_bind. by rewrite H. Qed.

Lemma liftR_run {A} (r : R A) h a : r h = Some a -> liftR r h = Some (a, h).
Proof. intros H. unfold liftR. by rewrite H. Qed.

Lemma mapiR_pure {A B} (f : A -> Z -> R B) (g : A -> B) h (l : list A) :
  forall i,
  (forall x j, In x l -> f x j h = Some (g x)) ->
  mapiR f l i h = Some (map g l).
Proof.
  induction l as [|x l IH]; intros i Hf; [reflexivity|].
  cbn [mapiR map].
  rewrite (R_bind_run _ _ h (g x)) by (apply Hf; by left).
  rewrite (R_bind_run _ _ h (map g l)); [reflexivity|].
  apply IH. intros y j Hy. apply Hf. by right.
Qed.

Lemma mapiR_indexed h (qs : list jsstring) : forall i,
  mapiR (fun v i => q ← asStr v;
                    mret (VQuestion {| index := i; question := q |}))
    (map VStr qs) i h
  = Some (map VQuestion (indexFrom i qs)).
Proof.
  induction qs as [|q qs IH]; intros i; [reflexivity|].
  cbn [mapiR map indexFrom].
  rewrite (R_bind_run _ _ h (VQuestion {| index := i; question := q |}))
    by reflexivity.
  by rewrite (R_bind_run _ _ h _ (IH (i + 1))).
Qed.

Lemma filterR_pure {A} (p : A -> R bool) (q : A -> bool) h (l : list A) :
  (forall x, In x l -> p x h = Some (q x)) ->
  filterR p l h = Some (List.filter q l).
Proof.
  induction l as [|x l IH]; intros Hp; [reflexivity|].
  cbn [filterR List.filter].
  rewrite (R_bind_run _ _ h (q x)) by (apply Hp; by left).
  rewrite (R_bind_run _ _ h (List.filter q l)).
  - by destruct (q x).
  - apply IH. intros y Hy. apply Hp. by right.
Qed.

Lemma findR_pure {A} (p : A -> R bool) (q : A -> bool) h (l : list A) :
  (forall x, In x l -> p x h = Some (q x)) ->
  findR p l h = Some (find q l).
Proof.
  induction l as [|x l IH]; intros Hp; [reflexivity|].
  cbn [findR find].
  rewrite (R_bind_run _ _ h (q x)) by (apply Hp; by left).
  destruct (q x); [reflexivity|].
  apply IH. intros y Hy. apply Hp. by right.
Qed.

Lemma arrMap_run f l h a b :
  h !! l = Some a -> mapiR f a 0 h = Some b ->
  arrMap f l h = Some (length h, h ++ [b]).
Proof.
  intros Ha Hb. unfold arrMap.
  rewrite (M_bind_run _ _ h a h) by (by apply liftR_run).
  by rewrite (M_bind_run _ _ h b h) by (by apply liftR_run).
Qed.

Lemma arrFilter_run p l h a b :
  h !! l = Some a -> filterR p a h = Some b ->
  arrFilter p l h = Some (length h, h ++ [b]).
Proof.
  intros Ha Hb. unfold arrFilter.
  rewrite (M_bind_run _ _ h a h) by (by apply liftR_run).
  by rewrite (M_bind_run _ _ h b h) by (by apply liftR_run).
Qed.

Lemma arrSlice0_run n l h a :
  h !! l = Some a -> arrSlice0 n l h = Some (length h, h ++ [take n a]).
Proof.
  intros Ha. unfold arrSlice0.
  by rewrite (M_bind_run _ _ h a h) by (by apply liftR_run).
Qed.

Lemma arrJoin_run sep l h (strs : list jsstring) :
  h !! l = Some (map VStr strs) -> arrJoin sep l h = Some (join sep strs).
Proof.
  intros Ha. unfold arrJoin. rewrite (R_bind_run _ _ h _ Ha).
  rewrite (R_bind_run _ _ h strs); [reflexivity|].
  rewrite (mapiR_pure _ (fun v => match v with VStr s => s | _ => [] end)).
  - f_equal. rewrite map_map. apply map_id.
  - intros x j Hx. apply in_map_iff in Hx as (s & <- & _). reflexivity.
Qed.

Lemma arrLength_run l h a : h !! l = Some a -> arrLength l h = Some (length a).
Proof. intros Ha. unfold arrLength. by rewrite (R_bind_run _ _ h _ Ha). Qed.

Lemma arrIncludes_run l h (ns : list Z) n :
  h !! l = Some (map VNum ns) -> arrIncludes l n h = Some (includes ns n).
Proof.
  intros Ha. unfold arrIncludes. rewrite (R_bind_run _ _ h _ Ha).
  unfold mret, R_ret, includes. f_equal. clear Ha.
  induction ns as [|m ns IH]; [reflexivity|]. simpl. by rewrite IH.
Qed.

Lemma lookup_new (h : store) a : (h ++ [a]) !! length h = Some a.
Proof. rewrite lookup_app_r by lia. by rewrite Nat.sub_diag. Qed.

Lemma lookup_old (h k : store) l a : h !! l = Some a -> (h ++ k) !! l = Some a.
Proof. intros H. by apply lookup_app_l_Some. Qed.

Lemma holdsInputs_grow h k at_ cfg profile prog :
  holdsInputs h at_ cfg profile prog ->
  holdsInputs (h ++ k) at_ cfg profile prog.
Proof.
  intros (H1 & H2 & H3 & H4 & H5).
  repeat split; try (by apply lookup_old).
  intros p Hp. apply lookup_old. by apply H4.
Qed.

Lemma filter_map_comm {A B} (F : A -> B) (q : A -> bool) (q' : B -> bool) l :
  (forall x, In x l -> q' (F x) = q x) ->
  List.filter q' (map F l) = map F (List.filter q l).
Proof.
  induction l as [|x l IH]; intros H; [reflexivity|]. simpl.
  rewrite (H x) by (by left). rewrite IH by (intros y Hy; apply H; by right).
  by destruct (q x).
Qed.

Lemma filterR_map {A} (F : A -> val) (unF : val -> option A)
    (p : val -> R bool) (q : A -> bool) h (l : list A) :
  (forall x, unF (F x) = Some x) ->
  (forall x, In x l -> p (F x) h = Some (q x)) ->
  filterR p (map F l) h = Some (map F (List.filter q l)).
Proof.
  intros HF Hp.
  rewrite (filterR_pure p (decide_with F q false unF)).
  - f_equal. apply filter_map_comm. intros x _.
    unfold decide_with. by rewrite HF.
  - intros v Hv. apply in_map_iff in Hv as (x & <- & Hx).
    unfold decide_with. rewrite HF. by apply Hp.
Qed.

Lemma find_map_comm {A B} (F : A -> B) (q : A -> bool) (q' : B -> bool) l :
  (forall x, In x l -> q' (F x) = q x) ->
  find q' (map F l) = F <$> find q l.
Proof.
  induction l as [|x l IH]; intros H; [reflexivity|]. simpl.
  rewrite (H x) by (by left). destruct (q x); [reflexivity|].
  apply IH. intros y Hy. apply H. by right.
Qed.

Lemma findR_map {A} (F : A -> val) (unF : val -> option A)
    (p : val -> R bool) (q : A -> bool) h (l : list A) :
  (forall x, unF (F x) = Some x) ->
  (forall x, In x l -> p (F x) h = Some (q x)) ->
  findR p (map F l) h = Some (F <$> find q l).
Proof.
  intros HF Hp.
  rewrite (findR_pure p (decide_with F q false unF)).
  - f_equal. apply find_map_comm. intros x _.
    unfold decide_with. by rewrite HF.
  - intros v Hv. apply in_map_iff in Hv as (x & <- & Hx).
    unfold decide_with. rewrite HF. by apply Hp.
Qed.

Lemma mapiR_map {A} (F : A -> val) (unF : val -> option A)
    (f : val -> Z -> R val) (g : A -> val) h (l : list A) i :
  (forall x, unF (F x) = Some x) ->
  (forall x j, In x l -> f (F x) j h = Some (g x)) ->
  mapiR f (map F l) i h = Some (map g l).
Proof.
  intros HF Hf.
  rewrite (mapiR_pure f (decide_with F g (VNum 0) unF)).
  - f_equal. rewrite map_map. apply map_ext_in. intros x _.
    unfold decide_with. by rewrite HF.
  - intros v j Hv. apply in_map_iff in Hv as (x & <- & Hx).
    unfold decide_with. rewrite HF. by apply Hf.
Qed.

Section StoreAssemblerFacts.

Variable at_ : InputArrays.
Variable cfg : StudyConfig.
Variable profile : option ParticipantProfile.
Variable prog : QuestionProgress.

Lemma findFieldValueR_run h id :
  holdsInputs h at_ cfg profile prog ->
  findFieldValueR at_ profile id h = Some (findFieldValue profile id).
Proof.
  intros (_ & _ & _ & Hfields & _). unfold findFieldValueR, findFieldValue.
  destruct profile as [p|]; [|reflexivity].
  specialize (Hfields p eq_refl).
  rewrite (R_bind_run _ _ h
             (VValue <$> find (fun f => jsstring_eqb (fieldId f) id) (fields p))).
  - by destruct (find _ (fields p)).
  - unfold arrFind. rewrite (R_bind_run _ _ h _ Hfields).
    by apply (findR_map VValue unValue).
Qed.

Lemma formatProfileFieldsM_run h :
  holdsInputs h at_ cfg profile prog ->
  exists k,
    formatProfileFieldsM at_ profile h
    = Some (formatProfileFields (profileSchema cfg) profile, h ++ k).
Proof.
  intros Hh. pose proof Hh as (_ & _ & Hschema & _).
  set (texts := map (formatProfileField profile) (profileSchema cfg)).
  exists [map VStr texts]. unfold formatProfileFieldsM.
  rewrite (M_bind_run _ _ h (length h) (h ++ [map VStr texts])).
  - apply liftR_run, arrJoin_run, lookup_new.
  - eapply arrMap_run; [exact Hschema|].
    rewrite (mapiR_map VField unField _
               (fun f => VStr (formatProfileField profile f))); [|done|].
    + unfold texts. by rewrite map_map.
    + intros f j _. cbn [asField].
      rewrite (R_bind_run _ _ h f) by reflexivity.
      by rewrite (R_bind_run _ _ h _ (findFieldValueR_run h (pf_id f) Hh)).
Qed.

Lemma remainingBlockM_run h remaining (rem : list IndexedQuestion) :
  h !! remaining = Some (map VQuestion rem) ->
  exists k,
    remainingBlockM remaining h = Some (remainingBlockOf rem, h ++ k).
Proof.
  intros Hrem. unfold remainingBlockM, remainingBlockOf.
  rewrite (M_bind_run _ _ h (length rem) h)
    by (apply liftR_run; erewrite arrLength_run by exact Hrem;
        by rewrite length_map).
  destruct (0 <? length rem)%nat.
  - set (h1 := h ++ [take 3 (map VQuestion rem)]).
    set (texts := map questionLine (take 3 rem)).
    exists [take 3 (map VQuestion rem); map VStr texts].
    rewrite (M_bind_run _ _ h (length h) h1) by (by apply arrSlice0_run).
    rewrite (M_bind_run _ _ h1 (length h1) (h1 ++ [map VStr texts])).
    + rewrite (M_bind_run _ _ _ (join [LF] texts) (h1 ++ [map VStr texts]))
        by (apply liftR_run, arrJoin_run, lookup_new).
      unfold h1. by rewrite <- app_assoc.
    + eapply arrMap_run; [apply lookup_new|].
      rewrite firstn_map.
      rewrite (mapiR_map VQuestion unQuestion _
                 (fun q => VStr (questionLine q))); [|done|done].
      unfold texts. by rewrite map_map.
  - exists []. by rewrite app_nil_r.
Qed.

End StoreAssemblerFacts.

Section StoreAssemblerRun.

Variable at_ : InputArrays.
Variable cfg : StudyConfig.
Variable profile : option ParticipantProfile.
Variable prog : QuestionProgress.

(** On a store that holds the arrays of the inputs, the assembler
    returns the text of [buildInterviewSystemPrompt] and only adds
    arrays to the store. *)
Lemma buildInterviewSystemPromptM_run h ctx :
  holdsInputs h at_ cfg profile prog ->
  exists k,
    buildInterviewSystemPromptM at_ cfg profile prog ctx h
    = Some (buildInterviewSystemPrompt cfg profile prog ctx, h ++ k).
Proof.
  intros Hh. pose proof Hh as (Hcore & Htopics & Hschema & _ & Hasked).
  unfold buildInterviewSystemPromptM.
  (* indexed *)
  set (indexed := map VQuestion (indexFrom 0 (coreQuestions cfg))).
  set (h1 := h ++ [indexed]).
  rewrite (M_bind_run _ _ h (length h) h1)
    by (eapply arrMap_run; [exact Hcore|apply mapiR_indexed]).
  assert (Hh1 : holdsInputs h1 at_ cfg profile prog)
    by (by apply holdsInputs_grow).
  (* remaining *)
  set (remaining := map VQuestion (remainingQuestions cfg prog)).
  set (h2 := h1 ++ [remaining]).
  rewrite (M_bind_run _ _ h1 (length h1) h2).
  2:{ eapply arrFilter_run; [apply lookup_new|].
      apply (filterR_map VQuestion unQuestion); [done|].
      intros q _. cbn [asQuestion].
      rewrite (R_bind_run _ _ h1 q) by reflexivity.
      destruct Hh1 as (_ & _ & _ & _ & Hasked1).
      by rewrite (R_bind_run _ _ h1 _ (arrIncludes_run _ _ _ _ Hasked1)). }
  assert (Hh2 : holdsInputs h2 at_ cfg profile prog)
    by (by apply holdsInputs_grow).
  (* requiredFields *)
  set (requiredFields := map VField (List.filter required (profileSchema cfg))).
  set (h3 := h2 ++ [requiredFields]).
  rewrite (M_bind_run _ _ h2 (length h2) h3).
  2:{ destruct Hh2 as (_ & _ & Hschema2 & _).
      eapply arrFilter_run; [exact Hschema2|].
      apply (filterR_map VField unField); [done|].
      intros f _. cbn [asField].
      by rewrite (R_bind_run _ _ h2 f) by reflexivity. }
  assert (Hh3 : holdsInputs h3 at_ cfg profile prog)
    by (by apply holdsInputs_grow).
  (* pendingRequired *)
  set (pending := map VField (pendingRequired cfg profile)).
  set (h4 := h3 ++ [pending]).
  rewrite (M_bind_run _ _ h3 (length h3) h4).
  2:{ eapply arrFilter_run; [apply lookup_new|].
      apply (filterR_map VField unField); [done|].
      intros f _. cbn [asField].
      rewrite (R_bind_run _ _ h3 f) by reflexivity.
      by rewrite (R_bind_run _ _ h3 _
                    (findFieldValueR_run at_ cfg profile prog h3 (pf_id f) Hh3)). }
  assert (Hh4 : holdsInputs h4 at_ cfg profile prog)
    by (by apply holdsInputs_grow).
  pose proof Hh4 as (Hcore4 & Htopics4 & _ & _ & Hasked4).
  (* the array expressions of the template *)
  rewrite (M_bind_run _ _ h4 (join (js ", ") (topicAreas cfg)) h4)
    by (by apply liftR_run, arrJoin_run).
  rewrite (M_bind_run _ _ h4 (length (questionsAsked prog)) h4)
    by (apply liftR_run; erewrite arrLength_run by exact Hasked4;
        by rewrite length_map).
  rewrite (M_bind_run _ _ h4 (length (coreQuestions cfg)) h4)
    by (apply liftR_run; erewrite arrLength_run by exact Hcore4;
        by rewrite length_map).
  assert (Hrem4 : h4 !! length h1 = Some remaining).
  { unfold h4, h3. do 2 apply lookup_old. apply lookup_new. }
  destruct (remainingBlockM_run h4 (length h1) _ Hrem4) as [k1 Hk1].
  rewrite (M_bind_run _ _ h4 _ _ Hk1).
  assert (Hh5 : holdsInputs (h4 ++ k1) at_ cfg profile prog)
    by (by apply holdsInputs_grow).
  destruct (formatProfileFieldsM_run at_ cfg profile prog _ Hh5) as [k2 Hk2].
  rewrite (M_bind_run _ _ (h4 ++ k1) _ _ Hk2).
  assert (Hpend : ((h4 ++ k1) ++ k2) !! length h3 = Some pending).
  { do 2 apply lookup_old. apply lookup_new. }
  rewrite (M_bind_run _ _ ((h4 ++ k1) ++ k2)
             (length (pendingRequired cfg profile)) ((h4 ++ k1) ++ k2))
    by (apply liftR_run; erewrite arrLength_run by exact Hpend;
        unfold pending; by rewrite length_map).
  exists ([indexed; remaining; requiredFields; pending] ++ k1 ++ k2).
  unfold mret, M_ret. f_equal. f_equal.
  unfold h4, h3, h2, h1. by rewrite <- !app_assoc.
Qed.

End StoreAssemblerRun.

(** C8: two calls of the assembler on equal inputs -- whatever store each
    runs in, and wherever the arrays of the inputs lie in it -- return the
    same text, that of [buildInterviewSystemPrompt]; and each call leaves
    every array of its store, the arrays of its inputs among them, as it
    found it. *)
Theorem buildInterviewSystemPrompt_pure
    (at1 at2 : InputArrays) (h1 h2 : store)
    (cfg : StudyConfig) (profile : option ParticipantProfile)
    (prog : QuestionProgress) (ctx : jsstring) :
  holdsInputs h1 at1 cfg profile prog ->
  holdsInputs h2 at2 cfg profile prog ->
  exists text h1' h2',
    buildInterviewSystemPromptM at1 cfg profile prog ctx h1 = Some (text, h1')
    /\ buildInterviewSystemPromptM at2 cfg profile prog ctx h2 = Some (text, h2')
    /\ text = buildInterviewSystemPrompt cfg profile prog ctx
    /\ (forall l a, h1 !! l = Some a -> h1' !! l = Some a)
    /\ (forall l a, h2 !! l = Some a -> h2' !! l = Some a)
    /\ holdsInputs h1' at1 cfg profile prog
    /\ holdsInputs h2' at2 cfg profile prog.
Proof.
  intros H1 H2.
  destruct (buildInterviewSystemPromptM_run at1 cfg profile prog h1 ctx H1)
    as [k1 E1].
  destruct (buildInterviewSystemPromptM_run at2 cfg profile prog h2 ctx H2)
    as [k2 E2].
  exists (buildInterviewSystemPrompt cfg profile prog ctx), (h1 ++ k1), (h2 ++ k2).
  split; [exact E1|]. split; [exact E2|]. split; [reflexivity|].
  split; [intros l a; apply lookup_old|].
  split; [intros l a; apply lookup_old|].
  split; by apply holdsInputs_grow.
Qed.

Lemma demoStore_holds :
  holdsInputs demoStore demoArrays demoConfig (Some extractedProfile) demoProgress.
Proof.
  repeat split. intros p Hp. inversion Hp; subst p. reflexivity.
Defined.

Lemma otherStore_holds :
  holdsInputs otherStore otherArrays demoConfig (Some extractedProfile) demoProgress.
Proof.
  repeat split. intros p Hp. inversion Hp; subst p. reflexivity.
Defined.

Lemma buildInterviewSystemPrompt_pure_witness :
  exists text h1' h2',
    buildInterviewSystemPromptM demoArrays demoConfig (Some extractedProfile)
      demoProgress (js "ctx") demoStore = Some (text, h1')
    /\ buildInterviewSystemPromptM otherArrays demoConfig (Some extractedProfile)
         demoProgress (js "ctx") otherStore = Some (text, h2')
    /\ text = buildInterviewSystemPrompt demoConfig (Some extractedProfile)
                demoProgress (js "ctx").
Proof.
  destruct (buildInterviewSystemPrompt_pure demoArrays otherArrays
              demoStore otherStore demoConfig (Some extractedProfile)
              demoProgress (js "ctx") demoStore_holds otherStore_holds)
    as (text & h1' & h2' & E1 & E2 & E3 & _).
  exists text, h1', h2'. by repeat split.
Defined.

(** * Further properties of the code *)

(** ** Prompt assembler: remaining questions *)

Lemma jsstring_eqb_eq a b : jsstring_eqb a b = true <-> a = b.
Proof.
  revert b. induction a as [|x a IH]; intros [|y b]; simpl;
    try (split; (discriminate || done)).
  rewrite andb_true_iff, N.eqb_eq, IH.
  split; [by intros [-> ->]|by intros [= -> ->]].
Qed.

Lemma jsstring_eqb_refl a : jsstring_eqb a a = true.
Proof. by apply jsstring_eqb_eq. Qed.

Lemma jsstring_eqb_neq a b : jsstring_eqb a b = false <-> a <> b.
Proof.
  destruct (jsstring_eqb a b) eqn:E.
  - apply jsstring_eqb_eq in E. split; [discriminate|done].
  - split; [|done]. intros _ H. apply jsstring_eqb_eq in H. congruence.
Qed.

Lemma includes_In l n : includes l n = true <-> In n l.
Proof.
  unfold includes. rewrite existsb_exists. split.
  - intros (x & Hx & E). apply Z.eqb_eq in E. by subst.
  - intros H. exists n. split; [exact H|apply Z.eqb_refl].
Qed.

Lemma indexFrom_In qs : forall i q,
  In q (indexFrom i qs) <->
  exists k : nat, index q = i + Z.of_nat k /\ qs !! k = Some (question q).
Proof.
  induction qs as [|x qs IH]; intros i q; simpl.
  - split; [done|]. by intros (k & _ & H).
  - rewrite IH. split.
    + intros [<-|(k & Hk & Hq)].
      * exists 0%nat. simpl. split; [lia|done].
      * exists (S k). split; [lia|done].
    + intros ([|k] & Hk & Hq).
      * left. destruct q as [qi qq]. simpl in *.
        injection Hq as ->. f_equal. lia.
      * right. exists k. split; [lia|done].
Qed.

Lemma indexFrom_sorted qs : forall i,
  StronglySorted Z.lt (map index (indexFrom i qs)).
Proof.
  induction qs as [|x qs IH]; intros i; simpl; constructor; [apply IH|].
  apply List.Forall_forall. intros j Hj. apply in_map_iff in Hj as (q & <- & Hq).
  apply indexFrom_In in Hq as (k & -> & _). lia.
Qed.

Lemma StronglySorted_map_filter {A} (key : A -> Z) (p : A -> bool) l :
  StronglySorted Z.lt (map key l) ->
  StronglySorted Z.lt (map key (List.filter p l)).
Proof.
  induction l as [|x l IH]; simpl; [done|]. intros H.
  apply StronglySorted_inv in H as [Hl Hx].
  destruct (p x); simpl; [|by apply IH].
  constructor; [by apply IH|].
  apply List.Forall_forall. intros j Hj. apply in_map_iff in Hj as (y & <- & Hy).
  apply filter_In in Hy as [Hy _].
  rewrite List.Forall_forall in Hx. apply Hx. apply in_map_iff. by exists y.
Qed.

Lemma remainingQuestions_In cfg prog q :
  In q (remainingQuestions cfg prog) <-> unasked cfg prog q.
Proof.
  unfold remainingQuestions, unasked. rewrite filter_In, indexFrom_In.
  rewrite negb_true_iff. split.
  - intros [(k & Hk & Hq) Hn]. split; [exists k; split; [lia|done]|].
    intros Hin. apply includes_In in Hin. congruence.
  - intros [(k & Hk & Hq) Hn]. split; [exists k; split; [lia|done]|].
    destruct (includes _ _) eqn:E; [|done]. by apply includes_In in E.
Qed.

Lemma remainingQuestions_sorted cfg prog :
  StronglySorted Z.lt (map index (remainingQuestions cfg prog)).
Proof. apply StronglySorted_map_filter, indexFrom_sorted. Qed.

(** X1: the assembler reports that all core questions are covered exactly
    when the index of every core question is among the questions asked;
    otherwise it opens the list of remaining questions. *)
Theorem remainingBlock_all_covered (cfg : StudyConfig)
    (prog : QuestionProgress) :
  (remainingBlock cfg prog = js "- All core questions covered" <->
   forall k : nat, (k < length (coreQuestions cfg))%nat ->
     In (Z.of_nat k) (questionsAsked prog))
  /\ (remainingBlock cfg prog <> js "- All core questions covered" ->
      exists shown,
        remainingBlock cfg prog = js "- Remaining questions:" ++ [LF] ++ shown).
Proof.
  unfold remainingBlock, remainingBlockOf.
  destruct (remainingQuestions cfg prog) as [|q rest] eqn:E; simpl length;
    cbv iota beta; simpl Nat.ltb; cbv iota.
  - split; [|done]. split; [|done]. intros _ k Hk.
    destruct (lookup_lt_is_Some_2 (coreQuestions cfg) k Hk) as [x Hx].
    destruct (includes (questionsAsked prog) (Z.of_nat k)) eqn:Hi;
      [by apply includes_In|].
    assert (Hin : In {| index := Z.of_nat k; question := x |}
                    (remainingQuestions cfg prog)).
    { apply remainingQuestions_In. split; [by exists k|].
      simpl. intros H. apply includes_In in H. congruence. }
    rewrite E in Hin. destruct Hin.
  - split; [|intros _; eexists; reflexivity].
    split; [discriminate|]. intros Hall. exfalso.
    assert (Hin : In q (remainingQuestions cfg prog)) by (rewrite E; by left).
    apply remainingQuestions_In in Hin as [(k & Hk & Hq) Hn].
    apply Hn. rewrite Hk. apply Hall. by apply lookup_lt_Some in Hq.
Qed.

Lemma remainingBlock_all_covered_witness :
  remainingBlock demoConfig
    {| questionsAsked := [1; 0; 7]; total := 2; currentPhase := CoreQuestions;
       isComplete := false |}
  = js "- All core questions covered".
Proof.
  apply (remainingBlock_all_covered demoConfig).
  intros [|[|k]] Hk; simpl in *; [tauto|tauto|lia].
Defined.

(** X2: the remaining questions are exactly the core questions whose
    index is not among the questions asked, in increasing order of
    index; the prompt shows the first three of them (all of them when
    there are fewer), each numbered one above its index. *)
Theorem remainingQuestions_preview (cfg : StudyConfig)
    (prog : QuestionProgress) :
  (forall q, In q (remainingQuestions cfg prog) <-> unasked cfg prog q)
  /\ StronglySorted Z.lt (map index (remainingQuestions cfg prog))
  /\ (remainingQuestions cfg prog <> [] ->
      exists shown later,
        remainingQuestions cfg prog = shown ++ later
        /\ length shown = Nat.min 3 (length (remainingQuestions cfg prog))
        /\ remainingBlock cfg prog
           = js "- Remaining questions:" ++ [LF]
             ++ join [LF]
                  (map (fun q => js "  " ++ showNat (Z.to_nat (index q + 1))
                                   ++ js ". " ++ question q) shown)).
Proof.
  split; [apply remainingQuestions_In|].
  split; [apply remainingQuestions_sorted|].
  intros Hne.
  exists (take 3 (remainingQuestions cfg prog)),
         (drop 3 (remainingQuestions cfg prog)).
  split; [by rewrite take_drop|]. split; [apply length_take|].
  unfold remainingBlock, remainingBlockOf.
  destruct (remainingQuestions cfg prog); [done|reflexivity].
Qed.

Lemma remainingQuestions_preview_witness :
  exists shown later,
    remainingQuestions demoConfig demoProgress = shown ++ later
    /\ length shown = 1%nat.
Proof.
  destruct (remainingQuestions_preview demoConfig demoProgress)
    as (_ & _ & H).
  destruct H as (shown & later & E & Hlen & _); [discriminate|].
  exists shown, later. split; [exact E|exact Hlen].
Defined.

(** ** Prompt assembler: values the lookups cannot reach *)

Lemma find_app {A} (p : A -> bool) l1 l2 :
  find p (l1 ++ l2) = match find p l1 with
                      | Some x => Some x
                      | None => find p l2
                      end.
Proof.
  induction l1 as [|x l1 IH]; simpl; [done|]. by destruct (p x).
Qed.

Lemma find_some_In {A} (p : A -> bool) l x :
  In x l -> p x = true -> exists y, find p l = Some y.
Proof.
  induction l as [|z l IH]; simpl; [done|]. intros [->|Hin] Hp.
  - rewrite Hp. eauto.
  - destruct (p z); eauto.
Qed.

Lemma findFieldValue_unreachable schema p l1 v l2 f :
  unreachableValue schema l1 v -> In f schema ->
  findFieldValue (Some (withFields p (l1 ++ v :: l2))) (pf_id f)
  = findFieldValue (Some (withFields p (l1 ++ l2))) (pf_id f).
Proof.
  intros Hv Hf. unfold findFieldValue. simpl fields.
  rewrite !find_app. simpl find.
  destruct (jsstring_eqb (fieldId v) (pf_id f)) eqn:E; [|done].
  apply jsstring_eqb_eq in E. destruct Hv as [Hv|(e & He & Heq)].
  - destruct (Hv f Hf). done.
  - destruct (find_some_In (fun x => jsstring_eqb (fieldId x) (pf_id f)) l1 e He)
      as [y ->]; [|done].
    apply jsstring_eqb_eq. congruence.
Qed.

(** X3: a recorded value whose field the schema does not declare, or
    which comes after another value of the same field, has no influence
    on the prompt. *)
Theorem buildInterviewSystemPrompt_unreachable_value
    (cfg : StudyConfig) (p : ParticipantProfile)
    (l1 l2 : list ProfileFieldValue) (v : ProfileFieldValue)
    (prog : QuestionProgress) (ctx : jsstring) :
  unreachableValue (profileSchema cfg) l1 v ->
  buildInterviewSystemPrompt cfg (Some (withFields p (l1 ++ v :: l2))) prog ctx
  = buildInterviewSystemPrompt cfg (Some (withFields p (l1 ++ l2))) prog ctx.
Proof.
  intros Hv.
  assert (Hfmt : formatProfileFields (profileSchema cfg)
                   (Some (withFields p (l1 ++ v :: l2)))
                 = formatProfileFields (profileSchema cfg)
                     (Some (withFields p (l1 ++ l2)))).
  { unfold formatProfileFields. f_equal. apply map_ext_in. intros f Hf.
    unfold formatProfileField.
    by rewrite (findFieldValue_unreachable _ p l1 v l2 f Hv Hf). }
  assert (Hpend : pendingRequired cfg (Some (withFields p (l1 ++ v :: l2)))
                  = pendingRequired cfg (Some (withFields p (l1 ++ l2)))).
  { unfold pendingRequired. apply filter_ext_in. intros f Hf.
    apply filter_In in Hf as [Hf _]. unfold isUnresolved.
    by rewrite (findFieldValue_unreachable _ p l1 v l2 f Hv Hf). }
  unfold buildInterviewSystemPrompt, promptHead, pendingWarning.
  by rewrite Hfmt, Hpend.
Qed.

Lemma buildInterviewSystemPrompt_unreachable_value_witness :
  buildInterviewSystemPrompt demoConfig
    (Some (withFields extractedProfile (strayValue :: fields extractedProfile)))
    demoProgress []
  = buildInterviewSystemPrompt demoConfig
      (Some (withFields extractedProfile (fields extractedProfile)))
      demoProgress [].
Proof.
  apply (buildInterviewSystemPrompt_unreachable_value demoConfig
           extractedProfile [] (fields extractedProfile) strayValue).
  left. intros f [<-|[]]. discriminate.
Defined.

(** ** [cleanJSON]: where the output comes from *)

Lemma occursIn_sublist (x s : jsstring) : occursIn x s -> x `sublist_of` s.
Proof.
  intros (b & a & ->). by apply sublist_inserts_l, sublist_inserts_r.
Qed.

Lemma dropWhile_sublist {A} (p : A -> bool) (l : list A) :
  dropWhile p l `sublist_of` l.
Proof.
  destruct (dropWhile_suffix p l) as [d E]. rewrite E at 2.
  by apply sublist_inserts_l.
Qed.

Lemma replaceAll_sublist lit s :
  lit <> [] -> replaceAll lit s `sublist_of` s.
Proof.
  intros Hlit. remember (length s) as n eqn:Hn. revert s Hn.
  induction n as [n IH] using lt_wf_ind. intros s Hn.
  destruct s as [|c s]; [done|].
  destruct (stripPrefix lit (c :: s)) as [rest|] eqn:Hp.
  - rewrite (replaceAll_cons_match lit c s rest Hlit Hp).
    pose proof (stripPrefix_length _ _ _ Hp) as Hl.
    pose proof (dropWhile_length isWhiteSpace rest) as Hd.
    apply stripPrefix_Some in Hp. rewrite Hp.
    apply sublist_inserts_l. etransitivity; [|apply dropWhile_sublist].
    apply (IH (length (dropWhile isWhiteSpace rest))); [|done].
    destruct lit; [done|]. simpl in *. lia.
  - rewrite (replaceAll_cons_skip lit c s Hp). apply sublist_skip.
    apply (IH (length s)); [simpl in Hn; lia|done].
Qed.

Lemma stripFences_sublist text : stripFences text `sublist_of` text.
Proof.
  unfold stripFences.
  etransitivity; [apply occursIn_sublist|].
  { destruct (trim_infix (replaceAll fence (replaceAll fenceJson text)))
      as (b & a & E). exists b, a. exact E. }
  etransitivity; [by apply replaceAll_sublist|by apply replaceAll_sublist].
Qed.

Lemma take_drop_occursIn (s : jsstring) a n : occursIn (take n (drop a s)) s.
Proof.
  exists (take a s), (drop n (drop a s)). by rewrite !take_drop.
Qed.

Lemma cleanJSON_spec_occursIn text out :
  text <> [] -> cleanJSON_spec text out -> occursIn out (stripFences text).
Proof.
  intros Hne [He|fb n _ _ _ _|fc n _ _ _ _|_ _ _]; [done| | |].
  - apply take_drop_occursIn.
  - apply take_drop_occursIn.
  - exists [], []. by rewrite app_nil_r.
Qed.

(** X4: [cleanJSON] invents nothing for a non-empty text: its output is
    then a contiguous part of the fence-free text, and so made of code
    units of the text in their order.  For the empty text it returns
    ["{}"]. *)
Theorem cleanJSON_invents_nothing (text : jsstring) :
  (text = [] /\ cleanJSON text = js "{}")
  \/ (text <> []
      /\ occursIn (cleanJSON text) (stripFences text)
      /\ cleanJSON text `sublist_of` text).
Proof.
  destruct text as [|c text]; [by left|]. right.
  assert (Hocc : occursIn (cleanJSON (c :: text)) (stripFences (c :: text)))
    by (apply cleanJSON_spec_occursIn; [done|apply cleanJSON_cases]).
  split; [done|]. split; [exact Hocc|].
  etransitivity; [by apply occursIn_sublist|apply stripFences_sublist].
Qed.

(** ** [cleanJSON]: cleaning twice *)

Lemma dropWhile_fixed {A} (p : A -> bool) l :
  dropWhile p l = l <-> l = [] \/ exists x l', l = x :: l' /\ p x = false.
Proof.
  destruct l as [|x l]; simpl.
  - split; [by left|done].
  - destruct (p x) eqn:E.
    + split.
      * intros H. pose proof (dropWhile_length p l) as Hl.
        rewrite H in Hl. simpl in Hl. lia.
      * intros [H|(y & l' & [= -> ->] & Hy)]; [done|congruence].
    + split; [|done]. intros _. right. by exists x, l.
Qed.

Lemma dropWhile_idemp {A} (p : A -> bool) l :
  dropWhile p (dropWhile p l) = dropWhile p l.
Proof.
  induction l as [|x l IH]; simpl; [done|].
  destruct (p x) eqn:E; [exact IH|]. simpl. by rewrite E.
Qed.

Lemma trimmed_trim s : trimmed s -> trim s = s.
Proof.
  intros [H1 H2]. unfold trim. by rewrite H1, H2, reverse_involutive.
Qed.

(** A non-empty prefix of a text that begins without white space begins
    without white space. *)
Lemma dropWhile_fixed_prefix {A} (p : A -> bool) (l k : list A) :
  dropWhile p (l ++ k) = l ++ k -> dropWhile p l = l.
Proof.
  intros H. apply dropWhile_fixed.
  destruct l as [|x l]; [by left|]. right. exists x, l. split; [done|].
  apply dropWhile_fixed in H as [H|(y & l' & [= -> _] & Hy)]; done.
Qed.

Lemma trim_trimmed s : trimmed (trim s).
Proof.
  unfold trimmed, trim. rewrite reverse_involutive, dropWhile_idemp.
  split; [|done].
  destruct (dropWhile_suffix isWhiteSpace
              (reverse (dropWhile isWhiteSpace s))) as [d E].
  apply (dropWhile_fixed_prefix _ _ (reverse d)).
  rewrite <- reverse_app, <- E, reverse_involutive. apply dropWhile_idemp.
Qed.

Lemma replaceAll_absent lit s :
  lit <> [] -> ~ occursIn lit s -> replaceAll lit s = s.
Proof.
  intros Hlit. induction s as [|c s IH]; intros Hno; [done|].
  rewrite replaceAll_cons_skip.
  - f_equal. apply IH. intros (b & a & ->). apply Hno.
    by exists (c :: b), a.
  - destruct (stripPrefix lit (c :: s)) as [rest|] eqn:Hp; [|done].
    apply stripPrefix_Some in Hp. destruct Hno. by exists [], rest.
Qed.

Lemma fenceJson_fence s : occursIn fenceJson s -> occursIn fence s.
Proof.
  intros (b & a & ->). exists b, (js "json" ++ a).
  by change fenceJson with (fence ++ js "json"); rewrite <- !app_assoc.
Qed.

(** A fence-free text without white space at its ends is its own
    fence-free form. *)
Lemma stripFences_fixed s :
  ~ occursIn fence s -> trimmed s -> stripFences s = s.
Proof.
  intros Hno Htr. unfold stripFences.
  rewrite (replaceAll_absent fenceJson s);
    [|done|intros H; by apply Hno, fenceJson_fence].
  rewrite (replaceAll_absent fence s) by done. by apply trimmed_trim.
Qed.

Lemma stripFences_idemp text : stripFences (stripFences text) = stripFences text.
Proof.
  apply stripFences_fixed; [apply stripFences_fence_free|apply trim_trimmed].
Qed.

Lemma balance_app o c s t : balance o c (s ++ t) = balance o c s + balance o c t.
Proof.
  induction s as [|x s IH]; simpl app; [rewrite balance_nil; lia|].
  rewrite !balance_cons, IH. lia.
Qed.

Lemma balance_take_S o c s n x :
  s !! n = Some x ->
  balance o c (take (S n) s) = balance o c (take n s) + depthStep o c x.
Proof.
  intros H. rewrite (take_S_r _ _ _ H), balance_app, balance_cons, balance_nil.
  unfold depthStep. lia.
Qed.

(** The code unit on which a span closes is a bracket of its kind. *)
Lemma closesAt_last o c s n x :
  o <> c -> s !! 0%nat = Some o ->
  closesAt o c s n -> s !! n = Some x -> depthStep o c x <> 0.
Proof.
  intros Hoc Ho (_ & Hz & Hmin) Hx E.
  destruct n as [|n].
  - rewrite Ho in Hx. injection Hx as <-. unfold depthStep in E.
    rewrite N.eqb_refl in E.
    destruct (o =? c)%N eqn:Eoc; [apply N.eqb_eq in Eoc; done|lia].
  - rewrite (balance_take_S _ _ _ _ _ Hx), E in Hz.
    apply (Hmin n); lia.
Qed.

Lemma depthStep_bracket o c x :
  depthStep o c x <> 0 -> x = o \/ x = c.
Proof.
  unfold depthStep. intros H.
  destruct (x =? o)%N eqn:Eo; [left; by apply N.eqb_eq|].
  destruct (x =? c)%N eqn:Ec; [right; by apply N.eqb_eq|lia].
Qed.

Lemma occursIn_part x s t : occursIn x s -> occursIn s t -> occursIn x t.
Proof.
  intros H (b & a & E). apply (occursIn_trans _ _ _ H). by exists b, a.
Qed.

(** A closed span of a fence-free text, taken alone: it is its own
    fence-free form and closes on its last code unit. *)
Lemma span_alone o c (cleaned : jsstring) f n :
  o <> c -> isWhiteSpace o = false -> isWhiteSpace c = false ->
  ~ occursIn fence cleaned ->
  firstIndex o cleaned f ->
  closesAt o c (drop f cleaned) n ->
  let out := take (S n) (drop f cleaned) in
  stripFences out = out /\ length out = S n /\ firstIndex o out 0
  /\ closesAt o c out n.
Proof.
  intros Hoc Hwo Hwc Hfree [Hf _] Hcl out.
  pose proof Hcl as (Hn & Hz & Hmin).
  assert (Hlen : length out = S n).
  { unfold out. rewrite length_take. lia. }
  assert (H0 : drop f cleaned !! 0%nat = Some o).
  { by rewrite lookup_drop, Nat.add_0_r. }
  destruct (lookup_lt_is_Some_2 _ _ Hn) as [x Hx].
  assert (Hxb : isWhiteSpace x = false).
  { destruct (depthStep_bracket o c x) as [->| ->]; [|done|done].
    by apply (closesAt_last o c (drop f cleaned) n). }
  assert (Hout0 : out !! 0%nat = Some o).
  { unfold out. rewrite lookup_take_lt by lia. exact H0. }
  split; [|split; [exact Hlen|split; [split; [exact Hout0|lia]|]]].
  - apply stripFences_fixed.
    + intros H. apply Hfree. apply (occursIn_part _ _ _ H).
      apply take_drop_occursIn.
    + split; apply dropWhile_fixed; right.
      * destruct out as [|y out']; [done|]. injection Hout0 as ->.
        by exists o, out'.
      * exists x, (reverse (take n (drop f cleaned))). split; [|done].
        unfold out. by rewrite (take_S_r _ _ _ Hx), reverse_app.
  - split; [lia|]. unfold out. split.
    + by rewrite take_take, Nat.min_id.
    + intros m Hm. rewrite take_take.
      replace (S m `min` S n)%nat with (S m) by lia. by apply Hmin.
Qed.

Lemma bracket_ne : LBRACKET <> RBRACKET.
Proof. unfold LBRACKET, RBRACKET. discriminate. Qed.

Lemma brace_ne : LBRACE <> RBRACE.
Proof. unfold LBRACE, RBRACE. discriminate. Qed.

(** X5: cleaning twice is cleaning once, whenever the first cleaning
    returns something; when it returns the empty string, the second
    returns ["{}"]. *)
Theorem cleanJSON_twice (text : jsstring) :
  (cleanJSON text <> [] -> cleanJSON (cleanJSON text) = cleanJSON text)
  /\ (cleanJSON text = [] -> cleanJSON (cleanJSON text) = js "{}").
Proof.
  split; [|by intros ->].
  intros Hne.
  pose proof (stripFences_fence_free text) as Hfree.
  destruct (cleanJSON_cases text)
    as [He|fb n Ht Hfb Hno Hcl|fc n Ht Hfc Harr Hcl|Ht Harr Hobj].
  - reflexivity.
  - destruct (span_alone LBRACKET RBRACKET (stripFences text) fb n
                bracket_ne eq_refl eq_refl Hfree Hfb Hcl)
      as (Hfix & Hlen & Hfirst & Hcl').
    remember (take (S n) (drop fb (stripFences text))) as out eqn:Eout.
    clear Eout.
    apply (cleanJSON_spec_functional out); [apply cleanJSON_cases|].
    assert (H : cleanJSON_spec out (take (S n) (drop 0 (stripFences out)))).
    { apply clean_array; rewrite ?Hfix.
      - intros E. rewrite E in Hlen. discriminate.
      - exact Hfirst.
      - intros j Hj. lia.
      - exact Hcl'. }
    rewrite Hfix, drop_0 in H. by rewrite take_ge in H by lia.
  - destruct (span_alone LBRACE RBRACE (stripFences text) fc n
                brace_ne eq_refl eq_refl Hfree Hfc Hcl)
      as (Hfix & Hlen & Hfirst & Hcl').
    remember (take (S n) (drop fc (stripFences text))) as out eqn:Eout.
    clear Eout.
    apply (cleanJSON_spec_functional out); [apply cleanJSON_cases|].
    assert (H : cleanJSON_spec out (take (S n) (drop 0 (stripFences out)))).
    { apply clean_object; rewrite ?Hfix.
      - intros E. rewrite E in Hlen. discriminate.
      - exact Hfirst.
      - intros fb _ Hlt. lia.
      - exact Hcl'. }
    rewrite Hfix, drop_0 in H. by rewrite take_ge in H by lia.
  - apply (cleanJSON_spec_functional (stripFences text));
      [apply cleanJSON_cases|].
    assert (H : cleanJSON_spec (stripFences text)
                  (stripFences (stripFences text))).
    { apply clean_none; rewrite ?stripFences_idemp; [exact Hne|exact Harr|exact Hobj]. }
    by rewrite stripFences_idemp in H.
Qed.

Lemma cleanJSON_twice_witness :
  cleanJSON (cleanJSON sureInput) = cleanJSON sureInput
  /\ cleanJSON (cleanJSON fence) = js "{}".
Proof.
  split.
  - apply (cleanJSON_twice sureInput). discriminate.
  - apply (cleanJSON_twice fence). reflexivity.
Defined.

(** ** Gemini provider: greeting *)

Lemma orElse_nonempty x fallback : fallback <> [] -> orElse x fallback <> [].
Proof. intros H. by destruct x. Qed.

Lemma getDefaultGreeting_nonempty cfg : getDefaultGreeting cfg <> [].
Proof. unfold getDefaultGreeting. by destruct (isJapanese cfg). Qed.

Lemma getDefaultGreeting_count cfg :
  occursIn (showNat (length (coreQuestions cfg))) (getDefaultGreeting cfg).
Proof.
  unfold getDefaultGreeting, englishGreeting.
  destruct (isJapanese cfg); eexists _, _; reflexivity.
Qed.

(** X6: the greeting the provider returns is never empty: it is the text
    of the backend when that is not empty, and the default greeting --
    which states the number of core questions, in Japanese for a study
    in Japanese and in English otherwise -- when the backend call fails
    or gives no text; the call never fails for the caller. *)
Theorem getInterviewGreeting_never_empty
    (toLowerCase : jsstring -> jsstring)
    (generate : jsstring -> BackendOutcome) (cfg : StudyConfig) :
  let outcome := generate (buildGreetingPrompt toLowerCase cfg) in
  exists greeting,
    getInterviewGreeting toLowerCase generate cfg = Ok greeting
    /\ greeting <> []
    /\ (outcome = Rejected \/ outcome = Resolved None
        \/ outcome = Resolved (Some []) ->
        greeting = getDefaultGreeting cfg)
    /\ (forall text, outcome = Resolved (Some text) -> text <> [] ->
        greeting = text)
    /\ occursIn (showNat (length (coreQuestions cfg)))
         (getDefaultGreeting cfg)
    /\ (isJapanese cfg = false ->
        getDefaultGreeting cfg = englishGreeting (length (coreQuestions cfg))).
Proof.
  cbv zeta. unfold getInterviewGreeting.
  pose proof (getDefaultGreeting_nonempty cfg) as Hd.
  assert (Hen : isJapanese cfg = false ->
                getDefaultGreeting cfg
                = englishGreeting (length (coreQuestions cfg)))
    by (unfold getDefaultGreeting; by intros ->).
  destruct (generate (buildGreetingPrompt toLowerCase cfg)) as [|[[|c t]|]]
    eqn:E; simpl.
  - exists (getDefaultGreeting cfg).
    split; [reflexivity|]. split; [exact Hd|]. split; [done|].
    split; [by intros t [= ]|].
    split; [apply getDefaultGreeting_count|exact Hen].
  - exists (getDefaultGreeting cfg).
    split; [reflexivity|]. split; [exact Hd|]. split; [done|].
    split; [by intros t [= <-]|].
    split; [apply getDefaultGreeting_count|exact Hen].
  - exists (c :: t).
    split; [reflexivity|]. split; [done|].
    split; [by intros [H|[H|H]]|].
    split; [by intros text [= <-]|].
    split; [apply getDefaultGreeting_count|exact Hen].
  - exists (getDefaultGreeting cfg).
    split; [reflexivity|]. split; [exact Hd|]. split; [done|].
    split; [by intros t [= ]|].
    split; [apply getDefaultGreeting_count|exact Hen].
Qed.

Lemma getInterviewGreeting_never_empty_witness :
  getInterviewGreeting asciiLower (fun _ => Resolved (Some [])) japaneseConfig
  = Ok (getDefaultGreeting japaneseConfig)
  /\ getInterviewGreeting asciiLower (fun _ => Resolved (Some (js "Welcome!")))
       demoConfig
     = Ok (js "Welcome!").
Proof.
  split.
  - destruct (getInterviewGreeting_never_empty asciiLower
                (fun _ => Resolved (Some [])) japaneseConfig)
      as (g & -> & _ & H & _).
    f_equal. apply H. right. by right.
  - destruct (getInterviewGreeting_never_empty asciiLower
                (fun _ => Resolved (Some (js "Welcome!"))) demoConfig)
      as (g & -> & _ & _ & H & _).
    f_equal. by apply H.
Defined.

(** ** Synthesis prompt and synthesis *)

Lemma summaryLine_colon schema f : In COLON (summaryLine schema f).
Proof.
  unfold summaryLine. apply in_or_app. right. apply in_or_app. left.
  by left.
Qed.

Lemma join_In_first (c : char) sep x rest : In c x -> In c (join sep (x :: rest)).
Proof.
  intros H. destruct rest; [exact H|].
  change (join sep (x :: l :: rest)) with (x ++ sep ++ join sep (l :: rest)).
  apply in_or_app. by left.
Qed.

Lemma noProfileData_no_colon : ~ In COLON noProfileData.
Proof. vm_compute. intuition discriminate. Qed.

(** X7: the synthesis prompt says that there is no structured profile
    data exactly when there is no profile or none of its values is
    extracted with a non-empty text; otherwise it lists one line per such
    value, under the label the schema gives the field or, without one,
    under the field id. *)
Theorem profileSummary_fallback (cfg : StudyConfig)
    (profile : option ParticipantProfile) :
  (profileSummary cfg profile = noProfileData <->
   profile = None
   \/ exists p, profile = Some p
        /\ forall f, In f (fields p) ->
             status f <> Extracted \/ value f = None \/ value f = Some [])
  /\ (profileSummary cfg profile <> noProfileData ->
      exists p, profile = Some p
        /\ profileSummary cfg profile
           = join [LF]
               (map (summaryLine (profileSchema cfg))
                  (List.filter hasExtractedValue (fields p)))).
Proof.
  destruct profile as [p|]; simpl.
  2:{ split; [|done]. split; [by left|done]. }
  set (kept := List.filter hasExtractedValue (fields p)).
  assert (Hkept : kept = [] <->
            forall f, In f (fields p) ->
              status f <> Extracted \/ value f = None \/ value f = Some []).
  { unfold kept. split.
    - intros E f Hf.
      assert (Hn : hasExtractedValue f = false).
      { destruct (hasExtractedValue f) eqn:Hh; [|done].
        assert (In f (List.filter hasExtractedValue (fields p)))
          by (apply filter_In; done).
        rewrite E in *. done. }
      unfold hasExtractedValue in Hn.
      destruct (status f); try (left; discriminate).
      destruct (value f) as [[|c v]|]; [by right; right|done|by right; left].
    - intros H. destruct (List.filter hasExtractedValue (fields p))
        as [|f l] eqn:E; [done|]. exfalso.
      assert (Hin : In f (List.filter hasExtractedValue (fields p)))
        by (rewrite E; by left).
      apply filter_In in Hin as [Hin Hh]. unfold hasExtractedValue in Hh.
      destruct (H f Hin) as [Hs|[Hv|Hv]].
      + by destruct (status f).
      + rewrite Hv in Hh. by destruct (status f).
      + rewrite Hv in Hh. by destruct (status f). }
  destruct kept as [|f l] eqn:E.
  - simpl. split; [|done]. split; [|done]. intros _. right. exists p.
    split; [done|]. by apply Hkept.
  - assert (Hc : In COLON (join [LF] (map (summaryLine (profileSchema cfg))
                                        (f :: l))))
      by apply join_In_first, summaryLine_colon.
    destruct (join [LF] (map (summaryLine (profileSchema cfg)) (f :: l)))
      as [|c text] eqn:Ej; [destruct Hc|].
    simpl orElse. split.
    + split.
      * intros Heq. rewrite Heq in Hc. destruct (noProfileData_no_colon Hc).
      * intros [H|(p' & [= <-] & H)]; [done|].
        apply Hkept in H. discriminate.
    + intros _. exists p. split; [done|]. fold kept. by rewrite E.
Qed.

Lemma profileSummary_fallback_witness :
  profileSummary demoConfig None = noProfileData
  /\ exists p, Some extractedProfile = Some p
       /\ profileSummary demoConfig (Some extractedProfile)
          = join [LF] (map (summaryLine (profileSchema demoConfig))
                         (List.filter hasExtractedValue (fields p))).
Proof.
  split.
  - apply (profileSummary_fallback demoConfig None). by left.
  - apply (profileSummary_fallback demoConfig (Some extractedProfile)).
    vm_compute. discriminate.
Defined.

(** X8: the provider's synthesis never fails for the caller: a failed
    backend call or output that is not JSON gives the "analysis pending"
    placeholder; output that parses is returned as parsed, whatever it
    holds -- no field is checked or completed. *)
Theorem synthesizeInterview_outcomes
    (JSON_stringify : json -> jsstring)
    (JSON_parse : jsstring -> result json)
    (generate : jsstring -> BackendOutcome)
    (history : list InterviewMessage) (cfg : StudyConfig)
    (behavior : BehaviorData) (profile : option ParticipantProfile) :
  let outcome :=
    generate (buildSynthesisPrompt JSON_stringify history cfg behavior profile) in
  let result :=
    synthesizeInterview JSON_stringify JSON_parse generate
      history cfg behavior profile in
  (exists r, result = Ok r)
  /\ (outcome = Rejected -> result = Ok defaultSynthesisResult)
  /\ (forall text e, outcome = Resolved text ->
        JSON_parse (parsedText text) = Throw e ->
        result = Ok defaultSynthesisResult)
  /\ (forall text parsed, outcome = Resolved text ->
        JSON_parse (parsedText text) = Ok parsed ->
        result = Ok parsed)
  /\ propertyOf defaultSynthesisResult (js "keyInsights")
     = Some (JArr [JStr (js "Analysis pending...")]).
Proof.
  cbv zeta. unfold synthesizeInterview.
  destruct (generate _) as [|text] eqn:E.
  - repeat split; try done. by eexists.
  - destruct (JSON_parse (parsedText text)) as [v|e] eqn:Ep; simpl.
    + repeat split; try done; [by eexists| |].
      * intros t e [= <-]. by rewrite Ep.
      * intros t p [= <-]. by rewrite Ep.
    + repeat split; try done; [by eexists|].
      intros t p [= <-]. by rewrite Ep.
Qed.

Lemma synthesizeInterview_outcomes_witness :
  synthesizeInterview showsNothing sampleParse (fun _ => Resolved None)
    [userSays "hello"] demoConfig demoBehavior None
  = Ok (JObj [])
  /\ synthesizeInterview showsNothing sampleParse unavailable_text
       [userSays "hello"] demoConfig demoBehavior None
     = Ok defaultSynthesisResult.
Proof.
  split.
  - pose proof (synthesizeInterview_outcomes showsNothing sampleParse
                  (fun _ => Resolved None) [userSays "hello"] demoConfig
                  demoBehavior None) as H.
    cbv zeta in H. destruct H as (_ & _ & _ & H & _).
    by apply (H None).
  - pose proof (synthesizeInterview_outcomes showsNothing sampleParse
                  unavailable_text [userSays "hello"] demoConfig
                  demoBehavior None) as H.
    cbv zeta in H. destruct H as (_ & H & _). by apply H.
Defined.

(** ** Client service *)

(** X9: the client's interview call never fails for the caller: when the
    request cannot be made, the status is not OK or the body is not
    JSON, it returns a fallback object that is the provider's
    [defaultInterviewResponse], field by field; an OK response is
    returned as received. *)
Theorem clientGenerateInterviewResponse_outcomes
    (fetch : ClientRequest -> FetchOutcome)
    (history : list InterviewMessage) (cfg : StudyConfig)
    (profile : option ParticipantProfile) (prog : QuestionProgress)
    (ctx : jsstring) (token : option jsstring) :
  let request :=
    {| req_url := js "/api/interview"; req_headers := buildHeaders token;
       req_body := InterviewBody history cfg profile prog ctx |} in
  let result :=
    clientGenerateInterviewResponse fetch history cfg profile prog ctx token in
  (exists r, result = Ok r)
  /\ (forall body, fetch request = HttpResponse true (Ok body) ->
        result = Ok body)
  /\ (fetch request = NetworkFailure
      \/ (exists body, fetch request = HttpResponse false body)
      \/ (exists e, fetch request = HttpResponse true (Throw e)) ->
      result = Ok (responseToJson defaultInterviewResponse)).
Proof.
  cbv zeta. unfold clientGenerateInterviewResponse.
  destruct (fetch _) as [|[|] [body|e]]; simpl.
  - split; [by eexists|]. split; [done|].
    intros [H|[[b H]|[e H]]]; done.
  - split; [by eexists|]. split; [by intros b [= <-]|].
    intros [H|[[b H]|[e H]]]; done.
  - split; [by eexists|]. split; [done|]. done.
  - split; [by eexists|]. split; [done|]. done.
  - split; [by eexists|]. split; [done|]. done.
Qed.

Lemma clientGenerateInterviewResponse_outcomes_witness :
  clientGenerateInterviewResponse offline [userSays "hello"] demoConfig None
    demoProgress [] None
  = Ok (responseToJson defaultInterviewResponse)
  /\ clientGenerateInterviewResponse serverError [userSays "hello"] demoConfig
       None demoProgress [] (Some (js "token"))
     = Ok (responseToJson defaultInterviewResponse).
Proof.
  split.
  - pose proof (clientGenerateInterviewResponse_outcomes offline
                  [userSays "hello"] demoConfig None demoProgress [] None) as H.
    cbv zeta in H. destruct H as (_ & _ & H). apply H. by left.
  - pose proof (clientGenerateInterviewResponse_outcomes serverError
                  [userSays "hello"] demoConfig None demoProgress []
                  (Some (js "token"))) as H.
    cbv zeta in H. destruct H as (_ & _ & H). apply H. right. left.
    by eexists.
Defined.

Lemma englishGreeting_not_japanese n m :
  englishGreeting n <> greetingJpBefore ++ showNat m ++ greetingJpAfter.
Proof. discriminate. Qed.

(** X10: when the greeting request fails, the client falls back to the
    English greeting whatever the language of the study: its fallback is
    the provider's default greeting exactly for a study that is not in
    Japanese. *)
Theorem clientGetInterviewGreeting_fallback
    (fetch : ClientRequest -> FetchOutcome) (cfg : StudyConfig)
    (token : option jsstring) :
  let request :=
    {| req_url := js "/api/greeting"; req_headers := buildHeaders token;
       req_body := GreetingBody cfg |} in
  let fallback := englishGreeting (length (coreQuestions cfg)) in
  (fetch request = NetworkFailure
   \/ (exists body, fetch request = HttpResponse false body)
   \/ (exists e, fetch request = HttpResponse true (Throw e))
   \/ fetch request = HttpResponse true (Ok JNull) ->
   clientGetInterviewGreeting fetch cfg token = Ok (Some (JStr fallback)))
  /\ (fallback = getDefaultGreeting cfg <-> isJapanese cfg = false).
Proof.
  cbv zeta. split.
  - unfold clientGetInterviewGreeting.
    intros [H|[[b H]|[[e H]|H]]]; by rewrite H.
  - unfold getDefaultGreeting. destruct (isJapanese cfg); [|done].
    split; [|done]. intros H. by apply englishGreeting_not_japanese in H.
Qed.

Lemma clientGetInterviewGreeting_fallback_witness :
  clientGetInterviewGreeting offline japaneseConfig None
  = Ok (Some (JStr (englishGreeting 2)))
  /\ englishGreeting 2 = getDefaultGreeting demoConfig.
Proof.
  split.
  - apply (clientGetInterviewGreeting_fallback offline japaneseConfig None).
    by left.
  - apply (clientGetInterviewGreeting_fallback offline demoConfig None).
    reflexivity.
Defined.

(** ** Cookies *)

Lemma splitOn_absent sep s : ~ In sep s -> splitOn sep s = [s].
Proof.
  induction s as [|c s IH]; intros H; [done|]. simpl.
  destruct (c =? sep)%N eqn:E.
  - apply N.eqb_eq in E. destruct H. by left.
  - rewrite IH; [done|]. intros Hin. apply H. by right.
Qed.

Lemma splitOn_app sep a b :
  ~ In sep a -> splitOn sep (a ++ sep :: b) = a :: splitOn sep b.
Proof.
  induction a as [|c a IH]; intros H; simpl.
  - by rewrite N.eqb_refl.
  - destruct (c =? sep)%N eqn:E.
    + apply N.eqb_eq in E. destruct H. by left.
    + rewrite IH; [done|]. intros Hin. apply H. by right.
Qed.

Lemma splitOn_nonempty sep s : splitOn sep s <> [].
Proof.
  destruct s as [|c s]; simpl; [done|].
  destruct (c =? sep)%N; [done|]. by destruct (splitOn sep s).
Qed.

(** Splitting and joining again gives the text back. *)
Lemma join_splitOn sep s : join [sep] (splitOn sep s) = s.
Proof.
  induction s as [|c s IH]; [done|]. simpl.
  destruct (c =? sep)%N eqn:E.
  - apply N.eqb_eq in E. subst c.
    destruct (splitOn sep s) as [|p ps] eqn:Es;
      [by destruct (splitOn_nonempty sep s)|].
    change (join [sep] ([] :: p :: ps)) with ([sep] ++ join [sep] (p :: ps)).
    by rewrite IH.
  - destruct (splitOn sep s) as [|p ps] eqn:Es;
      [by destruct (splitOn_nonempty sep s)|].
    destruct ps as [|q ps]; simpl in *; by rewrite <- IH.
Qed.

Lemma In_app_not {A} (x : A) l k : ~ In x l -> ~ In x k -> ~ In x (l ++ k).
Proof. intros H1 H2 H. apply in_app_or in H. tauto. Qed.

Lemma cookieEntry_no_semicolon kv :
  plainCookie kv -> ~ In SEMICOLON (cookieEntry kv).
Proof.
  intros (H1 & _ & H2 & _). unfold cookieEntry.
  apply In_app_not; [done|]. apply In_app_not; [|done].
  intros [H|[]]. discriminate.
Qed.

Lemma cookieEntry_trimmed kv : plainCookie kv -> trimmed (cookieEntry kv).
Proof.
  intros (_ & _ & _ & Hk & Hv). unfold cookieEntry, trimmed. split.
  - apply dropWhile_fixed. destruct (fst kv) as [|c k] eqn:E.
    + right. by exists EQUALS, (snd kv).
    + right. exists c, (k ++ [EQUALS] ++ snd kv). split; [done|].
      apply dropWhile_fixed in Hk as [Hk|(x & l & [= -> ->] & Hx)]; done.
  - rewrite !reverse_app. apply dropWhile_fixed.
    destruct (reverse (snd kv)) as [|c v] eqn:E.
    + right. by exists EQUALS, (reverse (fst kv)).
    + right. exists c, (v ++ reverse [EQUALS] ++ reverse (fst kv)).
      split; [by rewrite <- app_assoc|].
      apply dropWhile_fixed in Hv as [Hv|(x & l & [= -> ->] & Hx)]; done.
Qed.

Lemma trim_space_entry e : trimmed e -> trim (SPACE :: e) = e.
Proof.
  intros [H1 H2]. unfold trim. simpl dropWhile. by rewrite H1, H2, reverse_involutive.
Qed.

Lemma join_cons_head (sep : jsstring) c e rest :
  join sep ((c :: e) :: rest) = c :: join sep (e :: rest).
Proof. by destruct rest. Qed.

Lemma join_cons_cons (sep : jsstring) x y rest :
  join sep (x :: y :: rest) = x ++ sep ++ join sep (y :: rest).
Proof. reflexivity. Qed.

Lemma cookies_after first pairs :
  Forall plainCookie pairs -> ~ In SEMICOLON first ->
  map trim (splitOn SEMICOLON
              (join [SEMICOLON; SPACE] (first :: map cookieEntry pairs)))
  = trim first :: map cookieEntry pairs.
Proof.
  revert first. induction pairs as [|kv pairs IH]; intros first Hall Hf.
  - simpl. by rewrite splitOn_absent.
  - apply Forall_cons in Hall as [Hkv Hall].
    cbn [map]. rewrite join_cons_cons.
    change ([SEMICOLON; SPACE] ++ join [SEMICOLON; SPACE]
                                    (cookieEntry kv :: map cookieEntry pairs))
      with (SEMICOLON :: SPACE :: join [SEMICOLON; SPACE]
                                    (cookieEntry kv :: map cookieEntry pairs)).
    rewrite splitOn_app by done. rewrite <- join_cons_head.
    cbn [map]. f_equal.
    rewrite IH; [|done|].
    + by rewrite trim_space_entry by (by apply cookieEntry_trimmed).
    + intros [H|H]; [discriminate|].
      by apply (cookieEntry_no_semicolon kv).
Qed.

(** The cookies [getCookieValue] walks through for a rendered header. *)
Lemma cookies_of_render pairs :
  Forall plainCookie pairs -> pairs <> [] ->
  map trim (splitOn SEMICOLON (renderCookies pairs)) = map cookieEntry pairs.
Proof.
  intros Hall Hne. unfold renderCookies.
  destruct pairs as [|kv pairs]; [done|].
  apply Forall_cons in Hall as [Hkv Hall]. cbn [map].
  rewrite cookies_after; [|done|by apply cookieEntry_no_semicolon].
  f_equal. by apply trimmed_trim, cookieEntry_trimmed.
Qed.

Lemma findCookie_entries name pairs :
  Forall plainCookie pairs ->
  findCookie name (map cookieEntry pairs)
  = snd <$> find (fun kv => jsstring_eqb (fst kv) name) pairs.
Proof.
  induction pairs as [|kv pairs IH]; intros Hall; [done|].
  apply Forall_cons in Hall as [Hkv Hall]. cbn [map findCookie find].
  unfold cookieEntry at 1.
  change (fst kv ++ [EQUALS] ++ snd kv) with (fst kv ++ EQUALS :: snd kv).
  rewrite splitOn_app by apply Hkv. rewrite join_splitOn.
  destruct (jsstring_eqb (fst kv) name); [done|by apply IH].
Qed.

(** X11: for a cookie header of plain [name=value] pairs separated by
    [; ], [getCookieValue] returns the value of the first pair with the
    name asked for -- whole, also when the value holds [=] signs -- and
    nothing when no pair has that name or there is no header. *)
Theorem getCookieValue_lookup (pairs : list (jsstring * jsstring))
    (name : jsstring) :
  Forall plainCookie pairs ->
  getCookieValue (Some (renderCookies pairs)) name
  = snd <$> find (fun kv => jsstring_eqb (fst kv) name) pairs
  /\ getCookieValue None name = None
  /\ getCookieValue (Some []) name = None.
Proof.
  intros Hall. split; [|done].
  destruct pairs as [|kv pairs]; [done|].
  unfold getCookieValue.
  destruct (renderCookies (kv :: pairs)) as [|c header] eqn:E.
  - exfalso. unfold renderCookies in E. cbn [map] in E.
    assert (H : In EQUALS (join [SEMICOLON; SPACE]
                             (cookieEntry kv :: map cookieEntry pairs))).
    { apply join_In_first. unfold cookieEntry. apply in_or_app. right.
      by left. }
    rewrite E in H. destruct H.
  - rewrite <- E, cookies_of_render by done. by apply findCookie_entries.
Qed.

Lemma plainCookie_check kv :
  forallb (fun c => negb (c =? SEMICOLON)%N && negb (c =? EQUALS)%N) (fst kv)
  = true ->
  forallb (fun c => negb (c =? SEMICOLON)%N) (snd kv) = true ->
  dropWhile isWhiteSpace (fst kv) = fst kv ->
  dropWhile isWhiteSpace (reverse (snd kv)) = reverse (snd kv) ->
  plainCookie kv.
Proof.
  intros Hk Hv H1 H2. rewrite forallb_forall in Hk, Hv.
  repeat split; try done.
  - intros H. apply Hk in H. by rewrite N.eqb_refl in H.
  - intros H. apply Hk in H. rewrite N.eqb_refl in H.
    by rewrite andb_false_r in H.
  - intros H. apply Hv in H. by rewrite N.eqb_refl in H.
Qed.

Lemma getCookieValue_lookup_witness :
  getCookieValue (Some (renderCookies sampleCookies)) (js "research-auth")
  = Some (js "abc.def==").
Proof.
  apply (getCookieValue_lookup sampleCookies (js "research-auth")).
  repeat apply Forall_cons_2; try apply Forall_nil_2;
    apply plainCookie_check; reflexivity.
Defined.

(** ** Session and participant tokens *)

(** X12: [verifySessionToken] accepts a token exactly when it is not
    empty, a signing secret is configured, the token verifies under that
    secret and its payload has the type [session]; a verified token of
    any other type, such as a participant token, is refused. *)
Theorem verifySessionToken_accepts (env : Env)
    (jwtVerify : jsstring -> jsstring -> VerifyOutcome) (token : jsstring) :
  verifySessionToken env jwtVerify token = true <->
  token <> []
  /\ exists secret payload,
       getSecret env = Ok secret
       /\ jwtVerify token secret = Verified payload
       /\ propertyOf payload (js "type") = Some (JStr (js "session")).
Proof.
  unfold verifySessionToken. destruct token as [|c token].
  { split; [done|]. by intros [H _]. }
  destruct (getSecret env) as [secret|e].
  2:{ split; [done|]. by intros (_ & s & p & H & _). }
  destruct (jwtVerify (c :: token) secret) as [payload| |] eqn:Ev.
  - destruct (propertyOf payload (js "type")) as [[| | |t| |]|] eqn:Et;
      try (split; [done|];
           intros (_ & s & p & [= <-] & Hv & Hp); rewrite Ev in Hv;
           injection Hv as <-; congruence).
    split.
    + intros H. apply jsstring_eqb_eq in H. subst t.
      split; [done|]. by exists secret, payload.
    + intros (_ & s & p & [= <-] & Hv & Hp). rewrite Ev in Hv.
      injection Hv as <-. rewrite Et in Hp. injection Hp as ->.
      apply jsstring_eqb_refl.
  - split; [done|]. intros (_ & s & p & [= <-] & Hv & _). congruence.
  - split; [done|]. intros (_ & s & p & [= <-] & Hv & _). congruence.
Qed.

Lemma verifySessionToken_accepts_witness :
  verifySessionToken onlyAdminPassword sampleVerify (js "session-token") = true.
Proof.
  apply (verifySessionToken_accepts onlyAdminPassword sampleVerify).
  split; [discriminate|]. exists (js "hunter2"), sessionPayload.
  repeat split; vm_compute; reflexivity.
Defined.

Lemma participantCheck_access env jwtVerify getStudy request studyId :
  participantCheck env jwtVerify getStudy request
  = Some (ParticipantAccess studyId) ->
  exists token secret payload,
    bearerToken (authorization request) = Some token /\ token <> []
    /\ getParticipantSecret env = Some secret
    /\ jwtVerify token secret = Verified payload
    /\ studyId = propertyOf payload (js "studyId")
    /\ getStudy studyId <> LookupFails
    /\ getStudy studyId <> FoundStudy (Some false).
Proof.
  unfold participantCheck.
  destruct (bearerToken (authorization request)) as [[|c token]|]; try done.
  destruct (getParticipantSecret env) as [secret|]; [|done].
  destruct (jwtVerify (c :: token) secret) as [payload| |] eqn:Ev; try done.
  cbv zeta.
  destruct (getStudy (propertyOf payload (js "studyId"))) as [| |[[|]|]] eqn:Es;
    try done; intros [= <-]; exists (c :: token), secret, payload;
    rewrite Es; by repeat split.
Qed.

(** X13: [verifyParticipantToken] grants participant access only for a
    non-empty bearer token that verifies under the configured
    participant secret, for the study its payload names, and only when
    the lookup of that study succeeds without finding links disabled;
    it grants admin access only when the session cookie holds a token
    that [verifySessionToken] accepts. *)
Theorem verifyParticipantToken_grants (env : Env)
    (jwtVerify : jsstring -> jsstring -> VerifyOutcome)
    (getStudy : option json -> StudyLookup) (request : Request) :
  (forall studyId,
     verifyParticipantToken env jwtVerify getStudy request
     = ParticipantAccess studyId ->
     exists token secret payload,
       bearerToken (authorization request) = Some token /\ token <> []
       /\ getParticipantSecret env = Some secret
       /\ jwtVerify token secret = Verified payload
       /\ studyId = propertyOf payload (js "studyId")
       /\ getStudy studyId <> LookupFails
       /\ getStudy studyId <> FoundStudy (Some false))
  /\ (verifyParticipantToken env jwtVerify getStudy request = AdminAccess ->
      exists sessionToken,
        getCookieValue (cookie request) SESSION_COOKIE_NAME = Some sessionToken
        /\ verifySessionToken env jwtVerify sessionToken = true).
Proof.
  unfold verifyParticipantToken. split.
  - intros studyId H.
    destruct (participantCheck env jwtVerify getStudy request) as [answer|]
      eqn:E.
    + subst answer. by apply participantCheck_access in E.
    + by destruct (hasValidAdminSession env jwtVerify request).
  - intros H.
    destruct (participantCheck env jwtVerify getStudy request) as [answer|]
      eqn:E.
    + subst answer. unfold participantCheck in E.
      destruct (bearerToken _) as [[|c t]|]; try done.
      destruct (getParticipantSecret env); [|done].
      destruct (jwtVerify _ _); try done. cbv zeta in E.
      by destruct (getStudy _) as [| |[[|]|]].
    + unfold hasValidAdminSession in H.
      destruct (getCookieValue (cookie request) SESSION_COOKIE_NAME)
        as [[|c t]|]; try done.
      destruct (verifySessionToken env jwtVerify (c :: t)) eqn:Ev; [|done].
      by exists (c :: t).
Qed.

Lemma verifyParticipantToken_grants_witness :
  exists sessionToken,
    getCookieValue (cookie (adminWithToken "garbage")) SESSION_COOKIE_NAME
    = Some sessionToken
    /\ verifySessionToken onlyAdminPassword sampleVerify sessionToken = true.
Proof.
  apply (verifyParticipantToken_grants onlyAdminPassword sampleVerify linksOff
           (adminWithToken "garbage")).
  reflexivity.
Defined.

(** X14: a verified participant token for a study whose links are
    disabled, and an expired participant token, are refused with their
    own error even when the request also carries a valid admin session;
    a token that fails for any other reason, or a failing study lookup,
    leaves the decision to the admin session. *)
Theorem verifyParticipantToken_precedence (env : Env)
    (jwtVerify : jsstring -> jsstring -> VerifyOutcome)
    (getStudy : option json -> StudyLookup) (request : Request)
    (token secret : jsstring) :
  bearerToken (authorization request) = Some token -> token <> [] ->
  getParticipantSecret env = Some secret ->
  let answer := verifyParticipantToken env jwtVerify getStudy request in
  let adminAnswer :=
    if hasValidAdminSession env jwtVerify request
    then AdminAccess else Denied None in
  (forall payload,
     jwtVerify token secret = Verified payload ->
     getStudy (propertyOf payload (js "studyId")) = FoundStudy (Some false) ->
     answer = Denied (Some linksDisabledError))
  /\ (jwtVerify token secret = TokenExpired ->
      answer = Denied (Some linkExpiredError))
  /\ (jwtVerify token secret = TokenRejected -> answer = adminAnswer)
  /\ (forall payload,
        jwtVerify token secret = Verified payload ->
        getStudy (propertyOf payload (js "studyId")) = LookupFails ->
        answer = adminAnswer).
Proof.
  intros Hb Hne Hs. cbv zeta.
  unfold verifyParticipantToken, participantCheck. rewrite Hb, Hs.
  destruct token as [|c token]; [done|].
  repeat split.
  - intros payload -> Hst. cbv zeta. by rewrite Hst.
  - by intros ->.
  - by intros ->.
  - intros payload -> Hst. cbv zeta. by rewrite Hst.
Qed.

Lemma verifyParticipantToken_precedence_witness :
  verifyParticipantToken onlyAdminPassword sampleVerify linksOff
    (adminWithToken "participant-token")
  = Denied (Some linksDisabledError)
  /\ verifyParticipantToken onlyAdminPassword sampleVerify linksOff
       (adminWithToken "old-token")
     = Denied (Some linkExpiredError)
  /\ verifyParticipantToken onlyAdminPassword sampleVerify linksOff
       (adminWithToken "garbage")
     = AdminAccess.
Proof.
  split; [|split].
  - pose proof (verifyParticipantToken_precedence onlyAdminPassword
                  sampleVerify linksOff (adminWithToken "participant-token")
                  (js "participant-token") (js "hunter2") eq_refl
                  ltac:(discriminate) eq_refl) as H.
    cbv zeta in H. destruct H as (H & _).
    apply (H participantPayload); reflexivity.
  - pose proof (verifyParticipantToken_precedence onlyAdminPassword
                  sampleVerify linksOff (adminWithToken "old-token")
                  (js "old-token") (js "hunter2") eq_refl
                  ltac:(discriminate) eq_refl) as H.
    cbv zeta in H. destruct H as (_ & H & _). apply H. reflexivity.
  - pose proof (verifyParticipantToken_precedence onlyAdminPassword
                  sampleVerify linksOff (adminWithToken "garbage")
                  (js "garbage") (js "hunter2") eq_refl
                  ltac:(discriminate) eq_refl) as H.
    cbv zeta in H. destruct H as (_ & _ & H & _).
    rewrite H by reflexivity. reflexivity.
Defined.

(** ** Researcher login *)

Lemma login_parsed env sign parsed :
  parsed <> JNull ->
  login env sign (Ok parsed) =
  match propertyOf parsed (js "password") with
  | Some (JStr ((_ :: _) as pw)) =>
      match configured (ADMIN_PASSWORD env) with
      | None => {| loginStatus := 500; sessionCookie := None |}
      | Some adminPassword =>
          if jsstring_eqb pw adminPassword
          then match createSessionToken env sign with
               | Ok token => {| loginStatus := 200; sessionCookie := Some token |}
               | Throw _ => {| loginStatus := 500; sessionCookie := None |}
               end
          else {| loginStatus := 401; sessionCookie := None |}
      end
  | _ => {| loginStatus := 400; sessionCookie := None |}
  end.
Proof.
  intros Hnn. unfold login.
  assert (Hget : getProp parsed (js "password")
                 = Ok (propertyOf parsed (js "password")))
    by (by destruct parsed).
  change (Ok parsed ≫= _)
    with (getProp parsed (js "password") ≫=
            (fun password : option json =>
               match password with
               | Some (JStr ((_ :: _) as pw)) =>
                   match configured (ADMIN_PASSWORD env) with
                   | None => Ok {| loginStatus := 500; sessionCookie := None |}
                   | Some adminPassword =>
                       if negb (jsstring_eqb pw adminPassword)
                       then Ok {| loginStatus := 401; sessionCookie := None |}
                       else
                         createSessionToken env sign ≫=
                           (fun token => Ok {| loginStatus := 200;
                                               sessionCookie := Some token |})
                   end
               | _ => Ok {| loginStatus := 400; sessionCookie := None |}
               end)).
  rewrite Hget.
  destruct (propertyOf parsed (js "password")) as [[| | |[|c pw]| |]|];
    try reflexivity.
  change (Ok ?x ≫= ?k) with (k x). cbv beta iota.
  destruct (configured (ADMIN_PASSWORD env)) as [adminPassword|];
    [|reflexivity].
  destruct (jsstring_eqb (c :: pw) adminPassword); [|reflexivity].
  cbn [negb]. cbv iota.
  by destruct (createSessionToken env sign).
Qed.

(** X15: the login route sets the session cookie only when the body
    holds a non-empty string password equal to the configured admin
    password; without an admin password configured it never sets one,
    and it answers 401 exactly for a non-empty string password that
    differs from the configured one. *)
Theorem login_cookie_only_for_password (env : Env)
    (sign : jsstring -> result jsstring) (body : result json) :
  (forall token,
     sessionCookie (login env sign body) = Some token ->
     exists parsed password,
       body = Ok parsed
       /\ propertyOf parsed (js "password") = Some (JStr password)
       /\ password <> []
       /\ configured (ADMIN_PASSWORD env) = Some password
       /\ createSessionToken env sign = Ok token
       /\ loginStatus (login env sign body) = 200)
  /\ (configured (ADMIN_PASSWORD env) = None ->
      sessionCookie (login env sign body) = None)
  /\ (loginStatus (login env sign body) = 401 <->
      exists parsed password adminPassword,
        body = Ok parsed
        /\ propertyOf parsed (js "password") = Some (JStr password)
        /\ password <> []
        /\ configured (ADMIN_PASSWORD env) = Some adminPassword
        /\ password <> adminPassword).
Proof.
  destruct body as [parsed|e].
  2:{ split; [done|]. split; [done|]. split; [done|].
      by intros (p & pw & a & H & _). }
  assert (Hnull : parsed = JNull \/ parsed <> JNull)
    by (destruct parsed; (by left) || (by right)).
  destruct Hnull as [->|Hnn].
  { split; [done|]. split; [done|]. split; [done|].
    by intros (p & pw & a & [= <-] & H & _). }
  rewrite (login_parsed env sign parsed Hnn).
  destruct (propertyOf parsed (js "password")) as [[| | |[|c pw]| |]|] eqn:Ep;
    try (split; [done|]; split; [done|]; split; [done|];
         intros (p & pw' & a & [= <-] & Hp & Hne & _); congruence).
  destruct (configured (ADMIN_PASSWORD env)) as [adminPassword|] eqn:Ea.
  2:{ split; [done|]. split; [done|]. split; [done|].
      by intros (p & pw' & a' & _ & _ & _ & H & _). }
  destruct (jsstring_eqb (c :: pw) adminPassword) eqn:Eq.
  - apply jsstring_eqb_eq in Eq. subst adminPassword.
    destruct (createSessionToken env sign) as [token|e] eqn:Et.
    + split; [|split; [done|]].
      * intros t [= <-]. exists parsed, (c :: pw). by rewrite Ep.
      * split; [done|].
        intros (p & pw' & a' & [= <-] & Hp & _ & [= <-] & Hne).
        rewrite Ep in Hp. by injection Hp as <-.
    + split; [done|]. split; [done|]. split; [done|].
      intros (p & pw' & a' & [= <-] & Hp & _ & [= <-] & Hne).
      rewrite Ep in Hp. by injection Hp as <-.
  - apply jsstring_eqb_neq in Eq.
    split; [done|]. split; [done|]. split; [|done].
    intros _. exists parsed, (c :: pw), adminPassword. by rewrite Ep.
Qed.

Lemma login_cookie_only_for_password_witness :
  sessionCookie
    (login {| SESSION_SECRET := None; ADMIN_PASSWORD := None;
              PARTICIPANT_TOKEN_SECRET := None |}
       (fun _ => Ok (js "signed"))
       (Ok (JObj [(js "password", JStr (js "guess"))])))
  = None.
Proof.
  apply (login_cookie_only_for_password
           {| SESSION_SECRET := None; ADMIN_PASSWORD := None;
              PARTICIPANT_TOKEN_SECRET := None |}).
  reflexivity.
Defined.

(** ** Keys of the store *)

Lemma keyOf_inj (k1 k2 : KeyKind) (id1 id2 : jsstring) :
  keyOf k1 id1 = keyOf k2 id2 ->
  k1 = k2 /\ (takesId k1 = true -> id1 = id2).
Proof.
  destruct k1, k2; cbn; intros H; try discriminate;
    (split; [reflexivity|]); intros Ht; try discriminate;
    by repeat injection H as H.
Qed.

(** X16: the keys of the store never collide: a key of one family
    (interview, study index, link, study links, study, the two global
    sets) is never a key of another, whatever the ids, and within a
    family two keys are equal only for equal ids. *)
Theorem record_keys_disjoint (k1 k2 : KeyKind) (id1 id2 : jsstring) :
  keyOf k1 id1 = keyOf k2 id2 ->
  k1 = k2 /\ (takesId k1 = true -> id1 = id2).
Proof. apply keyOf_inj. Qed.

Lemma record_keys_disjoint_witness :
  InterviewKey = InterviewKey /\ (true = true -> js "a" = js "a").
Proof.
  apply (record_keys_disjoint InterviewKey InterviewKey (js "a") (js "a")).
  reflexivity.
Defined.

(** ** Commands of the store *)

Lemma command_run {A}
    (run : gmap jsstring kvValue -> gmap jsstring (list jsstring) ->
           A * gmap jsstring kvValue * gmap jsstring (list jsstring))
    d s f :
  command run {| data := d; sets := s; faults := f |} =
  match f with
  | true :: later =>
      (Throw BackendError, {| data := d; sets := s; faults := later |})
  | _ =>
      (Ok (run d s).1.1,
       {| data := (run d s).1.2; sets := (run d s).2; faults := tail f |})
  end.
Proof.
  unfold command; cbn. destruct f as [|[] f]; try reflexivity;
    by destruct (run d s) as [[a d'] s'].
Qed.

Ltac run_command :=
  match goal with
  | |- context [command ?r {| data := ?d; sets := ?s; faults := ?f |}] =>
      rewrite (command_run r d s f); cbn [fst snd tail]
  end.

Lemma kvGetAll_run prefix ids d s f :
  exists r f',
    kvGetAll prefix ids {| data := d; sets := s; faults := f |} =
      (r, {| data := d; sets := s; faults := f' |}) /\
    (r = Ok (map (fun id => d !! (prefix ++ id)) ids) \/
     r = Throw BackendError) /\
    (f = [] -> f' = [] /\ r = Ok (map (fun id => d !! (prefix ++ id)) ids)).
Proof.
  revert f. induction ids as [|id ids IH]; intros f.
  - exists (Ok []), f. cbn. split; [done|]. split; [by left|done].
  - cbn [kvGetAll]. unfold kvGet. rewrite command_run.
    destruct f as [|[] f]; cbn.
    + destruct (IH []) as (r & f' & -> & _ & Hcalm).
      destruct (Hcalm eq_refl) as [-> ->].
      eexists _, _. split; [reflexivity|]. cbn. split; [by left|done].
    + destruct (IH f) as (r & f' & -> & _ & _).
      eexists _, _. split; [reflexivity|]. cbn. split; [by right|done].
    + destruct (IH f) as (r & f' & -> & [->| ->] & _);
        eexists _, _; (split; [reflexivity|]); cbn;
        (split; [by (left + right)|done]).
Qed.

Lemma present_map {A} (f : A -> option kvValue) l :
  present (map f l) = omap f l.
Proof.
  unfold present. induction l as [|x l IH]; [done|].
  cbn. rewrite IH. by destruct (f x).
Qed.

Lemma insertNewest_perm x l : insertNewest x l ≡ₚ x :: l.
Proof.
  induction l as [|y l IH]; [done|]. cbn.
  destruct (createdAtOf y <=? createdAtOf x); [done|].
  rewrite IH. apply Permutation_swap.
Qed.

Lemma sortNewestFirst_perm l : sortNewestFirst l ≡ₚ l.
Proof.
  induction l as [|x l IH]; [done|]. cbn.
  rewrite insertNewest_perm. by rewrite IH.
Qed.

Lemma insertNewest_sorted x l :
  newestFirst l -> newestFirst (insertNewest x l).
Proof.
  unfold newestFirst. induction l as [|y l IH]; intros Hs; cbn.
  - repeat constructor.
  - apply StronglySorted_inv in Hs as [Hl Hy].
    destruct (createdAtOf y <=? createdAtOf x) eqn:E.
    + apply Z.leb_le in E. constructor; [by constructor|].
      constructor; [done|].
      eapply List.Forall_impl; [|exact Hy]. cbn. lia.
    + apply Z.leb_gt in E. constructor; [by apply IH|].
      eapply Permutation_Forall; [symmetry; apply insertNewest_perm|].
      constructor; [lia|done].
Qed.

Lemma sortNewestFirst_sorted l : newestFirst (sortNewestFirst l).
Proof.
  induction l as [|x l IH]; cbn.
  - constructor.
  - by apply insertNewest_sorted.
Qed.

Lemma listRecords_run setKey prefix d s f :
  exists l f',
    listRecords setKey prefix {| data := d; sets := s; faults := f |} =
      (Ok l, {| data := d; sets := s; faults := f' |}) /\
    (l = [] \/
     l = sortNewestFirst
           (recordsOf {| data := d; sets := s; faults := f |} setKey prefix)) /\
    (f = [] ->
     f' = [] /\
     l = sortNewestFirst
           (recordsOf {| data := d; sets := s; faults := f |} setKey prefix)).
Proof.
  unfold listRecords, tryK, recordsOf, kvSmembers. unfold mbind, K_bind.
  run_command. cbn [data sets].
  destruct f as [|[] f]; cbn [fst snd tail].
  - destruct (members s setKey) as [|id ids] eqn:E.
    + eexists _, _. cbn. split; [reflexivity|]. split; [by left|done].
    + destruct (kvGetAll_run prefix (id :: ids) d s [])
        as (r & f' & Hrun & _ & Hcalm).
      destruct (Hcalm eq_refl) as [-> ->]. rewrite Hrun.
      eexists _, _. cbn [mret K_ret]. split; [reflexivity|].
      rewrite present_map. split; [by right|done].
  - eexists _, _. cbn. split; [reflexivity|]. split; [by left|done].
  - destruct (members s setKey) as [|id ids] eqn:E.
    + eexists _, _. cbn. split; [reflexivity|]. split; [by left|done].
    + destruct (kvGetAll_run prefix (id :: ids) d s f)
        as (r & f' & Hrun & [->| ->] & _); rewrite Hrun.
      * eexists _, _. cbn [mret K_ret]. split; [reflexivity|].
        rewrite present_map. split; [by right|done].
      * eexists _, _. cbn [mret K_ret]. split; [reflexivity|].
        split; [by left|done].
Qed.

(** X17: whatever commands fail, [getStudyInterviews] returns a list and
    leaves the records and the sets as they were; the list is ordered
    newest first; it is empty or holds exactly the records found under
    the ids of the study's index (ids without a record are skipped), and
    it is the latter when no command fails. *)
Theorem getStudyInterviews_listing (studyId : jsstring) (st : KV) :
  exists l st',
    getStudyInterviews studyId st = (Ok l, st') /\
    data st' = data st /\ sets st' = sets st /\
    newestFirst l /\
    (l = [] \/
     l ≡ₚ recordsOf st (STUDY_INDEX_PREFIX ++ studyId) INTERVIEW_PREFIX) /\
    (faults st = [] ->
     l ≡ₚ recordsOf st (STUDY_INDEX_PREFIX ++ studyId) INTERVIEW_PREFIX).
Proof.
  destruct st as [d s f]. unfold getStudyInterviews.
  destruct (listRecords_run (STUDY_INDEX_PREFIX ++ studyId) INTERVIEW_PREFIX
              d s f) as (l & f' & Hrun & Hl & Hcalm).
  exists l, {| data := d; sets := s; faults := f' |}.
  split; [exact Hrun|]. split; [done|]. split; [done|].
  split; [|split].
  - destruct Hl as [->| ->]; [constructor|apply sortNewestFirst_sorted].
  - destruct Hl as [->| ->]; [by left|right; apply sortNewestFirst_perm].
  - intros Hf. cbn in Hf. destruct (Hcalm Hf) as [_ ->].
    apply sortNewestFirst_perm.
Qed.

Lemma getStudyInterviews_listing_witness :
  exists l,
    (getStudyInterviews (js "s1") sampleKV).1 = Ok l /\
    newestFirst l /\
    l ≡ₚ [KInterview (sampleInterview "a" 10);
          KInterview (sampleInterview "b" 20)].
Proof.
  destruct (getStudyInterviews_listing (js "s1") sampleKV)
    as (l & st' & Hrun & _ & _ & Hsorted & _ & Hcalm).
  exists l. split; [by rewrite Hrun|]. split; [exact Hsorted|].
  exact (Hcalm eq_refl).
Defined.

(** ** Sets of the store *)

Lemma elem_of_members_sadd s k m k' x :
  x ∈ members (sadd s k m) k' <-> x ∈ members s k' \/ (k' = k /\ x = m).
Proof.
  unfold sadd. case_bool_decide as Hin.
  - split; [by left|]. intros [H|[-> ->]]; done.
  - unfold members at 1. destruct (decide (k' = k)) as [->|Hne].
    + rewrite lookup_insert_eq. cbn. rewrite elem_of_app, list_elem_of_singleton.
      split; intros [H|H]; [by left|by right|by left|right; by destruct H].
    + rewrite lookup_insert_ne by done. fold (members s k').
      split; [by left|]. intros [H|[H _]]; done.
Qed.

Lemma elem_of_members_srem s k m k' x :
  x ∈ members (srem s k m) k' <-> x ∈ members s k' /\ ~ (k' = k /\ x = m).
Proof.
  unfold srem. unfold members at 1. destruct (decide (k' = k)) as [->|Hne].
  - rewrite lookup_insert_eq. cbn. rewrite list_elem_of_In, List.filter_In.
    rewrite <- list_elem_of_In, negb_true_iff, jsstring_eqb_neq.
    split; intros [H1 H2]; (split; [done|]); [by intros [_ ?]|].
    intros ->. by apply H2.
  - rewrite lookup_insert_ne by done. fold (members s k').
    split; [|by intros [? _]]. intros H. split; [done|]. by intros [? _].
Qed.

(** ** Saving and reading interviews *)

Lemma saveInterview_calm (i : StoredInterview) d s :
  saveInterview i {| data := d; sets := s; faults := [] |} =
  (Ok {| success := true;
         isNew := match d !! (INTERVIEW_PREFIX ++ si_id i) with
                  | Some _ => false
                  | None => true
                  end |},
   {| data := <[INTERVIEW_PREFIX ++ si_id i := KInterview i]> d;
      sets := sadd (sadd s (STUDY_INDEX_PREFIX ++ si_studyId i) (si_id i))
                ALL_INTERVIEWS_KEY (si_id i);
      faults := [] |}).
Proof.
  unfold saveInterview, tryK, kvExists, kvSet, kvSadd. unfold mbind, K_bind.
  repeat run_command. cbn [mret K_ret].
  unfold jsstring in *. by case_match.
Qed.

Lemma getInterview_calm id d s :
  getInterview id {| data := d; sets := s; faults := [] |} =
  (Ok (d !! (INTERVIEW_PREFIX ++ id)),
   {| data := d; sets := s; faults := [] |}).
Proof. unfold getInterview, tryK, kvGet. by run_command. Qed.

(** X18: on a store whose commands do not fail, [saveInterview] reports
    success, and [isNew] exactly when no interview was stored under the
    id; afterwards [getInterview] returns the saved interview,
    [getStudyInterviews] of its study and [getAllInterviews] list it, and
    [getInterview] of every other id returns what it returned before. *)
Theorem saveInterview_then_read (i : StoredInterview) (st : KV) :
  faults st = [] ->
  exists r st' ofStudy all,
    saveInterview i st = (Ok r, st') /\
    success r = true /\
    (isNew r = true <-> (getInterview (si_id i) st).1 = Ok None) /\
    getInterview (si_id i) st' = (Ok (Some (KInterview i)), st') /\
    getStudyInterviews (si_studyId i) st' = (Ok ofStudy, st') /\
    KInterview i ∈ ofStudy /\
    getAllInterviews st' = (Ok all, st') /\
    KInterview i ∈ all /\
    (forall id, id <> si_id i ->
       (getInterview id st').1 = (getInterview id st).1).
Proof.
  destruct st as [d s f]. cbn [faults data sets]. intros ->.
  rewrite saveInterview_calm.
  set (d' := <[INTERVIEW_PREFIX ++ si_id i := KInterview i]> d).
  set (s' := sadd (sadd s (STUDY_INDEX_PREFIX ++ si_studyId i) (si_id i))
               ALL_INTERVIEWS_KEY (si_id i)).
  assert (Hstored : d' !! (INTERVIEW_PREFIX ++ si_id i) = Some (KInterview i))
    by apply lookup_insert_eq.
  assert (Hlisted : forall setKey,
            si_id i ∈ members s' setKey ->
            exists l,
              listRecords setKey INTERVIEW_PREFIX
                {| data := d'; sets := s'; faults := [] |} =
                (Ok l, {| data := d'; sets := s'; faults := [] |}) /\
              KInterview i ∈ l).
  { intros setKey Hin.
    destruct (listRecords_run setKey INTERVIEW_PREFIX d' s' [])
      as (l & f' & Hrun & _ & Hcalm).
    destruct (Hcalm eq_refl) as [-> ->].
    eexists. split; [exact Hrun|].
    rewrite sortNewestFirst_perm. unfold recordsOf. cbn [data sets].
    apply list_elem_of_omap. by exists (si_id i). }
  destruct (Hlisted (STUDY_INDEX_PREFIX ++ si_studyId i)) as (l1 & Hl1 & Hin1).
  { subst s'. rewrite !elem_of_members_sadd. left. right. done. }
  destruct (Hlisted ALL_INTERVIEWS_KEY) as (l2 & Hl2 & Hin2).
  { subst s'. rewrite !elem_of_members_sadd. right. done. }
  eexists _, _, l1, l2. split; [reflexivity|]. cbn [success isNew].
  rewrite !getInterview_calm. cbn [fst].
  split; [done|]. split.
  { destruct (d !! (INTERVIEW_PREFIX ++ si_id i)); split; congruence. }
  split; [by rewrite Hstored|].
  split; [exact Hl1|]. split; [exact Hin1|].
  split; [exact Hl2|]. split; [exact Hin2|].
  intros id Hne. rewrite !getInterview_calm. cbn [fst]. f_equal.
  subst d'. apply lookup_insert_ne. intros H. apply app_inv_head in H. done.
Qed.

Lemma saveInterview_then_read_witness :
  exists r,
    (saveInterview (sampleInterview "c" 30) sampleKV).1 = Ok r /\
    success r = true /\ isNew r = true.
Proof.
  destruct (saveInterview_then_read (sampleInterview "c" 30) sampleKV eq_refl)
    as (r & st' & l1 & l2 & Hrun & Hs & Hnew & _).
  exists r. split; [by rewrite Hrun|]. split; [exact Hs|].
  apply Hnew. reflexivity.
Defined.

(** X19: whatever commands fail, [saveInterview] returns a result and
    does not throw; it reports success exactly when none of its four
    commands fails, and then the interview is stored under its key and
    its id is in the study's index and in [all-interviews]; records under
    other keys are never touched. *)
Theorem saveInterview_reports (i : StoredInterview) (st : KV) :
  exists r st',
    saveInterview i st = (Ok r, st') /\
    success r = faultFree 4 (faults st) /\
    (success r = true ->
     data st' !! (INTERVIEW_PREFIX ++ si_id i) = Some (KInterview i) /\
     si_id i ∈ members (sets st') (STUDY_INDEX_PREFIX ++ si_studyId i) /\
     si_id i ∈ members (sets st') ALL_INTERVIEWS_KEY) /\
    (success r = false -> isNew r = false) /\
    (forall key, key <> INTERVIEW_PREFIX ++ si_id i ->
       data st' !! key = data st !! key).
Proof.
  destruct st as [d s f].
  unfold saveInterview, tryK, kvExists, kvSet, kvSadd. unfold mbind, K_bind.
  destruct f as [|[] [|[] [|[] [|[] f]]]]; repeat run_command;
    cbn [mret K_ret]; eexists _, _; (split; [reflexivity|]);
    cbn [success isNew data sets faults]; (split; [reflexivity|]);
    (split; [|split; [done|]]);
    try (intros Hs; discriminate Hs);
    try (intros key Hne; first [reflexivity | by apply lookup_insert_ne]);
    intros _; (split; [apply lookup_insert_eq|]);
    rewrite !elem_of_members_sadd; (split; [left; right; done|right; done]).
Qed.

Lemma saveInterview_reports_witness :
  exists r st',
    saveInterview (sampleInterview "c" 30)
      (withFaults sampleKV [false; false; false; true]) = (Ok r, st') /\
    success r = false /\ isNew r = false.
Proof.
  destruct (saveInterview_reports (sampleInterview "c" 30)
              (withFaults sampleKV [false; false; false; true]))
    as (r & st' & Hrun & Hs & _ & Hnew & _).
  exists r, st'. split; [exact Hrun|]. split; [exact Hs|].
  apply Hnew. exact Hs.
Defined.

(** X20: a save that is reported as failed may have been carried out in
    part: when the first two commands succeed and a later one fails,
    [saveInterview] reports failure, yet the interview is stored under
    its key, while [all-interviews] has not gained its id. *)
Theorem saveInterview_partial_write (i : StoredInterview) (st : KV) :
  faultFree 2 (faults st) = true ->
  faultFree 4 (faults st) = false ->
  exists st',
    saveInterview i st = (Ok {| success := false; isNew := false |}, st') /\
    data st' !! (INTERVIEW_PREFIX ++ si_id i) = Some (KInterview i) /\
    members (sets st') ALL_INTERVIEWS_KEY =
      members (sets st) ALL_INTERVIEWS_KEY.
Proof.
  destruct st as [d s f]. cbn [faults]. intros H2 H4.
  unfold saveInterview, tryK, kvExists, kvSet, kvSadd. unfold mbind, K_bind.
  destruct f as [|[] [|[] [|[] [|[] f]]]]; cbn in H2, H4;
    try discriminate H2; try discriminate H4;
    repeat run_command; cbn [mret K_ret]; eexists;
    (split; [reflexivity|]); cbn [data sets];
    (split; [apply lookup_insert_eq|]); try reflexivity.
  unfold sadd. case_bool_decide; [done|].
  unfold members at 1. rewrite lookup_insert_ne; [done|].
  intros Hk. by apply (keyOf_inj StudyIndexKey AllInterviews _ []) in Hk as [? _].
Qed.

Lemma saveInterview_partial_write_witness :
  exists st',
    saveInterview (sampleInterview "c" 30)
      (withFaults sampleKV [false; false; true]) =
      (Ok {| success := false; isNew := false |}, st') /\
    data st' !! (INTERVIEW_PREFIX ++ js "c") =
      Some (KInterview (sampleInterview "c" 30)) /\
    members (sets st') ALL_INTERVIEWS_KEY = [js "a"; js "gone"; js "b"].
Proof.
  exact (saveInterview_partial_write (sampleInterview "c" 30)
           (withFaults sampleKV [false; false; true]) eq_refl eq_refl).
Defined.

(** ** Deleting *)

Lemma deleteInterview_calm id studyId d s :
  deleteInterview id studyId {| data := d; sets := s; faults := [] |} =
  (Ok true,
   {| data := delete (INTERVIEW_PREFIX ++ id) d;
      sets := srem (srem s (STUDY_INDEX_PREFIX ++ studyId) id)
                ALL_INTERVIEWS_KEY id;
      faults := [] |}).
Proof.
  unfold deleteInterview, tryK, kvDel, kvSrem. unfold mbind, K_bind.
  by repeat run_command.
Qed.

(** X21: on a store whose commands do not fail, [deleteInterview]
    returns [true]; afterwards [getInterview] of the id returns [null],
    the id is neither in the given study's index nor in
    [all-interviews], and [getInterview] of every other id returns what
    it returned before. *)
Theorem deleteInterview_then_read (id studyId : jsstring) (st : KV) :
  faults st = [] ->
  exists st',
    deleteInterview id studyId st = (Ok true, st') /\
    getInterview id st' = (Ok None, st') /\
    (id ∉ members (sets st') (STUDY_INDEX_PREFIX ++ studyId)) /\
    (id ∉ members (sets st') ALL_INTERVIEWS_KEY) /\
    (forall other, other <> id ->
       (getInterview other st').1 = (getInterview other st).1).
Proof.
  destruct st as [d s f]. cbn [faults data sets]. intros ->.
  rewrite deleteInterview_calm. eexists. split; [reflexivity|].
  rewrite getInterview_calm. cbn [sets].
  split; [by rewrite lookup_delete_eq|].
  split; [|split].
  - rewrite !elem_of_members_srem. intros [[_ Hn] _]. by apply Hn.
  - rewrite !elem_of_members_srem. intros [_ Hn]. by apply Hn.
  - intros other Hne. rewrite !getInterview_calm. cbn [fst]. f_equal.
    apply lookup_delete_ne. intros H. apply app_inv_head in H. done.
Qed.

Lemma deleteInterview_then_read_witness :
  exists st',
    deleteInterview (js "a") (js "s1") sampleKV = (Ok true, st') /\
    getInterview (js "a") st' = (Ok None, st') /\
    (getInterview (js "b") st').1 =
      Ok (Some (KInterview (sampleInterview "b" 20))).
Proof.
  destruct (deleteInterview_then_read (js "a") (js "s1") sampleKV eq_refl)
    as (st' & Hrun & Hget & _ & _ & Hother).
  exists st'. split; [exact Hrun|]. split; [exact Hget|].
  rewrite (Hother (js "b")); [reflexivity|discriminate].
Defined.

(** X22: saving a new interview and deleting it again leaves the store
    as it was to every reader: on a store whose commands do not fail and
    that neither holds the interview nor lists its id, after
    [saveInterview] followed by [deleteInterview] every key holds what it
    held and every set has the members it had. *)
Theorem saveInterview_deleteInterview (i : StoredInterview) (st : KV) :
  faults st = [] ->
  data st !! (INTERVIEW_PREFIX ++ si_id i) = None ->
  si_id i ∉ members (sets st) (STUDY_INDEX_PREFIX ++ si_studyId i) ->
  si_id i ∉ members (sets st) ALL_INTERVIEWS_KEY ->
  exists st1 st2,
    saveInterview i st = (Ok {| success := true; isNew := true |}, st1) /\
    deleteInterview (si_id i) (si_studyId i) st1 = (Ok true, st2) /\
    (forall key, data st2 !! key = data st !! key) /\
    (forall key x, x ∈ members (sets st2) key <-> x ∈ members (sets st) key).
Proof.
  destruct st as [d s f]. cbn [faults data sets]. intros -> Hnew Hidx Hall.
  rewrite saveInterview_calm. unfold jsstring in *. rewrite Hnew.
  eexists _, _. split; [reflexivity|].
  rewrite deleteInterview_calm. split; [reflexivity|]. cbn [data sets].
  split.
  - intros key. destruct (decide (key = INTERVIEW_PREFIX ++ si_id i)) as [->|Hne].
    + by rewrite lookup_delete_eq, Hnew.
    + by rewrite lookup_delete_ne, lookup_insert_ne.
  - intros key x. rewrite !elem_of_members_srem, !elem_of_members_sadd.
    split.
    + intros [[[[H|[-> ->]]|[-> ->]] Hn1] Hn2]; [done|by destruct Hn1|].
      by destruct Hn2.
    + intros H. repeat split; [by do 2 left| |]; intros [-> ->]; done.
Qed.

Lemma saveInterview_deleteInterview_witness :
  exists st1 st2,
    saveInterview (sampleInterview "c" 30) sampleKV =
      (Ok {| success := true; isNew := true |}, st1) /\
    deleteInterview (js "c") (js "s1") st1 = (Ok true, st2) /\
    (forall key, data st2 !! key = data sampleKV !! key) /\
    (forall key x,
       x ∈ members (sets st2) key <-> x ∈ members (sets sampleKV) key).
Proof.
  apply (saveInterview_deleteInterview (sampleInterview "c" 30) sampleKV).
  - reflexivity.
  - reflexivity.
  - vm_compute. intros H. by repeat (apply elem_of_cons in H as [H|H]; [discriminate H|]); apply elem_of_nil in H.
  - vm_compute. intros H. by repeat (apply elem_of_cons in H as [H|H]; [discriminate H|]); apply elem_of_nil in H.
Defined.

(** X23: [deleteStudy] never removes a study that has interviews:
    whatever commands fail, it returns a result; if the study's index has
    a member it reports failure and leaves every record and set as it
    was; if it reports success, the index was empty, no record is left
    under the study's key and its id is no longer in [all-studies]. *)
Theorem deleteStudy_guard (id : jsstring) (st : KV) :
  exists r st',
    deleteStudy id st = (Ok r, st') /\
    (members (sets st) (STUDY_INDEX_PREFIX ++ id) <> [] ->
     deleted r = false /\ deleteError r <> None /\
     data st' = data st /\ sets st' = sets st) /\
    (deleted r = true ->
     members (sets st) (STUDY_INDEX_PREFIX ++ id) = [] /\
     data st' !! (STUDY_PREFIX ++ id) = None /\
     (id ∉ members (sets st') ALL_STUDIES_KEY)).
Proof.
  destruct st as [d s f].
  unfold deleteStudy, tryK, kvSmembers, kvDel, kvSrem. unfold mbind, K_bind.
  cbn [data sets].
  destruct (members s (STUDY_INDEX_PREFIX ++ id)) as [|x xs] eqn:E.
  - destruct f as [|[] [|[] [|[] f]]]; repeat run_command; rewrite ?E;
      repeat run_command; cbn [mret K_ret]; eexists _, _;
      (split; [reflexivity|]); cbn [deleted deleteError data sets];
      (split; [done|]); try (intros Hs; discriminate Hs);
      intros _; (split; [done|]); (split; [apply lookup_delete_eq|]);
      rewrite elem_of_members_srem; intros [_ Hn]; by apply Hn.
  - destruct f as [|[] f]; run_command; rewrite ?E; cbn [mret K_ret];
      eexists _, _; (split; [reflexivity|]); cbn [deleted deleteError data sets];
      (split; [done|]); intros Hs; discriminate Hs.
Qed.

Lemma deleteStudy_guard_witness :
  exists r st',
    deleteStudy (js "s1") sampleKV = (Ok r, st') /\
    deleted r = false /\
    data st' !! (STUDY_PREFIX ++ js "s1") = Some (KStudy sampleStudy).
Proof.
  destruct (deleteStudy_guard (js "s1") sampleKV)
    as (r & st' & Hrun & Hguard & _).
  destruct Hguard as (Hd & _ & Hdata & _); [discriminate|].
  exists r, st'. split; [exact Hrun|]. split; [exact Hd|].
  rewrite Hdata. reflexivity.
Defined.

(** ** Updating a study *)

Lemma getStudy_calm id d s :
  getStudy id {| data := d; sets := s; faults := [] |} =
  (Ok (d !! (STUDY_PREFIX ++ id)), {| data := d; sets := s; faults := [] |}).
Proof. unfold getStudy, tryK, kvGet. by run_command. Qed.

Lemma saveStudy_calm study d s :
  saveStudy study {| data := d; sets := s; faults := [] |} =
  (Ok true,
   {| data := <[STUDY_PREFIX ++ ss_id study := KStudy study]> d;
      sets := sadd s ALL_STUDIES_KEY (ss_id study);
      faults := [] |}).
Proof.
  unfold saveStudy, tryK, kvSet, kvSadd. unfold mbind, K_bind.
  by repeat run_command.
Qed.

Lemma lockStudy_calm studyId now d s study :
  d !! (STUDY_PREFIX ++ studyId) = Some (KStudy study) ->
  lockStudy studyId now {| data := d; sets := s; faults := [] |} =
  if isLocked study
  then (Ok true, {| data := d; sets := s; faults := [] |})
  else saveStudy (withLock study now)
         {| data := d; sets := s; faults := [] |}.
Proof.
  intros Hget. unfold lockStudy, tryK. unfold mbind, K_bind.
  rewrite getStudy_calm. unfold jsstring in *. rewrite Hget.
  destruct (isLocked study); [reflexivity|].
  by rewrite saveStudy_calm.
Qed.

(** X24: on a store whose commands do not fail and that holds a study
    under its own id, [lockStudy] returns [true] and afterwards
    [getStudy] returns the study locked, with its configuration, creation
    time and interview count as before; a study that was locked already
    is not written again, and locking a second time changes nothing. *)
Theorem lockStudy_locks (studyId : jsstring) (now : Z) (st : KV)
    (study : StoredStudy) :
  faults st = [] ->
  data st !! (STUDY_PREFIX ++ studyId) = Some (KStudy study) ->
  ss_id study = studyId ->
  exists st' locked,
    lockStudy studyId now st = (Ok true, st') /\
    getStudy studyId st' = (Ok (Some (KStudy locked)), st') /\
    isLocked locked = true /\
    config locked = config study /\
    ss_createdAt locked = ss_createdAt study /\
    interviewCount locked = interviewCount study /\
    (isLocked study = true -> st' = st) /\
    (forall later, lockStudy studyId later st' = (Ok true, st')).
Proof.
  destruct st as [d s f]. cbn [faults data sets]. intros -> Hget Hid.
  rewrite (lockStudy_calm studyId now d s study Hget).
  destruct (isLocked study) eqn:Hlocked.
  - exists {| data := d; sets := s; faults := [] |}, study.
    split; [reflexivity|]. rewrite getStudy_calm.
    split; [by unfold jsstring in *; rewrite Hget|].
    repeat (split; [done|]).
    intros later. rewrite (lockStudy_calm studyId later d s study Hget).
    by rewrite Hlocked.
  - rewrite saveStudy_calm. cbn [withLock ss_id]. rewrite Hid.
    eexists _, (withLock study now). split; [reflexivity|].
    rewrite getStudy_calm.
    split; [by unfold jsstring in *; rewrite lookup_insert_eq|].
    repeat (split; [done|]).
    intros later.
    rewrite (lockStudy_calm studyId later _ _ (withLock study now)); [done|].
    apply lookup_insert_eq.
Qed.

Lemma lockStudy_locks_witness :
  exists st' locked,
    lockStudy (js "s1") 99 sampleKV = (Ok true, st') /\
    getStudy (js "s1") st' = (Ok (Some (KStudy locked)), st') /\
    isLocked locked = true.
Proof.
  destruct (lockStudy_locks (js "s1") 99 sampleKV sampleStudy
              eq_refl eq_refl eq_refl)
    as (st' & locked & Hrun & Hget & Hlocked & _).
  exists st', locked. split; [exact Hrun|]. split; [exact Hget|exact Hlocked].
Defined.

(** X25: on a store whose commands do not fail and that holds a study
    under its own id, [incrementStudyInterviewCount] returns [true] and
    afterwards [getStudy] returns the study with its interview count one
    higher and its lock and configuration as before, and the study's id
    is in [all-studies]; the records under other keys are as before. *)
Theorem incrementStudyInterviewCount_adds_one (studyId : jsstring) (now : Z)
    (st : KV) (study : StoredStudy) :
  faults st = [] ->
  data st !! (STUDY_PREFIX ++ studyId) = Some (KStudy study) ->
  ss_id study = studyId ->
  exists st' counted,
    incrementStudyInterviewCount studyId now st = (Ok true, st') /\
    getStudy studyId st' = (Ok (Some (KStudy counted)), st') /\
    interviewCount counted = interviewCount study + 1 /\
    isLocked counted = isLocked study /\
    config counted = config study /\
    studyId ∈ members (sets st') ALL_STUDIES_KEY /\
    (forall key, key <> STUDY_PREFIX ++ studyId ->
       data st' !! key = data st !! key).
Proof.
  destruct st as [d s f]. cbn [faults data sets]. intros -> Hget Hid.
  unfold incrementStudyInterviewCount, tryK. unfold mbind, K_bind.
  rewrite (getStudy_calm studyId d s). unfold jsstring in *. rewrite Hget.
  rewrite saveStudy_calm. cbn [withInterviewCount ss_id]. rewrite Hid.
  eexists _, (withInterviewCount study now). split; [reflexivity|].
  rewrite getStudy_calm. unfold jsstring in *. rewrite lookup_insert_eq.
  repeat (split; [done|]). cbn [data sets]. split.
  - rewrite elem_of_members_sadd. by right.
  - intros key Hne. by apply lookup_insert_ne.
Qed.

Lemma incrementStudyInterviewCount_adds_one_witness :
  exists st' counted,
    incrementStudyInterviewCount (js "s1") 99 sampleKV = (Ok true, st') /\
    getStudy (js "s1") st' = (Ok (Some (KStudy counted)), st') /\
    interviewCount counted = 1.
Proof.
  destruct (incrementStudyInterviewCount_adds_one (js "s1") 99 sampleKV
              sampleStudy eq_refl eq_refl eq_refl)
    as (st' & counted & Hrun & Hget & Hcount & _).
  exists st', counted. split; [exact Hrun|]. split; [exact Hget|exact Hcount].
Defined.

(** ** Export *)

Lemma isKVAvailable_run d s f :
  isKVAvailable {| data := d; sets := s; faults := f |} =
  match f with
  | true :: later => (Ok false, {| data := d; sets := s; faults := later |})
  | _ => (Ok true, {| data := d; sets := s; faults := tail f |})
  end.
Proof.
  unfold isKVAvailable, tryK, kvPing. unfold mbind, K_bind. run_command.
  by destruct f as [|[] f].
Qed.

(** The four ways through the route. *)
Lemma exportGET_run (env : Env)
    (jwtVerify : jsstring -> jsstring -> VerifyOutcome)
    (buildArchive : list kvValue -> result jsstring)
    (authCookie : option jsstring) d s f :
  exists r f',
    exportGET env jwtVerify buildArchive authCookie
      {| data := d; sets := s; faults := f |} =
      (Ok r, {| data := d; sets := s; faults := f' |}) /\
    ((presentsSession env jwtVerify authCookie = false /\ f' = f /\
      exists message, r = ExportError 401 message) \/
     (presentsSession env jwtVerify authCookie = true /\
      exists later, f = true :: later /\ f' = later /\
        r = ExportError 400 (js "Storage not configured")) \/
     (presentsSession env jwtVerify authCookie = true /\
      head f <> Some true /\
      exists interviews,
        listRecords ALL_INTERVIEWS_KEY INTERVIEW_PREFIX
          {| data := d; sets := s; faults := tail f |} =
          (Ok interviews, {| data := d; sets := s; faults := f' |}) /\
        match interviews with
        | [] => r = ExportError 404 (js "No interviews to export")
        | _ :: _ =>
            match buildArchive interviews with
            | Ok archive => r = ExportArchive archive
            | Throw _ => r = ExportError 500 (js "Failed to export interviews")
            end
        end)).
Proof.
  unfold exportGET, presentsSession, tryK.
  destruct authCookie as [[|c token]|].
  1, 3: eexists _, _; cbn [mret K_ret]; (split; [reflexivity|]);
    left; (split; [done|]); (split; [done|]); by eexists.
  destruct (verifySessionToken env jwtVerify (c :: token)) eqn:Ev;
    cbn [negb].
  2: { eexists _, _. cbn [mret K_ret]. split; [reflexivity|].
       left. split; [done|]. split; [done|]. by eexists. }
  unfold mbind, K_bind. rewrite isKVAvailable_run. unfold getAllInterviews.
  destruct f as [|[] f]; cbn [negb tail].
  2: { eexists _, _. cbn [mret K_ret]. split; [reflexivity|].
       right; left. split; [done|]. by eexists. }
  all: match goal with
       | |- context [listRecords _ _ {| faults := ?f0 |}] =>
           destruct (listRecords_run ALL_INTERVIEWS_KEY INTERVIEW_PREFIX
                       d s f0) as (l & f' & Hrun & _)
       end;
    rewrite Hrun; destruct l as [|x l];
    [ eexists _, _; cbn [mret K_ret]; (split; [reflexivity|]);
      right; right; (split; [done|]); (split; [done|]);
      exists []; by split
    | destruct (buildArchive (x :: l)) as [archive|e] eqn:Eb;
      eexists _, _; unfold throwK; cbn [mret K_ret];
      (split; [reflexivity|]);
      right; right; (split; [done|]); (split; [done|]);
      exists (x :: l); (split; [done|]); by rewrite Eb ].
Qed.

(** X26: the export route answers and does not throw, and it never
    changes a record or a set.  Without a session cookie that
    [verifySessionToken] accepts it answers 401 and issues no command to
    the store.  It answers with the archive only for an accepted
    session, and then the archive was built from the records found under
    the ids of [all-interviews], newest first, of which there is at least
    one. *)
Theorem exportGET_gate (env : Env)
    (jwtVerify : jsstring -> jsstring -> VerifyOutcome)
    (buildArchive : list kvValue -> result jsstring)
    (authCookie : option jsstring) (st : KV) :
  exists r st',
    exportGET env jwtVerify buildArchive authCookie st = (Ok r, st') /\
    data st' = data st /\ sets st' = sets st /\
    (presentsSession env jwtVerify authCookie = false ->
     st' = st /\ exists message, r = ExportError 401 message) /\
    (forall archive, r = ExportArchive archive ->
     presentsSession env jwtVerify authCookie = true /\
     exists interviews,
       buildArchive interviews = Ok archive /\
       interviews <> [] /\
       newestFirst interviews /\
       interviews ≡ₚ recordsOf st ALL_INTERVIEWS_KEY INTERVIEW_PREFIX).
Proof.
  destruct st as [d s f].
  destruct (exportGET_run env jwtVerify buildArchive authCookie d s f)
    as (r & f' & Hrun & Hcases).
  exists r, {| data := d; sets := s; faults := f' |}.
  split; [exact Hrun|]. split; [done|]. split; [done|].
  destruct Hcases as [(Hno & -> & m & ->)|[(Hyes & later & -> & -> & ->)|
                      (Hyes & Hping & l & Hlist & Hr)]].
  - split; [intros _; split; [done|by eexists]|done].
  - rewrite Hyes. split; done.
  - rewrite Hyes. split; [done|]. intros archive ->. split; [done|].
    destruct (listRecords_run ALL_INTERVIEWS_KEY INTERVIEW_PREFIX d s (tail f))
      as (l' & f'' & Hrun' & Hl & _).
    rewrite Hrun' in Hlist. injection Hlist as <- <-.
    destruct l' as [|x l']; [done|].
    destruct (buildArchive (x :: l')) as [a|e] eqn:Eb; [|done].
    injection Hr as ->. exists (x :: l'). split; [done|]. split; [done|].
    destruct Hl as [Hl|Hl]; [done|]. rewrite Hl.
    split; [apply sortNewestFirst_sorted|apply sortNewestFirst_perm].
Qed.

Lemma exportGET_gate_witness :
  exists r st' message,
    exportGET onlyAdminPassword sampleVerify sampleArchive
      (Some (js "old-token")) sampleKV = (Ok r, st') /\
    st' = sampleKV /\ r = ExportError 401 message.
Proof.
  destruct (exportGET_gate onlyAdminPassword sampleVerify sampleArchive
              (Some (js "old-token")) sampleKV)
    as (r & st' & Hrun & _ & _ & Hno & _).
  destruct (Hno eq_refl) as (Hst & message & Hr).
  exists r, st', message. split; [exact Hrun|]. split; [exact Hst|exact Hr].
Defined.

(** X27: the export route does not report a failing store as a server
    error: for an accepted session, when the ping fails the answer is 400
    (storage not configured); when the ping succeeds and the next command
    fails the answer is 404 (no interviews to export), whatever the store
    holds; and the answer is 500 only when building the archive throws. *)
Theorem exportGET_store_failure (env : Env)
    (jwtVerify : jsstring -> jsstring -> VerifyOutcome)
    (buildArchive : list kvValue -> result jsstring)
    (authCookie : option jsstring) (st : KV) :
  presentsSession env jwtVerify authCookie = true ->
  (forall later, faults st = true :: later ->
   exportGET env jwtVerify buildArchive authCookie st =
     (Ok (ExportError 400 (js "Storage not configured")),
      withFaults st later)) /\
  (forall later, faults st = false :: true :: later ->
   exportGET env jwtVerify buildArchive authCookie st =
     (Ok (ExportError 404 (js "No interviews to export")),
      withFaults st later)) /\
  (forall message st',
   exportGET env jwtVerify buildArchive authCookie st =
     (Ok (ExportError 500 message), st') ->
   exists interviews e, buildArchive interviews = Throw e).
Proof.
  destruct st as [d s f]. unfold withFaults. cbn [faults data sets].
  intros Hok. split; [|split].
  - intros later ->. revert Hok. unfold presentsSession.
    destruct authCookie as [[|c token]|]; try discriminate. intros Hok.
    unfold exportGET, tryK. rewrite Hok. cbn [negb].
    unfold mbind, K_bind. by rewrite isKVAvailable_run.
  - intros later ->. revert Hok. unfold presentsSession.
    destruct authCookie as [[|c token]|]; try discriminate. intros Hok.
    unfold exportGET, tryK. rewrite Hok. cbn [negb].
    unfold mbind, K_bind. rewrite isKVAvailable_run. cbn [negb tail].
    unfold getAllInterviews, listRecords, tryK, kvSmembers.
    unfold mbind, K_bind. by run_command.
  - intros message st' Hrun.
    destruct (exportGET_run env jwtVerify buildArchive authCookie d s f)
      as (r & f' & Hrun' & Hcases).
    rewrite Hrun' in Hrun. injection Hrun as -> <-.
    destruct Hcases as [(Hno & _)|[(_ & later & _ & _ & Hr)|
                        (_ & _ & l & _ & Hr)]]; [congruence|discriminate Hr|].
    destruct l as [|x l]; [discriminate Hr|].
    destruct (buildArchive (x :: l)) as [a|e] eqn:Eb; [discriminate Hr|].
    by exists (x :: l), e.
Qed.

Lemma exportGET_store_failure_witness :
  exportGET onlyAdminPassword sampleVerify sampleArchive
    (Some (js "session-token")) (withFaults sampleKV [false; true]) =
  (Ok (ExportError 404 (js "No interviews to export")), sampleKV).
Proof.
  destruct (exportGET_store_failure onlyAdminPassword sampleVerify
              sampleArchive (Some (js "session-token"))
              (withFaults sampleKV [false; true]) eq_refl)
    as (_ & Hnext & _).
  exact (Hnext [] eq_refl).
Defined.

(** ** The summary *)

Lemma escapeQuotes_cons c text :
  escapeQuotes (c :: text) =
  (if (c =? DQUOTE)%N then [DQUOTE; DQUOTE] else [c]) ++ escapeQuotes text.
Proof. reflexivity. Qed.

Lemma escapeQuotes_inj a b : escapeQuotes a = escapeQuotes b -> a = b.
Proof.
  revert b. induction a as [|x a IH]; intros [|y b].
  - done.
  - rewrite escapeQuotes_cons. cbn. by destruct (y =? DQUOTE)%N.
  - rewrite escapeQuotes_cons. cbn. by destruct (x =? DQUOTE)%N.
  - rewrite !escapeQuotes_cons.
    destruct (x =? DQUOTE)%N eqn:Ex, (y =? DQUOTE)%N eqn:Ey; cbn.
    + apply N.eqb_eq in Ex, Ey. intros [= H]. f_equal; [congruence|by apply IH].
    + apply N.eqb_eq in Ex. apply N.eqb_neq in Ey. intros [= H1 H2]. congruence.
    + apply N.eqb_neq in Ex. apply N.eqb_eq in Ey. intros [= H1 H2]. congruence.
    + intros [= -> H]. f_equal. by apply IH.
Qed.

Lemma escapeQuotes_paired text : quotesPaired (escapeQuotes text) = true.
Proof.
  induction text as [|c text IH]; [done|].
  rewrite escapeQuotes_cons. destruct (c =? DQUOTE)%N eqn:Ec; cbn.
  - exact IH.
  - by rewrite Ec.
Qed.

(** X28: the key insight of the summary loses nothing and leaves no
    double quote alone: two interviews with a synthesis have the same
    insight column only if their bottom lines are the same, and in the
    column every double quote is followed or preceded by its double. *)
Theorem csvInsight_escaped (i1 i2 : StoredInterview) (s1 s2 : SynthesisResult) :
  synthesis i1 = Some s1 ->
  synthesis i2 = Some s2 ->
  quotesPaired (csvInsight i1) = true /\
  (csvInsight i1 = csvInsight i2 -> bottomLine s1 = bottomLine s2).
Proof.
  unfold csvInsight. intros -> ->. split.
  - apply escapeQuotes_paired.
  - apply escapeQuotes_inj.
Qed.

Lemma csvInsight_escaped_witness :
  quotesPaired (csvInsight analysedInterview) = true /\
  (csvInsight analysedInterview = csvInsight analysedInterview ->
   bottomLine sampleSynthesis = bottomLine sampleSynthesis).
Proof.
  apply (csvInsight_escaped analysedInterview analysedInterview
           sampleSynthesis sampleSynthesis); reflexivity.
Defined.

(** ** The study form *)

Lemma removeProfileField_ids schema id :
  pf_id <$> removeProfileField schema id `sublist_of` pf_id <$> schema.
Proof.
  unfold removeProfileField. induction schema as [|f schema IH]; [done|].
  cbn. destruct (negb (jsstring_eqb (pf_id f) id)); cbn.
  - by apply sublist_skip.
  - by apply sublist_cons.
Qed.

Lemma toggleFieldRequired_ids schema id :
  pf_id <$> toggleFieldRequired schema id = pf_id <$> schema.
Proof.
  unfold toggleFieldRequired. induction schema as [|f schema IH]; [done|].
  cbn. f_equal; [|exact IH]. by destruct (jsstring_eqb (pf_id f) id).
Qed.

Lemma existsb_pf_id schema id :
  existsb (fun f => jsstring_eqb (pf_id f) id) schema = false ->
  id ∉ pf_id <$> schema.
Proof.
  induction schema as [|f schema IH]; cbn.
  - intros _. apply not_elem_of_nil.
  - intros H. apply orb_false_iff in H as [Hf Hrest].
    apply jsstring_eqb_neq in Hf. rewrite not_elem_of_cons.
    split; [congruence|by apply IH].
Qed.

(** X29: the operations of the form on the profile schema keep the ids
    of the fields distinct: adding a preset (which is skipped when its id
    is taken), removing a field and toggling a field all do; after
    removing, no field has the removed id, and toggling a field twice
    gives the schema back. *)
Theorem profileSchema_ids_unique (schema : list ProfileField)
    (preset : ProfileField) (id : jsstring) (now : nat) :
  NoDup (pf_id <$> schema) ->
  NoDup (pf_id <$> addProfileField schema (Some preset) now) /\
  NoDup (pf_id <$> removeProfileField schema id) /\
  NoDup (pf_id <$> toggleFieldRequired schema id) /\
  (forall f, f ∈ removeProfileField schema id -> pf_id f <> id) /\
  toggleFieldRequired (toggleFieldRequired schema id) id = schema.
Proof.
  intros Hnd. split; [|split; [|split; [|split]]].
  - unfold addProfileField.
    destruct (existsb _ schema) eqn:E; [done|].
    rewrite fmap_app. apply NoDup_app. split; [done|]. split.
    + intros x Hx Hp. cbn in Hp. apply list_elem_of_singleton in Hp as ->.
      by apply existsb_pf_id in E.
    + cbn. apply NoDup_singleton.
  - eapply sublist_NoDup; eauto using removeProfileField_ids.
  - by rewrite toggleFieldRequired_ids.
  - intros f Hf. unfold removeProfileField in Hf.
    apply list_elem_of_In, List.filter_In in Hf as [_ Hf].
    apply negb_true_iff in Hf. by apply jsstring_eqb_neq in Hf.
  - unfold toggleFieldRequired. clear Hnd.
    induction schema as [|f schema IH]; [done|]. cbn. f_equal; [|exact IH].
    destruct (jsstring_eqb (pf_id f) id) eqn:E; cbn; rewrite E; [|done].
    destruct f. cbn. by rewrite negb_involutive.
Qed.

Lemma profileSchema_ids_unique_witness :
  NoDup (pf_id <$> addProfileField (form_profileSchema sampleForm)
                     (Some demoField) 7) /\
  NoDup (pf_id <$> removeProfileField (form_profileSchema sampleForm)
                     (js "role")) /\
  NoDup (pf_id <$> toggleFieldRequired (form_profileSchema sampleForm)
                     (js "role")) /\
  (forall f, f ∈ removeProfileField (form_profileSchema sampleForm) (js "role") ->
     pf_id f <> js "role") /\
  toggleFieldRequired
    (toggleFieldRequired (form_profileSchema sampleForm) (js "role"))
    (js "role") = form_profileSchema sampleForm.
Proof.
  apply (profileSchema_ids_unique (form_profileSchema sampleForm) demoField
           (js "role") 7).
  vm_compute. repeat constructor.
  - intros H. apply elem_of_cons in H as [H|H]; [discriminate H|].
    by apply elem_of_nil in H.
  - intros H. by apply elem_of_nil in H.
Defined.

Lemma filter_filter_same {A} (p : A -> bool) l :
  List.filter p (List.filter p l) = List.filter p l.
Proof.
  induction l as [|x l IH]; [done|]. cbn.
  destruct (p x) eqn:E; cbn; rewrite ?E, IH; done.
Qed.

Lemma filter_notBlank_orOneBlank l :
  List.filter notBlank (orOneBlank (List.filter notBlank l)) =
  List.filter notBlank l.
Proof.
  destruct (List.filter notBlank l) as [|x l'] eqn:E; [reflexivity|].
  cbn [orOneBlank]. rewrite <- E. apply filter_filter_same.
Qed.

Lemma Forall_filter_true {A} (p : A -> bool) l :
  Forall (fun x => p x = true) (List.filter p l).
Proof.
  apply List.Forall_forall. intros x Hx. by apply List.filter_In in Hx as [_ ?].
Qed.

(** X30: [buildConfig] gives a study a name and keeps no blank entry:
    no core question, topic or field label of the configuration is empty
    after trimming.  Copying the configuration back into the form and
    building again gives the same configuration, when the clock is not
    at zero. *)
Theorem buildConfig_resubmit (form : StudyForm)
    (studyConfig : option StudyConfig) (now later : nat) :
  now <> 0%nat ->
  let built := buildConfig form studyConfig now in
  name built <> [] /\
  Forall (fun q => notBlank q = true) (coreQuestions built) /\
  Forall (fun t => notBlank t = true) (topicAreas built) /\
  Forall (fun f => notBlank (pf_label f) = true) (profileSchema built) /\
  buildConfig (syncForm built) (Some built) later = built.
Proof.
  intros Hnow built.
  assert (Hname : name built <> []).
  { subst built. cbn. by destruct (form_name form). }
  split; [exact Hname|].
  split; [apply Forall_filter_true|].
  split; [apply Forall_filter_true|].
  split; [apply (Forall_filter_true (fun f => notBlank (pf_label f)))|].
  assert (Hid : exists c id, sc_id built = c :: id).
  { subst built. cbn [buildConfig sc_id].
    destruct studyConfig as [[[|c id] ? ? ? ? ? ? ? ? ? ? ?]|];
      by eexists _, _. }
  assert (Hcreated : (createdAt built =? 0) = false).
  { subst built. cbn [buildConfig createdAt]. apply Z.eqb_neq.
    destruct studyConfig as [c|]; [|lia].
    destruct (createdAt c =? 0) eqn:E; [lia|]. by apply Z.eqb_neq in E. }
  destruct Hid as (c & id & Hid).
  unfold buildConfig at 1. cbn [syncForm form_name form_description
    form_researchQuestion form_coreQuestions form_topicAreas
    form_profileSchema form_aiBehavior form_consentText].
  rewrite Hcreated.
  replace (List.filter notBlank (orOneBlank (coreQuestions built)))
    with (coreQuestions built)
    by (subst built; cbn [buildConfig coreQuestions];
        by rewrite filter_notBlank_orOneBlank).
  replace (List.filter notBlank (orOneBlank (topicAreas built)))
    with (topicAreas built)
    by (subst built; cbn [buildConfig topicAreas];
        by rewrite filter_notBlank_orOneBlank).
  replace (List.filter (fun f => notBlank (pf_label f)) (profileSchema built))
    with (profileSchema built)
    by (subst built; cbn [buildConfig profileSchema];
        by rewrite filter_filter_same).
  assert (Htone : tone built = None) by done.
  assert (Hlang : language built = None) by done.
  clearbody built.
  destruct built as [bid bname bdesc brq bqs btopics bschema bai bconsent
                     bcreated btone blang].
  cbn in *. subst. by destruct bname.
Qed.

Lemma buildConfig_resubmit_witness :
  name (buildConfig sampleForm None 5) <> [] /\
  Forall (fun q => notBlank q = true)
    (coreQuestions (buildConfig sampleForm None 5)) /\
  Forall (fun t => notBlank t = true)
    (topicAreas (buildConfig sampleForm None 5)) /\
  Forall (fun f => notBlank (pf_label f) = true)
    (profileSchema (buildConfig sampleForm None 5)) /\
  buildConfig (syncForm (buildConfig sampleForm None 5))
    (Some (buildConfig sampleForm None 5)) 9 =
  buildConfig sampleForm None 5.
Proof.
  apply (buildConfig_resubmit sampleForm None 5 9). discriminate.
Defined.
